(** * Mutation-stream control plane: topic feed controller, stream manager
      and scan-side cancel callback, embedded from the Go sources.

    - [Projector]      : secondary/projector/feed.go
    - [Manager]        : the stream manager (package manager)
    - [Indexer]        : secondary/indexer/scan_coordinator.go (CancelCb)

    Go maps are [gmap]s, slices are lists, fixed-width integers are [Z].
    Code that talks to the outside world (the producer, the data path,
    other goroutines) is written in a small state monad over the actor's
    struct together with an explicit environment. *)

From stdpp Require Import gmap strings list fin_maps.
From Stdlib Require Import ZArith.

Local Open Scope Z_scope.

(** ** A state monad with crashes

    [Done a s] is a normal return (a Go error is an ordinary returned
    value), [Crashed s] a run-time panic, [Blocked s] a goroutine that
    waits for ever (a lock it holds itself). *)

Inductive result (S A : Type) : Type :=
| Done (a : A) (s : S)
| Crashed (s : S)
| Blocked (s : S).
Arguments Done {S A} a s.
Arguments Crashed {S A} s.
Arguments Blocked {S A} s.

Definition M (S A : Type) : Type := S → result S A.

Definition ret {S A} (a : A) : M S A := λ s, Done a s.

Definition bind {S A B} (m : M S A) (k : A → M S B) : M S B :=
  λ s, match m s with
       | Done a s' => k a s'
       | Crashed s' => Crashed s'
       | Blocked s' => Blocked s'
       end.

Definition gets {S A} (f : S → A) : M S A := λ s, Done (f s) s.
Definition modify {S} (f : S → S) : M S unit := λ s, Done tt (f s).
Definition panic {S A} : M S A := λ s, Crashed s.

(** The state a run ends in, and what it returned. *)
Definition stateOf {S A} (r : result S A) : S :=
  match r with
  | Done _ s => s
  | Crashed s => s
  | Blocked s => s
  end.

Definition valueOf {S A} (r : result S A) : option A :=
  match r with
  | Done a _ => Some a
  | _ => None
  end.

(** Go's [v, err := f(); if err != nil { return ..., err }]: a call
    returning [(T, error)] is an [E + T]. *)
Definition bindE {S E A B} (m : M S (E + A)) (k : A → M S (E + B)) : M S (E + B) :=
  bind m (λ r, match r with
               | inl e => ret (inl e)
               | inr a => k a
               end).

#[global] Instance M_ret {S} : MRet (M S) := λ A, ret.
#[global] Instance M_bind {S} : MBind (M S) := λ A B k m, bind m k.

Notation "'check' x ← m ; k" := (bindE m (λ x, k))
  (at level 20, x name, m at level 100, k at level 200, only parsing).
Notation "'check' ' p ← m ; k" := (bindE m (λ x, match x with p => k end))
  (at level 20, p pattern, m at level 100, k at level 200, only parsing).

(** [for _, x := range xs { ... if err != nil { return err } ... }] *)
Fixpoint forE {S E A} (body : A → M S (E + unit)) (xs : list A) : M S (E + unit) :=
  match xs with
  | [] => ret (inr tt)
  | x :: xs' => bindE (body x) (λ _, forE body xs')
  end.

(** [for _, x := range xs { ... }] without early exit. *)
Fixpoint forM {S A} (body : A → M S unit) (xs : list A) : M S unit :=
  match xs with
  | [] => ret tt
  | x :: xs' => bind (body x) (λ _, forM body xs')
  end.

(** Fixed-width conversions. *)
Definition to_uint16 (z : Z) : Z := z mod 2 ^ 16.
Definition to_uint32 (z : Z) : Z := z mod 2 ^ 32.
Definition to_uint64 (z : Z) : Z := z mod 2 ^ 64.

(** ** secondary/projector/feed.go *)

Module Projector.

(** error codes *)
Inductive error : Type :=
| ErrorInvalidBucket
| ErrorInvalidVbucketBranch
| ErrorInconsistentFeed
| ErrorResponseTimeout
| ErrorExternal (code : string). (* an error produced outside feed.go *)

(** Modelled from the spec: protobuf.TsVbuuid is declared outside the
    sources; per bucket it is the parallel arrays (vbno, seqno, vbuuid,
    snapshot start and end) of the VbuuidTimestamp of the data model. A
    nil timestamp reads as [nilTs], as generated getters do. *)
Record TsVbuuid : Type := mkTs {
  Pool : string;
  Bucket : string;
  Vbnos : list Z;          (* []uint32 *)
  Seqnos : list Z;         (* []uint64 *)
  Vbuuids : list Z;        (* []uint64 *)
  Snapshots : list (Z * Z) (* start, end *)
}.

Definition nilTs : TsVbuuid := mkTs "" "" [] [] [] [].
Definition GetPool (ts : TsVbuuid) : string := Pool ts.
Definition GetBucket (ts : TsVbuuid) : string := Bucket ts.
Definition GetVbnos (ts : TsVbuuid) : list Z := Vbnos ts.

(** Modelled from the spec: protobuf.NewTsVbuuid is outside the sources;
    it makes the timestamp of a pool and bucket with no vbucket yet
    ("an empty rollback timestamp"). *)
Definition NewTsVbuuid (pool bucket : string) (maxvb : Z) : TsVbuuid :=
  mkTs pool bucket [] [] [] [].

(** Modelled from the spec: TsVbuuid.Append is outside the sources;
    [Append(vb,seq,uuid,s,e)] adds one entry at the end of each of the
    parallel arrays. *)
Definition Append (ts : TsVbuuid) (vbno seqno vbuuid start end_ : Z) : TsVbuuid :=
  mkTs (Pool ts) (Bucket ts)
       (Vbnos ts ++ [vbno]) (Seqnos ts ++ [seqno])
       (Vbuuids ts ++ [vbuuid]) (Snapshots ts ++ [(start, end_)]).

(** Modelled from the spec: common.Vbno32to16 is outside the sources;
    vbucket numbers are 32 bits wide in a timestamp and 16 bits wide in
    the feedback. *)
Definition Vbno32to16 (vbnos : list Z) : list Z := map to_uint16 vbnos.

(** Modelled from the spec: common.RemoveUint16 is outside the sources;
    the drain loop ends when every requested vbucket has answered, so a
    vbucket that answers is taken off the list of those awaited. *)
Definition RemoveUint16 (item : Z) (xs : list Z) : list Z :=
  filter (λ x, x ≠ item) xs.

(** Modelled from the spec: common.HasUint64 is outside the sources;
    delInstances partitions the engines by whether their instance-id is
    among the ids of the request. *)
Definition HasUint64 (item : Z) (xs : list Z) : bool :=
  bool_decide (item ∈ xs).

(** mcd.Status of the gomemcached library; only ROLLBACK (0x23) is
    inspected. *)
Definition ROLLBACK : Z := 35.

(** Handles of objects owned by other packages. *)
Definition CBucket : Type := nat.        (* *couchbase.Bucket *)
Definition BucketFeeder : Type := nat.
Definition RouterEndpoint : Type := nat.

Record Evaluator : Type := mkEvaluator { ev_Bucket : string }.
Record Router : Type := mkRouter { rt_Endpoints : list string }.

Record Engine : Type := NewEngine {
  en_uuid : Z;
  en_evaluator : Evaluator;
  en_router : option Router
}.

(** NewKVData(feed, bucketn, kvaddr, reqTs, engines, endpoints, mutch) *)
Record KVData : Type := NewKVData {
  kv_bucket : string;
  kv_kvaddr : string;
  kv_reqTs : TsVbuuid
}.

(** mc.UprEvent, the fields feed.go reads. *)
Record UprEvent : Type := mkUprEvent {
  Opaque : Z;
  Status : Z;
  VBucket : Z;
  VBuuid : Z;
  Seqno : Z
}.

Record controlStreamRequest : Type := mkControlStreamRequest {
  csr_bucket : string;
  csr_kvaddr : string;
  csr_opaque : Z;
  csr_status : Z;
  csr_vbno : Z;
  csr_vbuuid : Z;
  csr_seqno : Z
}.

Record controlStreamEnd : Type := mkControlStreamEnd {
  cse_bucket : string;
  cse_kvaddr : string;
  cse_opaque : Z;
  cse_status : Z;
  cse_vbno : Z
}.

(** A dynamically typed value [interface{}] as it travels on the
    channels: a pointer to one of the two feedback structs, or a slice
    [[]interface{}]. *)
#[warnings="-register-all"]
Inductive iface : Type :=
| IStreamRequest (r : controlStreamRequest)
| IStreamEnd (e : controlStreamEnd)
| ISlice (xs : list iface).

(** Feed is mutation stream. *)
Record Feed : Type := mkFeed {
  cluster : string;
  topic : string;
  kvaddrs : list string;
  buckets : gmap string CBucket;
  reqTss : gmap string TsVbuuid;
  rollTss : gmap string TsVbuuid;
  feeders : gmap string BucketFeeder;
  kvdata : gmap string (gmap string KVData);
  endpSettings : string;
  engines : gmap string (gmap Z Engine);
  endpoints : gmap string RouterEndpoint;
  backch : list (list iface)      (* chan []interface{}, FIFO *)
}.

(** NewFeed creates a new topic feed. *)
Definition NewFeed (cluster_ topic_ : string) (kvaddrs_ : list string) : Feed :=
  mkFeed cluster_ topic_ kvaddrs_ ∅ ∅ ∅ ∅ ∅ "" ∅ ∅ [].

(** *** The environment

    What the select statement of the feedback wait can observe next:
    a data-path goroutine posting feedback, the back-channel case being
    chosen, or the timer firing. *)
Inductive event : Type :=
| EvPostStreamRequest (bucket kvaddr : string) (m : UprEvent)
| EvPostStreamEnd (bucket kvaddr : string) (m : UprEvent)
| EvRecv
| EvTimeout.

(** Calls that leave the actor, in the order they are made. *)
Inductive call : Type :=
| CNow
| CConnectBucket (cluster_ pooln bucketn : string)
| CRefresh (b : CBucket)
| CGetVBmap (b : CBucket) (kvaddrs_ : list string)
| CGetFailoverLogs (b : CBucket) (vbnos : list Z)
| COpenBucketFeed (b : CBucket)
| CEndVbStreams (f : BucketFeeder) (opaque : Z) (ts : TsVbuuid)
| CStartVbStreams (f : BucketFeeder) (opaque : Z) (ts : TsVbuuid)
| CGetChannel (f : BucketFeeder)
| CNewKVData (kv : KVData)
| CUpdateTs (kv : option KVData) (ts : TsVbuuid)
| CAddEngines (kv : KVData) (uuids : list Z) (raddrs : list string)
| CDeleteEngines (kv : KVData) (uuids : list Z)
| CCloseKVData (kv : KVData)
| CPing (e : RouterEndpoint)
| CEpFactory (topic_ raddr : string) (setts : string).

(** Answers of the outside world. The first argument is the number of
    calls made so far, so an answer may change over time. *)
Record World : Type := mkWorld {
  w_UnixNano : nat → Z;
  w_ConnectBucket : nat → string → string → string → error + CBucket;
  w_Refresh : nat → CBucket → option error;
  w_GetVBmap : nat → CBucket → list string → error + list (string * list Z);
  w_GetFailoverLogs : nat → CBucket → list Z → error + gmap Z (list (Z * Z));
  w_OpenBucketFeed : nat → CBucket → error + BucketFeeder;
  w_EndVbStreams : nat → BucketFeeder → Z → TsVbuuid → option error;
  w_StartVbStreams : nat → BucketFeeder → Z → TsVbuuid → option error;
  w_Ping : nat → RouterEndpoint → bool;
  w_epFactory : nat → string → string → string → error + option RouterEndpoint;
  (* methods of protobuf.TsVbuuid *)
  VerifyBranch : TsVbuuid → list Z → list Z → bool;
  SelectByVbuckets : TsVbuuid → list Z → TsVbuuid;
  FilterByVbuckets : TsVbuuid → list Z → TsVbuuid;
  Union : TsVbuuid → TsVbuuid → TsVbuuid;
  MaxVbuckets : Z
}.

(** The actor together with its surroundings. *)
Record Sys : Type := mkSys {
  feed : Feed;
  sched : list event;
  trace : list call
}.


(** Field updates. *)
Definition set_reqTss (g : gmap string TsVbuuid → gmap string TsVbuuid) (f : Feed) : Feed :=
  mkFeed (cluster f) (topic f) (kvaddrs f) (buckets f) (g (reqTss f)) (rollTss f)
         (feeders f) (kvdata f) (endpSettings f) (engines f) (endpoints f) (backch f).
Definition set_rollTss (g : gmap string TsVbuuid → gmap string TsVbuuid) (f : Feed) : Feed :=
  mkFeed (cluster f) (topic f) (kvaddrs f) (buckets f) (reqTss f) (g (rollTss f))
         (feeders f) (kvdata f) (endpSettings f) (engines f) (endpoints f) (backch f).
Definition set_feeders (g : gmap string BucketFeeder → gmap string BucketFeeder) (f : Feed) : Feed :=
  mkFeed (cluster f) (topic f) (kvaddrs f) (buckets f) (reqTss f) (rollTss f)
         (g (feeders f)) (kvdata f) (endpSettings f) (engines f) (endpoints f) (backch f).
Definition set_kvdata
    (g : gmap string (gmap string KVData) → gmap string (gmap string KVData)) (f : Feed) : Feed :=
  mkFeed (cluster f) (topic f) (kvaddrs f) (buckets f) (reqTss f) (rollTss f)
         (feeders f) (g (kvdata f)) (endpSettings f) (engines f) (endpoints f) (backch f).
Definition set_endpSettings (setts : string) (f : Feed) : Feed :=
  mkFeed (cluster f) (topic f) (kvaddrs f) (buckets f) (reqTss f) (rollTss f)
         (feeders f) (kvdata f) setts (engines f) (endpoints f) (backch f).
Definition set_engines
    (g : gmap string (gmap Z Engine) → gmap string (gmap Z Engine)) (f : Feed) : Feed :=
  mkFeed (cluster f) (topic f) (kvaddrs f) (buckets f) (reqTss f) (rollTss f)
         (feeders f) (kvdata f) (endpSettings f) (g (engines f)) (endpoints f) (backch f).
Definition set_endpoints
    (g : gmap string RouterEndpoint → gmap string RouterEndpoint) (f : Feed) : Feed :=
  mkFeed (cluster f) (topic f) (kvaddrs f) (buckets f) (reqTss f) (rollTss f)
         (feeders f) (kvdata f) (endpSettings f) (engines f) (g (endpoints f)) (backch f).
Definition set_backch (g : list (list iface) → list (list iface)) (f : Feed) : Feed :=
  mkFeed (cluster f) (topic f) (kvaddrs f) (buckets f) (reqTss f) (rollTss f)
         (feeders f) (kvdata f) (endpSettings f) (engines f) (endpoints f) (g (backch f)).

(** A statement of the actor that changes its own struct. *)
Definition upd (g : Feed → Feed) : M Sys unit :=
  modify (λ s, mkSys (g (feed s)) (sched s) (trace s)).

(** A call that leaves the actor: it is recorded and answered. *)
Definition extern {A} (c : call) (answer : nat → A) : M Sys A :=
  λ s, Done (answer (length (trace s))) (mkSys (feed s) (sched s) (trace s ++ [c])).

Definition asE (err : option error) : error + unit :=
  match err with
  | Some e => inl e
  | None => inr tt
  end.

(** Requests. The evaluators and routers a Subscriber yields are Go maps
    that feed.go ranges over; they are given in the order of that
    iteration. *)
Record Subscriber : Type := mkSubscriber {
  GetEvaluators : error + list (Z * Evaluator);
  GetRouters : error + list (Z * Router)
}.

Record MutationTopicRequest : Type := mkMutationTopicRequest {
  mt_subscriber : Subscriber;
  mt_EndpointSettings : string;
  mt_ReqTimestamps : list TsVbuuid
}.

Record AddBucketsRequest : Type := mkAddBucketsRequest {
  ab_subscriber : Subscriber;
  ab_ReqTimestamps : list TsVbuuid
}.

(** PostStreamRequest feedback from data-path. *)
Definition PostStreamRequest (bucket kvaddr : string) (m : UprEvent)
    (ch : list (list iface)) : list (list iface) :=
  let cmd := mkControlStreamRequest bucket kvaddr
               (Opaque m) (Status m) (VBucket m) (VBuuid m) (Seqno m) in
  ch ++ [[IStreamRequest cmd]].

(** PostStreamEnd feedback from data-path. *)
Definition PostStreamEnd (bucket kvaddr : string) (m : UprEvent)
    (ch : list (list iface)) : list (list iface) :=
  let cmd := mkControlStreamEnd bucket kvaddr (Opaque m) (Status m) (VBucket m) in
  ch ++ [[IStreamEnd cmd]].

(** The select loop of waitOnFeedback, up to [break loop]. An exhausted
    schedule means that nothing else happens before the timer fires. *)
Inductive waited (C : Type) : Type :=
| Waited (err : option error) (c : C)
         (ch msgs : list (list iface)) (rest : list event)
| WaitCrashed (ch : list (list iface)) (rest : list event).
Arguments Waited {C} err c ch msgs rest.
Arguments WaitCrashed {C} ch rest.

Fixpoint feedbackLoop {C} (callb : iface → C → string * C) (evs : list event)
    (ch msgs : list (list iface)) (c : C) : waited C :=
  match evs with
  | [] => Waited (Some ErrorResponseTimeout) c ch msgs []
  | EvTimeout :: rest => Waited (Some ErrorResponseTimeout) c ch msgs rest
  | EvPostStreamRequest bucket kvaddr m :: rest =>
      feedbackLoop callb rest (PostStreamRequest bucket kvaddr m ch) msgs c
  | EvPostStreamEnd bucket kvaddr m :: rest =>
      feedbackLoop callb rest (PostStreamEnd bucket kvaddr m ch) msgs c
  | EvRecv :: rest =>
      match ch with
      | [] => feedbackLoop callb rest ch msgs c (* nothing to receive *)
      | msg :: ch' =>
          match msg with
          | [] => WaitCrashed ch' rest (* msg[0] out of range *)
          | msg0 :: _ =>
              let '(r, c') := callb msg0 c in
              if decide (r = "skip") then feedbackLoop callb rest ch' (msgs ++ [msg]) c'
              else if decide (r = "done") then Waited None c' ch' msgs rest
              else feedbackLoop callb rest ch' msgs c'
          end
      end
  end.

(** The tail of waitOnFeedback: [feed.backch <- []interface{}{msg}]. *)
Definition requeue (ch msgs : list (list iface)) : list (list iface) :=
  ch ++ map (λ msg, [ISlice msg]) msgs.

(** block feed until feedback posted back from kvdata. *)
Definition waitOnFeedback {C} (callb : iface → C → string * C) (c : C)
    : M Sys (option error * C) :=
  λ s, match feedbackLoop callb (sched s) (backch (feed s)) [] c with
       | Waited err c' ch msgs rest =>
           Done (err, c') (mkSys (set_backch (λ _, requeue ch msgs) (feed s)) rest (trace s))
       | WaitCrashed ch rest =>
           Crashed (mkSys (set_backch (λ _, ch) (feed s)) rest (trace s))
       end.

(** The closure passed by waitStreamRequests; it owns [vbnos] and
    [rollTs]. *)
Definition streamRequestCallb (opaque : Z) (bucketn : string)
    (msg : iface) (c : list Z * TsVbuuid) : string * (list Z * TsVbuuid) :=
  let '(vbnos, rollTs) := c in
  match msg with
  | IStreamRequest val =>
      if bool_decide (csr_bucket val = bucketn) && bool_decide (csr_opaque val = opaque) then
        let rollTs :=
          if bool_decide (csr_status val = ROLLBACK)
          then Append rollTs (csr_vbno val) (csr_seqno val) (csr_vbuuid val) 0 0
          else rollTs in
        let vbnos := RemoveUint16 (csr_vbno val) vbnos in
        if bool_decide (length vbnos = 0%nat) then ("done", (vbnos, rollTs))
        else ("ok", (vbnos, rollTs))
      else ("skip", c)
  | _ => ("skip", c)
  end.

(** The closure passed by waitStreamEnds. *)
Definition streamEndCallb (opaque : Z) (bucketn : string)
    (msg : iface) (vbnos : list Z) : string * list Z :=
  match msg with
  | IStreamEnd val =>
      if bool_decide (cse_bucket val = bucketn) && bool_decide (cse_opaque val = opaque) then
        let vbnos := RemoveUint16 (cse_vbno val) vbnos in
        if bool_decide (length vbnos = 0%nat) then ("done", vbnos)
        else ("ok", vbnos)
      else ("skip", vbnos)
  | _ => ("skip", vbnos)
  end.

Section Controller.
Context (W : World).

(** wait for kvdata to post StreamRequest. *)
Definition waitStreamRequests (opaque : Z) (pooln bucketn : string) (vbnos : list Z)
    : M Sys (TsVbuuid * option error) :=
  let rollTs := NewTsVbuuid pooln bucketn (MaxVbuckets W) in
  if bool_decide (length vbnos = 0%nat) then mret (rollTs, None)
  else
    '(err, (_, rollTs)) ← waitOnFeedback (streamRequestCallb opaque bucketn) (vbnos, rollTs);
    mret (rollTs, err).

(** wait for kvdata to post StreamEnd. *)
Definition waitStreamEnds (opaque : Z) (bucketn : string) (vbnos : list Z)
    : M Sys (error + unit) :=
  if bool_decide (length vbnos = 0%nat) then mret (inr tt)
  else
    '(err, _) ← waitOnFeedback (streamEndCallb opaque bucketn) vbnos;
    mret (asE err).

(** generate a new 16 bit opaque value set as MSB. *)
Definition newOpaque : M Sys Z :=
  now ← extern CNow (w_UnixNano W);
  mret (to_uint32 (Z.shiftl (Z.shiftr (to_uint64 now) 40) 16)).

Definition getBucket (pooln bucketn : string) : M Sys (error + CBucket) :=
  fd ← gets feed;
  match buckets fd !! bucketn with
  | None =>
      extern (CConnectBucket (cluster fd) pooln bucketn)
             (λ n, w_ConnectBucket W n (cluster fd) pooln bucketn)
  | Some bucket => mret (inr bucket)
  end.

(** The last loop of bucketDetails: the latest vbuuid of every vbucket,
    [None] when some failover log is empty. *)
Fixpoint latestVbuuids (flogs : gmap Z (list (Z * Z))) (vbnos : list Z) : option (list Z) :=
  match vbnos with
  | [] => Some []
  | vbno :: rest =>
      match last (default [] (flogs !! vbno)) with
      | None => None
      | Some entry => cons entry.1 <$> latestVbuuids flogs rest
      end
  end.

Definition bucketDetails (pooln bucketn : string) : M Sys (error + (list Z * list Z)) :=
  check bucket ← getBucket pooln bucketn;
  check _ ← (err ← extern (CRefresh bucket) (λ n, w_Refresh W n bucket); mret (asE err));
  ka ← gets (kvaddrs ∘ feed);
  check m ← extern (CGetVBmap bucket ka) (λ n, w_GetVBmap W n bucket ka);
  let vbnos := concat (m.*2) in
  check flogs ← extern (CGetFailoverLogs bucket vbnos)
                       (λ n, w_GetFailoverLogs W n bucket vbnos);
  match latestVbuuids flogs vbnos with
  | None => mret (inr ([], [])) (* [return nil, nil, err] where err is nil *)
  | Some vbuuids => mret (inr (vbnos, vbuuids))
  end.

(** start a feed for a bucket with a set of kvfeeder, based on vbmap and
    failover-logs. *)
Definition bucketFeed (opaque : Z) (stop start : bool) (reqTs : TsVbuuid)
    : M Sys (error + BucketFeeder) :=
  let pooln := GetPool reqTs in
  let bucketn := GetBucket reqTs in
  check '(vbnos, vbuuids) ← bucketDetails pooln bucketn;
  if start && negb (VerifyBranch W reqTs vbnos vbuuids) then mret (inl ErrorInvalidVbucketBranch)
  else
    let reqTs := SelectByVbuckets W reqTs vbnos in
    fd ← gets feed;
    check feeder ← match feeders fd !! bucketn with
                    | Some feeder => mret (inr feeder)
                    | None =>
                        check bucket ← getBucket pooln bucketn;
                        extern (COpenBucketFeed bucket) (λ n, w_OpenBucketFeed W n bucket)
                    end;
    check _ ← (if stop
               then err ← extern (CEndVbStreams feeder opaque reqTs)
                                 (λ n, w_EndVbStreams W n feeder opaque reqTs);
                    mret (asE err)
               else mret (inr tt));
    check _ ← (if start
               then err ← extern (CStartVbStreams feeder opaque reqTs)
                                 (λ n, w_StartVbStreams W n feeder opaque reqTs);
                    mret (asE err)
               else mret (inr tt));
    mret (inr feeder).

(** start data-path each kvaddr *)
Fixpoint startDataPath_loop (bucketn : string) (reqTs : TsVbuuid) (ka : list string)
    (m : gmap string KVData) : M Sys (gmap string KVData) :=
  match ka with
  | [] => mret m
  | kvaddr :: ka' =>
      let kvdata := NewKVData bucketn kvaddr reqTs in
      extern (CNewKVData kvdata) (λ _, tt);;
      startDataPath_loop bucketn reqTs ka' (<[kvaddr := kvdata]> m)
  end.

Definition startDataPath (bucketn : string) (feeder : BucketFeeder) (reqTs : TsVbuuid)
    : M Sys (gmap string KVData) :=
  extern (CGetChannel feeder) (λ _, tt);;
  ka ← gets (kvaddrs ∘ feed);
  startDataPath_loop bucketn reqTs ka ∅.

Definition lookupRouter (uuid : Z) (routers : list (Z * Router)) : option Router :=
  snd <$> find (λ p, bool_decide (p.1 = uuid)) routers.

Definition subscribers (req : Subscriber)
    : M Sys (error + (list (Z * Evaluator) * list (Z * Router))) :=
  check evaluators ← mret (GetEvaluators req);
  check routers ← mret (GetRouters req);
  if negb (bool_decide (length evaluators = length routers))
  then mret (inl ErrorInconsistentFeed)
  else if forallb (λ p, bool_decide (is_Some (lookupRouter p.1 routers))) evaluators
  then mret (inr (evaluators, routers))
  else mret (inl ErrorInconsistentFeed).

(** The body shared by startEndpoints and repairEndpoints: reuse the
    endpoint when present and alive, else ask the factory. *)
Definition ensureEndpoint (raddr : string) : M Sys (error + unit) :=
  fd ← gets feed;
  dead ← match endpoints fd !! raddr with
         | None => mret true
         | Some endpoint => alive ← extern (CPing endpoint) (λ n, w_Ping W n endpoint);
                            mret (negb alive)
         end;
  if dead : bool then
    check endpoint ← extern (CEpFactory (topic fd) raddr (endpSettings fd))
                            (λ n, w_epFactory W n (topic fd) raddr (endpSettings fd));
    match endpoint with
    | Some e => upd (set_endpoints (insert raddr e));; mret (inr tt)
    | None => mret (inr tt)
    end
  else mret (inr tt).

Definition startEndpoints (routers : list (Z * Router)) : M Sys (error + unit) :=
  forE (λ p, forE ensureEndpoint (rt_Endpoints p.2)) routers.

Definition installEngine (routers : list (Z * Router)) (p : Z * Evaluator) : M Sys unit :=
  let uuid := p.1 in
  let evaluator := p.2 in
  let bucketn := ev_Bucket evaluator in
  upd (set_engines (λ es,
    let m := default ∅ (es !! bucketn) in
    let engine := NewEngine uuid evaluator (lookupRouter uuid routers) in
    <[bucketn := <[uuid := engine]> m]> es)).

Definition processSubscribers (req : Subscriber) : M Sys (error + unit) :=
  check '(evaluators, routers) ← subscribers req;
  check _ ← startEndpoints routers;
  forM (installEngine routers) evaluators;;
  mret (inr tt).

(** The four side effects that close an iteration of start and of
    addBuckets. *)
Definition installBucket (bucketn : string) (reqTs rollTs : TsVbuuid)
    (feeder : BucketFeeder) (m : gmap string KVData) : M Sys unit :=
  upd (set_reqTss (insert bucketn reqTs));;
  upd (set_rollTss (insert bucketn rollTs));;
  upd (set_feeders (insert bucketn feeder));;
  upd (set_kvdata (insert bucketn m)).

(** One iteration of the loop of start, for the request timestamp of one
    bucket. *)
Definition start_body (opaque : Z) (reqTs : TsVbuuid) : M Sys (error + unit) :=
  let pooln := GetBucket reqTs in
  let bucketn := GetBucket reqTs in
  check feeder ← bucketFeed opaque false true reqTs;
  m ← startDataPath bucketn feeder reqTs;
  let vbnos := Vbno32to16 (GetVbnos reqTs) in
  '(rollTs, err) ← waitStreamRequests opaque pooln bucketn vbnos;
  match err with
  | Some e => mret (inl e)
  | None => installBucket bucketn reqTs rollTs feeder m;; mret (inr tt)
  end.

(** start a new feed. *)
Definition start (req : MutationTopicRequest) : M Sys (error + unit) :=
  check _ ← processSubscribers (mt_subscriber req);
  opaque ← newOpaque;
  forE (start_body opaque) (mt_ReqTimestamps req).

Fixpoint updateTs_loop (kvdata_ : gmap string KVData) (restartTs : TsVbuuid)
    (ka : list string) : M Sys unit :=
  match ka with
  | [] => mret tt
  | kvaddr :: ka' =>
      extern (CUpdateTs (kvdata_ !! kvaddr) restartTs) (λ _, tt);;
      updateTs_loop kvdata_ restartTs ka'
  end.

Definition restartVbuckets_body (opaque : Z) (restartTs : TsVbuuid) : M Sys (error + unit) :=
  let pooln := GetPool restartTs in
  let bucketn := GetBucket restartTs in
  fd ← gets feed;
  match reqTss fd !! bucketn, kvdata fd !! bucketn with
  | Some reqTs, Some kvdata_ =>
      (* first shutdown upstream *)
      check _ ← bucketFeed opaque true false restartTs;
      let vbnos := Vbno32to16 (GetVbnos restartTs) in
      check _ ← waitStreamEnds opaque bucketn vbnos;
      ka ← gets (kvaddrs ∘ feed);
      updateTs_loop kvdata_ restartTs ka;;
      (* then restart the upstream *)
      check _ ← bucketFeed opaque false true restartTs;
      '(rollTs, err) ← waitStreamRequests opaque pooln bucketn vbnos;
      match err with
      | Some e => mret (inl e)
      | None =>
          upd (set_reqTss (insert bucketn (Union W reqTs restartTs)));;
          upd (set_rollTss (insert bucketn rollTs));;
          mret (inr tt)
      end
  | _, _ => mret (inl ErrorInvalidBucket)
  end.

(** a subset of upstreams are restarted. *)
Definition restartVbuckets (restartTimestamps : list TsVbuuid) : M Sys (error + unit) :=
  opaque ← newOpaque;
  forE (restartVbuckets_body opaque) restartTimestamps.

Definition shutdownVbuckets_body (opaque : Z) (shutTs : TsVbuuid) : M Sys (error + unit) :=
  let bucketn := GetBucket shutTs in
  fd ← gets feed;
  match reqTss fd !! bucketn with
  | None => mret (inl ErrorInvalidBucket)
  | Some reqTs =>
      check _ ← bucketFeed opaque true false shutTs;
      let vbnos := Vbno32to16 (GetVbnos shutTs) in
      check _ ← waitStreamEnds opaque bucketn vbnos;
      upd (set_reqTss (insert bucketn (FilterByVbuckets W reqTs vbnos)));;
      mret (inr tt)
  end.

(** a subset of upstreams are closed. *)
Definition shutdownVbuckets (shutdownTimestamps : list TsVbuuid) : M Sys (error + unit) :=
  opaque ← newOpaque;
  forE (shutdownVbuckets_body opaque) shutdownTimestamps.

Definition addBuckets_body (opaque : Z) (reqTs : TsVbuuid) : M Sys (error + unit) :=
  let pooln := GetPool reqTs in
  let bucketn := GetBucket reqTs in
  check feeder ← bucketFeed opaque false true reqTs;
  m ← startDataPath bucketn feeder reqTs;
  let vbnos := Vbno32to16 (GetVbnos reqTs) in
  '(rollTs, err) ← waitStreamRequests opaque pooln bucketn vbnos;
  match err with
  | Some e => mret (inl e)
  | None => installBucket bucketn reqTs rollTs feeder m;; mret (inr tt)
  end.

(** upstreams are added for buckets; data-path opened and
    vbucket-routines started. *)
Definition addBuckets (req : AddBucketsRequest) : M Sys (error + unit) :=
  check _ ← processSubscribers (ab_subscriber req);
  opaque ← newOpaque;
  forE (addBuckets_body opaque) (ab_ReqTimestamps req).

(** The five deletes that close an iteration of delBuckets. *)
Definition forgetBucket (bucketn : string) : M Sys unit :=
  upd (set_reqTss (delete bucketn));;
  upd (set_rollTss (delete bucketn));;
  upd (set_feeders (delete bucketn));;
  upd (set_kvdata (delete bucketn));;
  upd (set_engines (delete bucketn)).

Definition delBuckets_body (opaque : Z) (bucketn : string) : M Sys (error + unit) :=
  fd ← gets feed;
  match kvdata fd !! bucketn with
  | None => mret (inl ErrorInvalidBucket)
  | Some _ =>
      (* stop upstream; a missing feed.reqTss[bucketn] reads as nil *)
      let reqTs := default nilTs (reqTss fd !! bucketn) in
      check _ ← bucketFeed opaque true false reqTs;
      let vbnos := Vbno32to16 (GetVbnos reqTs) in
      check _ ← waitStreamEnds opaque bucketn vbnos;
      (* close data-path *)
      fd ← gets feed;
      forM (λ kv, extern (CCloseKVData kv) (λ _, tt))
           ((map_to_list (default ∅ (kvdata fd !! bucketn))).*2);;
      (* cleanup data structures. *)
      forgetBucket bucketn;;
      mret (inr tt)
  end.

(** upstreams are closed for buckets; data-path is closed for
    downstream. *)
Definition delBuckets (bucketns : list string) : M Sys (error + unit) :=
  opaque ← newOpaque;
  forE (delBuckets_body opaque) bucketns.

(** [kvdata.AddEngines(engines, feed.endpoints)] for every data path of
    a bucket. *)
Definition postAddEngines (fd : Feed) (bucketn : string) (engines_ : gmap Z Engine)
    : M Sys unit :=
  forM (λ kv, extern (CAddEngines kv ((map_to_list engines_).*1)
                                  ((map_to_list (endpoints fd)).*1)) (λ _, tt))
       ((map_to_list (default ∅ (kvdata fd !! bucketn))).*2).

(** only data-path shall be updated. *)
Definition addInstances (req : Subscriber) : M Sys (error + unit) :=
  check _ ← processSubscribers req;
  fd ← gets feed;
  forM (λ p, postAddEngines fd p.1 p.2) (map_to_list (engines fd));;
  mret (inr tt).

(** only data-path shall be updated. *)
Definition delInstances (instanceIds : list Z) : M Sys (error + unit) :=
  fd ← gets feed;
  let bucknIds : gmap string (list Z) :=
    (λ engines_, filter (λ uuid, HasUint64 uuid instanceIds = true)
                        ((map_to_list engines_).*1)) <$> engines fd in
  let fengines : gmap string (gmap Z Engine) :=
    (λ engines_, filter (λ p, HasUint64 p.1 instanceIds = false) engines_) <$> engines fd in
  forM (λ p, forM (λ kv, extern (CDeleteEngines kv p.2) (λ _, tt))
                  ((map_to_list (default ∅ (kvdata fd !! p.1))).*2))
       (map_to_list bucknIds);;
  upd (set_engines (λ _, fengines));;
  mret (inr tt).

(** endpoints are independent. *)
Definition repairEndpoints (raddrs : list string) : M Sys (error + unit) :=
  check _ ← forE ensureEndpoint raddrs;
  fd ← gets feed;
  forM (λ p, postAddEngines fd p.1 (default ∅ (engines fd !! p.1))) (map_to_list (kvdata fd));;
  mret (inr tt).

(** The control commands of handleCommand. *)
Inductive command : Type :=
| fCmdStart (req : MutationTopicRequest)
| fCmdRestartVbuckets (restartTimestamps : list TsVbuuid)
| fCmdShutdownVbuckets (shutdownTimestamps : list TsVbuuid)
| fCmdAddBuckets (req : AddBucketsRequest)
| fCmdDelBuckets (bucketns : list string)
| fCmdAddInstances (req : Subscriber)
| fCmdDelInstances (instanceIds : list Z)
| fCmdRepairEndpoints (raddrs : list string).

Definition handleCommand (cmd : command) : M Sys (error + unit) :=
  match cmd with
  | fCmdStart req =>
      upd (set_endpSettings (mt_EndpointSettings req));;
      start req
  | fCmdRestartVbuckets req => restartVbuckets req
  | fCmdShutdownVbuckets req => shutdownVbuckets req
  | fCmdAddBuckets req => addBuckets req
  | fCmdDelBuckets req => delBuckets req
  | fCmdAddInstances req => addInstances req
  | fCmdDelInstances req => delInstances req
  | fCmdRepairEndpoints req => repairEndpoints req
  end.

End Controller.
End Projector.

(** ** The stream manager (package manager) *)

Module Manager.

(** Modelled from the spec: common.StreamId is declared outside the
    sources; a small enum with at least MAINT_STREAM and INIT_STREAM. *)
Inductive StreamId : Type :=
| MAINT_STREAM
| INIT_STREAM
| OTHER_STREAM (n : nat).

#[global] Instance StreamId_eq_dec : EqDecision StreamId.
Proof. solve_decision. Defined.

Definition StreamId_code (i : StreamId) : nat :=
  match i with
  | MAINT_STREAM => 0%nat
  | INIT_STREAM => 1%nat
  | OTHER_STREAM n => S (S n)
  end.

Definition StreamId_of_code (n : nat) : StreamId :=
  match n with
  | O => MAINT_STREAM
  | S O => INIT_STREAM
  | S (S n) => OTHER_STREAM n
  end.

#[global] Instance StreamId_countable : Countable StreamId.
Proof.
  apply (inj_countable' StreamId_code StreamId_of_code).
  by intros [].
Defined.

(** Modelled from the spec: common.IndexState is declared outside the
    sources; the lifecycle states of an index instance are CREATED,
    READY, INITIAL, ACTIVE and DELETED. *)
Inductive IndexState : Type :=
| INDEX_STATE_CREATED
| INDEX_STATE_READY
| INDEX_STATE_INITIAL
| INDEX_STATE_ACTIVE
| INDEX_STATE_DELETED.

#[global] Instance IndexState_eq_dec : EqDecision IndexState.
Proof. solve_decision. Defined.

Inductive error : Type :=
| ERROR_STREAM_NOT_OPEN
| ErrorExternal (code : string). (* an error produced outside the manager *)

(** Modelled from the spec: the topology types are declared outside the
    sources; a topology of a bucket has a Version and definitions, a
    definition has instances, an instance an instance-id and a
    lifecycle state. *)
Record IndexInstDistribution : Type := mkInst {
  InstId : Z;
  State : IndexState
}.

Record IndexDefnDistribution : Type := mkDefn {
  dBucket : string;
  Name : string;
  Instances : list IndexInstDistribution
}.

Record IndexTopology : Type := mkTopology {
  Version : Z;
  Bucket : string;
  Definitions : list IndexDefnDistribution
}.

(** Modelled from the spec: IndexTopology.FindIndexDefinition is outside
    the sources; it gives the old definition that a new definition is
    compared with, the one of the same bucket and name, or nil. *)
Definition FindIndexDefinition (t : IndexTopology) (bucket name : string)
    : option IndexDefnDistribution :=
  find (λ d, bool_decide (dBucket d = bucket) && bool_decide (Name d = name)) (Definitions t).

(** protobuf.Instance as sent to the projector. *)
Record Instance : Type := mkInstance {
  pi_instId : Z;
  pi_addr : string
}.

(** A change record holds two pointers. Go variables whose address is
    taken live in [defnVars] and [instVars]; a pointer is an index into
    them. *)
Record changeRecord : Type := mkChangeRecord {
  definition : nat;
  instance : nat
}.

Record Stream : Type := mkStream {
  st_id : StreamId;
  st_status : bool
}.

(** StreamManager for managing stream for mutation consumer. *)
Record StreamManager : Type := mkStreamManager {
  streams : gmap StreamId Stream;
  topologies : gmap string IndexTopology;
  monitor : bool;  (* monitor != nil *)
  mutex : bool;    (* held *)
  isClosed : bool;
  stopch : bool    (* closed *)
}.

(** Create new stream managaer *)
Definition NewStreamManager (monitor_ : bool) : StreamManager :=
  mkStreamManager ∅ ∅ monitor_ false false false.

(** Calls that leave the manager, in the order they are made. *)
Inductive call : Type :=
| CAddIndexToStream (streamId : StreamId) (bucket : list string) (instances : list Instance)
| CDeleteIndexFromStream (streamId : StreamId) (bucket : list string) (instances : list Z)
| CRestartStreamIfNecessary (streamId : StreamId) (timestamps : list nat)
| CTimerStart (streamId : StreamId) (bucket : string)
| CTimerStopForStream (streamId : StreamId)
| CStreamClose (streamId : StreamId)
| CMonitorClose
| CNewStream (streamId : StreamId) (port : string)
| CStreamStart (streamId : StreamId)
| CGetLocalServiceHost
| CGetGlobalTopology
| CGetTopologyAsInstanceProtoMsg (bucket addr : string)
| CGetAllDeletedIndexInstancesId (buckets : list string)
| CGetChangeRecordAsProtoMsg
    (changes : list (option IndexDefnDistribution * option IndexInstDistribution))
    (addr : string).

(** The calls on the StreamAdmin interface. *)
Definition is_admin_call (c : call) : bool :=
  match c with
  | CAddIndexToStream _ _ _ | CDeleteIndexFromStream _ _ _
  | CRestartStreamIfNecessary _ _ => true
  | _ => false
  end.

(** Answers of the outside world; the first argument is the number of
    calls made so far. *)
Record World : Type := mkWorld {
  getPortForStreamId : StreamId → string;
  getBucketFromTopologyKey : string → string;
  w_newStream : nat → StreamId → string → option error;
  w_streamStart : nat → StreamId → option error;
  w_GetLocalServiceHost : nat → error + string;
  w_GetGlobalTopology : nat → error + list string; (* TopologyKeys *)
  w_GetTopologyAsInstanceProtoMsg :
    nat → string → string → error + (list Instance * IndexTopology);
  w_GetAllDeletedIndexInstancesId : nat → list string → error + list Z;
  w_GetChangeRecordAsProtoMsg :
    nat → list (option IndexDefnDistribution * option IndexInstDistribution) →
    string → error + list Instance;
  w_AddIndexToStream : nat → StreamId → list string → list Instance → option error;
  w_DeleteIndexFromStream : nat → StreamId → list string → list Z → option error;
  w_RestartStreamIfNecessary : nat → StreamId → list nat → option error
}.

Record Sys : Type := mkSys {
  mgr : StreamManager;
  defnVars : list IndexDefnDistribution;
  instVars : list IndexInstDistribution;
  trace : list call
}.

Definition upd (g : StreamManager → StreamManager) : M Sys unit :=
  modify (λ s, mkSys (g (mgr s)) (defnVars s) (instVars s) (trace s)).

Definition set_streams (g : gmap StreamId Stream → gmap StreamId Stream)
    (m : StreamManager) : StreamManager :=
  mkStreamManager (g (streams m)) (topologies m) (monitor m) (mutex m) (isClosed m) (stopch m).
Definition set_topologies (g : gmap string IndexTopology → gmap string IndexTopology)
    (m : StreamManager) : StreamManager :=
  mkStreamManager (streams m) (g (topologies m)) (monitor m) (mutex m) (isClosed m) (stopch m).
Definition set_mutex (b : bool) (m : StreamManager) : StreamManager :=
  mkStreamManager (streams m) (topologies m) (monitor m) b (isClosed m) (stopch m).
Definition set_isClosed (b : bool) (m : StreamManager) : StreamManager :=
  mkStreamManager (streams m) (topologies m) (monitor m) (mutex m) b (stopch m).
Definition set_stopch (b : bool) (m : StreamManager) : StreamManager :=
  mkStreamManager (streams m) (topologies m) (monitor m) (mutex m) (isClosed m) b.

Definition extern {A} (c : call) (answer : nat → A) : M Sys A :=
  λ s, Done (answer (length (trace s)))
            (mkSys (mgr s) (defnVars s) (instVars s) (trace s ++ [c])).

Definition asE (err : option error) : error + unit :=
  match err with
  | Some e => inl e
  | None => inr tt
  end.

(** [s.mutex.Lock(); defer s.mutex.Unlock()] around a method body. The
    mutex is not reentrant: locking it while it is held blocks. *)
Definition locked {A} (body : M Sys A) : M Sys A :=
  λ s, if mutex (mgr s) then Blocked s
       else match body (mkSys (set_mutex true (mgr s)) (defnVars s) (instVars s) (trace s)) with
            | Done a s' =>
                Done a (mkSys (set_mutex false (mgr s')) (defnVars s') (instVars s') (trace s'))
            | Crashed s' =>
                Crashed (mkSys (set_mutex false (mgr s')) (defnVars s') (instVars s') (trace s'))
            | Blocked s' => Blocked s'
            end.

(** Variables whose address is taken. *)
Definition newDefnVar : M Sys nat :=
  λ s, Done (length (defnVars s))
            (mkSys (mgr s) (defnVars s ++ [mkDefn "" "" []]) (instVars s) (trace s)).
Definition newInstVar : M Sys nat :=
  λ s, Done (length (instVars s))
            (mkSys (mgr s) (defnVars s) (instVars s ++ [mkInst 0 INDEX_STATE_CREATED]) (trace s)).
Definition storeDefn (p : nat) (d : IndexDefnDistribution) : M Sys unit :=
  modify (λ s, mkSys (mgr s) (<[p := d]> (defnVars s)) (instVars s) (trace s)).
Definition storeInst (p : nat) (i : IndexInstDistribution) : M Sys unit :=
  modify (λ s, mkSys (mgr s) (defnVars s) (<[p := i]> (instVars s)) (trace s)).
Definition loadDefn (p : nat) : M Sys IndexDefnDistribution :=
  λ s, match defnVars s !! p with
       | Some d => Done d s
       | None => Crashed s
       end.
Definition loadInst (p : nat) : M Sys IndexInstDistribution :=
  λ s, match instVars s !! p with
       | Some i => Done i s
       | None => Crashed s
       end.

Section Methods.
Context (W : World).

Definition isOpen (stream : option Stream) : bool :=
  match stream with
  | Some st => st_status st
  | None => false
  end.

Definition closeStreamNoLock (streamId : StreamId) : M Sys (error + unit) :=
  m ← gets mgr;
  (* if stream not open, no-op *)
  if negb (isOpen (streams m !! streamId)) then mret (inr tt)
  else
    extern (CTimerStopForStream streamId) (λ _, tt);;
    upd (set_streams (delete streamId));;
    mret (inr tt).

(** The loop of Close over [s.streams]; an entry deleted before it is
    reached is not visited. *)
Fixpoint Close_loop (entries : list (StreamId * Stream)) : M Sys unit :=
  match entries with
  | [] => mret tt
  | (k, stream) :: rest =>
      m ← gets mgr;
      (if bool_decide (is_Some (streams m !! k))
       then extern (CStreamClose (st_id stream)) (λ _, tt);;
            closeStreamNoLock (st_id stream);;
            mret tt
       else mret tt);;
      Close_loop rest
  end.

(** Close all the streams. *)
Definition Close : M Sys unit :=
  locked (
    m ← gets mgr;
    if isClosed m then mret tt
    else
      Close_loop (map_to_list (streams m));;
      (if monitor m then extern CMonitorClose (λ _, tt) else mret tt);;
      upd (set_stopch true);;
      upd (set_isClosed true)).

(** Is all the stream closed? *)
Definition IsClosed : M Sys bool :=
  locked (gets (isClosed ∘ mgr)).

(** Start a stream for listening only. *)
Definition StartStream (streamId : StreamId) : M Sys (error + unit) :=
  locked (
    m ← gets mgr;
    if isClosed m then mret (inr tt)
    else if isOpen (streams m !! streamId) then mret (inr tt)
    else
      let port := getPortForStreamId W streamId in
      check _ ← (err ← extern (CNewStream streamId port) (λ n, w_newStream W n streamId port);
                 mret (asE err));
      check _ ← (err ← extern (CStreamStart streamId) (λ n, w_streamStart W n streamId);
                 mret (asE err));
      upd (set_streams (insert streamId (mkStream streamId true)));;
      mret (inr tt)).

Definition getAddrForPort (port : string) : M Sys (error + string) :=
  check host ← extern CGetLocalServiceHost (w_GetLocalServiceHost W);
  mret (inr (host +:+ ":" +:+ port)).

(** Get the list of buckets that have indexes. *)
Definition getBucketWithIndexes : M Sys (error + list string) :=
  globalTop ← extern CGetGlobalTopology (w_GetGlobalTopology W);
  match globalTop with
  | inl _ => mret (inr [])
  | inr keys => mret (inr (map (getBucketFromTopologyKey W) keys))
  end.

Fixpoint AddIndexForBuckets_loop (streamId : StreamId) (buckets : list string)
    (allInstances : list Instance) : M Sys (error + list Instance) :=
  match buckets with
  | [] => mret (inr allInstances)
  | bucket :: rest =>
      extern (CTimerStart streamId bucket) (λ _, tt);;
      let port := getPortForStreamId W streamId in
      check addr ← getAddrForPort port;
      check '(instances, _) ← extern (CGetTopologyAsInstanceProtoMsg bucket addr)
                                    (λ n, w_GetTopologyAsInstanceProtoMsg W n bucket addr);
      AddIndexForBuckets_loop streamId rest
        (if bool_decide (length instances ≠ 0%nat) then allInstances ++ instances
         else allInstances)
  end.

(** Kick off the mutation source to start streaming mutation for given
    buckets. *)
Definition AddIndexForBuckets (streamId : StreamId) (buckets : list string)
    : M Sys (error + unit) :=
  locked (
    m ← gets mgr;
    if isClosed m then mret (inr tt)
    else if negb (isOpen (streams m !! streamId)) then mret (inl ERROR_STREAM_NOT_OPEN)
    else
      check allInstances ← AddIndexForBuckets_loop streamId buckets [];
      err ← extern (CAddIndexToStream streamId buckets allInstances)
                   (λ n, w_AddIndexToStream W n streamId buckets allInstances);
      mret (asE err)).

(** Kick off the mutation source to start streaming mutation for all
    buckets. *)
Definition AddIndexForAllBuckets (streamId : StreamId) : M Sys (error + unit) :=
  locked (
    m ← gets mgr;
    if isClosed m then mret (inr tt)
    else
      check buckets ← getBucketWithIndexes;
      AddIndexForBuckets streamId buckets).

(** Delete Index For Buckets *)
Definition DeleteIndexForBuckets (streamId : StreamId) (buckets : list string)
    : M Sys (error + unit) :=
  locked (
    m ← gets mgr;
    if isClosed m then mret (inr tt)
    else if negb (isOpen (streams m !! streamId)) then mret (inl ERROR_STREAM_NOT_OPEN)
    else
      check instances ← extern (CGetAllDeletedIndexInstancesId buckets)
                               (λ n, w_GetAllDeletedIndexInstancesId W n buckets);
      err ← extern (CDeleteIndexFromStream streamId buckets instances)
                   (λ n, w_DeleteIndexFromStream W n streamId buckets instances);
      mret (asE err)).

(** Restart specific vbucket in the stream based on the given
    timestamp. *)
Definition RestartStreamIfNecessary (streamId : StreamId) (timestamps : list nat)
    : M Sys (error + unit) :=
  locked (
    m ← gets mgr;
    if isClosed m then mret (inr tt)
    else
      err ← extern (CRestartStreamIfNecessary streamId timestamps)
                   (λ n, w_RestartStreamIfNecessary W n streamId timestamps);
      mret (asE err)).

(** Close a particular stream. *)
Definition CloseStream (streamId : StreamId) : M Sys (error + unit) :=
  locked (
    m ← gets mgr;
    if isClosed m then mret (inr tt)
    else closeStreamNoLock streamId).

(** Add index instances to a stream. *)
Definition addIndexInstances (streamId : StreamId) (bucket : string)
    (instances : list Instance) : M Sys (error + unit) :=
  locked (
    m ← gets mgr;
    if isClosed m then mret (inr tt)
    else if negb (isOpen (streams m !! streamId)) then mret (inl ERROR_STREAM_NOT_OPEN)
    else
      extern (CTimerStart streamId bucket) (λ _, tt);;
      err ← extern (CAddIndexToStream streamId [bucket] instances)
                   (λ n, w_AddIndexToStream W n streamId [bucket] instances);
      mret (asE err)).

(** Remove index instances from stream *)
Definition removeIndexInstances (streamId : StreamId) (bucket : string)
    (instances : list Z) : M Sys (error + unit) :=
  locked (
    m ← gets mgr;
    if isClosed m then mret (inr tt)
    else if negb (isOpen (streams m !! streamId)) then mret (inl ERROR_STREAM_NOT_OPEN)
    else
      err ← extern (CDeleteIndexFromStream streamId [bucket] instances)
                   (λ n, w_DeleteIndexFromStream W n streamId [bucket] instances);
      mret (asE err)).

(** Return true if 'state' is in one of the possible states. If the
    possible states are not given (nil), then return true. *)
Definition inState (state : IndexState) (possibleStates : option (list IndexState)) : bool :=
  match possibleStates with
  | None => true
  | Some states => existsb (λ possible, bool_decide (state = possible)) states
  end.

(** The inner loop of addInstancesToChangeList over the instances of the
    old definition. *)
Fixpoint matchOldInstances (newInst : IndexInstDistribution)
    (fromStates : option (list IndexState)) (oldInsts : list IndexInstDistribution)
    (add : bool) : bool :=
  match oldInsts with
  | [] => add
  | oldInst :: rest =>
      matchOldInstances newInst fromStates rest
        (if bool_decide (InstId newInst = InstId oldInst)
         then add && inState (State oldInst) fromStates
                  && negb (bool_decide (State oldInst = State newInst))
         else add)
  end.

(** The value of [add] when the loop body reaches [if add]. *)
Definition addDecision (oldDefn : option IndexDefnDistribution)
    (newInst : IndexInstDistribution)
    (fromStates toStates : option (list IndexState)) : bool :=
  let add := inState (State newInst) toStates in
  match oldDefn with
  | Some old => matchOldInstances newInst fromStates (Instances old) add
  | None => add
  end.

(** The loop of addInstancesToChangeList. [newInst] is the one loop
    variable of the range statement, at address [newInstVar]: every
    iteration assigns it, and every record stores its address. *)
Fixpoint addInstancesToChangeList_loop (oldDefn : option IndexDefnDistribution)
    (newDefn newInstVar_ : nat) (fromStates toStates : option (list IndexState))
    (insts : list IndexInstDistribution) (changes : list changeRecord)
    : M Sys (list changeRecord) :=
  match insts with
  | [] => mret changes
  | elem :: rest =>
      storeInst newInstVar_ elem;;
      newInst ← loadInst newInstVar_;
      let add := addDecision oldDefn newInst fromStates toStates in
      let changes :=
        if add then changes ++ [mkChangeRecord newDefn newInstVar_] else changes in
      addInstancesToChangeList_loop oldDefn newDefn newInstVar_ fromStates toStates
                                    rest changes
  end.

(** This function finds the difference between two index definitons (in
    topology). [newDefn] is a pointer. *)
Definition addInstancesToChangeList (oldDefn : option IndexDefnDistribution)
    (newDefn : nat) (fromStates toStates : option (list IndexState))
    : M Sys (list changeRecord) :=
  defn ← loadDefn newDefn;
  newInstVar_ ← newInstVar;
  addInstancesToChangeList_loop oldDefn newDefn newInstVar_ fromStates toStates
                                (Instances defn) [].

(** The loop over [newTopology.Definitions] in handleAddInstances and
    handleDeleteInstances; [newDefnVar_] is the address of its loop
    variable, and [findOld] the lookup of the old definition. *)
Fixpoint collectChanges (findOld : IndexDefnDistribution → option IndexDefnDistribution)
    (newDefnVar_ : nat) (fromState toState : option (list IndexState))
    (defns : list IndexDefnDistribution) (changes : list changeRecord)
    : M Sys (list changeRecord) :=
  match defns with
  | [] => mret changes
  | elem :: rest =>
      storeDefn newDefnVar_ elem;;
      newDefn ← loadDefn newDefnVar_;
      more ← addInstancesToChangeList (findOld newDefn) newDefnVar_ fromState toState;
      collectChanges findOld newDefnVar_ fromState toState rest (changes ++ more)
  end.

(** What the two pointers of a change record point to now. *)
Definition deref (s : Sys) (change : changeRecord)
    : option IndexDefnDistribution * option IndexInstDistribution :=
  (defnVars s !! definition change, instVars s !! instance change).

Definition sameVersion (oldTopology : option IndexTopology) (newTopology : IndexTopology)
    : bool :=
  match oldTopology with
  | Some old => bool_decide (Version old = Version newTopology)
  | None => false
  end.

(** This function computes topology changes. *)
Definition handleAddInstances (streamId : StreamId) (bucket : string)
    (oldTopology : option IndexTopology) (newTopology : IndexTopology)
    (fromState toState : option (list IndexState)) : M Sys (error + unit) :=
  if sameVersion oldTopology newTopology then mret (inr tt)
  else
    newDefnVar_ ← newDefnVar;
    changes ← collectChanges
                (λ newDefn, match oldTopology with
                            | Some old => FindIndexDefinition old bucket (Name newDefn)
                            | None => None
                            end)
                newDefnVar_ fromState toState (Definitions newTopology) [];
    if bool_decide (0 < length changes)%nat then
      let port := getPortForStreamId W streamId in
      check addr ← getAddrForPort port;
      resolved ← gets (λ s, map (deref s) changes);
      check instances ← extern (CGetChangeRecordAsProtoMsg resolved addr)
                               (λ n, w_GetChangeRecordAsProtoMsg W n resolved addr);
      addIndexInstances streamId bucket instances
    else mret (inr tt).

(** [toBeDeleted = append(toBeDeleted, change.instance.InstId)] *)
Fixpoint instanceIds (changes : list changeRecord) (toBeDeleted : list Z) : M Sys (list Z) :=
  match changes with
  | [] => mret toBeDeleted
  | change :: rest =>
      inst ← loadInst (instance change);
      instanceIds rest (toBeDeleted ++ [InstId inst])
  end.

(** This function computes topology changes. *)
Definition handleDeleteInstances (streamId : StreamId) (bucket : string)
    (oldTopology : option IndexTopology) (newTopology : IndexTopology)
    (fromState toState : option (list IndexState)) : M Sys (error + unit) :=
  if bool_decide (oldTopology = None) || sameVersion oldTopology newTopology
  then mret (inr tt)
  else
    newDefnVar_ ← newDefnVar;
    changes ← collectChanges
                (λ newDefn, match oldTopology with
                            | Some old =>
                                FindIndexDefinition old (dBucket newDefn) (Name newDefn)
                            | None => None
                            end)
                newDefnVar_ fromState toState (Definitions newTopology) [];
    toBeDeleted ← instanceIds changes [];
    removeIndexInstances streamId bucket toBeDeleted.

(** This function responds to topology change for maintenance stream. *)
Definition handleTopologyChangeForMaintStream (newTopology : IndexTopology)
    : M Sys (error + unit) :=
  m ← gets mgr;
  if negb (isOpen (streams m !! MAINT_STREAM)) then mret (inr tt)
  else
    let oldTopology := topologies m !! Bucket newTopology in
    check _ ← handleAddInstances MAINT_STREAM (Bucket newTopology) oldTopology newTopology
                (Some [INDEX_STATE_CREATED]) (Some [INDEX_STATE_READY]);
    check _ ← handleDeleteInstances MAINT_STREAM (Bucket newTopology) oldTopology newTopology
                (Some [INDEX_STATE_ACTIVE; INDEX_STATE_READY]) (Some [INDEX_STATE_DELETED]);
    mret (inr tt).

(** This function responds to topology change for init stream. *)
Definition handleTopologyChangeForInitStream (newTopology : IndexTopology)
    : M Sys (error + unit) :=
  m ← gets mgr;
  if negb (isOpen (streams m !! INIT_STREAM)) then mret (inr tt)
  else
    let oldTopology := topologies m !! Bucket newTopology in
    check _ ← handleAddInstances INIT_STREAM (Bucket newTopology) oldTopology newTopology
                (Some [INDEX_STATE_CREATED]) (Some [INDEX_STATE_READY]);
    check _ ← handleDeleteInstances INIT_STREAM (Bucket newTopology) oldTopology newTopology
                None (Some [INDEX_STATE_DELETED; INDEX_STATE_ACTIVE]);
    mret (inr tt).

(** Handle Topology changes for both maintenance and init streams *)
Definition handleTopologyChange (newTopology : IndexTopology) : M Sys (error + unit) :=
  check _ ← handleTopologyChangeForMaintStream newTopology;
  check _ ← handleTopologyChangeForInitStream newTopology;
  (* Update the topology *)
  upd (set_topologies (insert (Bucket newTopology) newTopology));;
  mret (inr tt).

End Methods.
End Manager.

(** ** secondary/indexer/scan_coordinator.go: CancelCb *)

Module Indexer.

Inductive error : Type :=
| ErrClientCancel
| ErrScanTimedOut.











End Indexer.

(** * Specifications

    ** Relations between the state before and after a computation *)

Section Respects.
Context {S : Type} (R : relation S).

(** Wherever the computation ends, the state it leaves is [R]-related to
    the one it began in. *)
Definition respects {A} (m : M S A) : Prop :=
  ∀ s, match m s with
       | Done _ s' => R s s'
       | Crashed s' => R s s'
       | Blocked s' => R s s'
       end.

End Respects.

(** A view [π] of the state has the same value afterwards. *)
Definition kept {S X} (π : S → X) : relation S := λ s s', π s' = π s.

(** A property of the state holds afterwards if it held before. *)
Definition preserved {S} (P : S → Prop) : relation S := λ s s', P s → P s'.

Module ProjectorSpec.
Import Projector.

(** The per-bucket maps of the topic state. *)
Definition bucketMapsOf (s : Sys) :=
  (reqTss (feed s), rollTss (feed s), feeders (feed s), kvdata (feed s), engines (feed s)).

(** The per-bucket maps of the upstream side. *)
Definition upstreamOf (s : Sys) :=
  (reqTss (feed s), rollTss (feed s), feeders (feed s), kvdata (feed s)).

(** What a feedback wait reads: the schedule and the back-channel. *)
Definition inboxOf (s : Sys) := (sched s, backch (feed s)).

(** Everything but the endpoints, the settings and the trace. *)
Definition quietOf (s : Sys) := (bucketMapsOf s, inboxOf s).

(** The entries of one bucket in the upstream maps. *)
Definition upstreamAt (bucketn : string) (s : Sys) :=
  (reqTss (feed s) !! bucketn, rollTss (feed s) !! bucketn,
   feeders (feed s) !! bucketn, kvdata (feed s) !! bucketn).

(** The feedback struct PostStreamRequest sends for an event. *)
Definition streamRequestOf (bucket kvaddr : string) (m : UprEvent) : controlStreamRequest :=
  mkControlStreamRequest bucket kvaddr (Opaque m) (Status m) (VBucket m) (VBuuid m) (Seqno m).

(** The rollback timestamp after the feedback [fb] has been consumed in
    that order. *)
Definition appendRollbacks (rollTs : TsVbuuid) (fb : list UprEvent) : TsVbuuid :=
  foldl (λ ts m, if bool_decide (Status m = ROLLBACK)
                 then Append ts (VBucket m) (Seqno m) (VBuuid m) 0 0
                 else ts) rollTs fb.

(** The timestamp that holds exactly the events of [fb] that report
    ROLLBACK, at the seqno and vbuuid they report. *)
Definition rollbackOf (pooln bucketn : string) (fb : list UprEvent) : TsVbuuid :=
  let rolled := filter (λ m, Status m = ROLLBACK) fb in
  mkTs pooln bucketn (VBucket <$> rolled) (Seqno <$> rolled) (VBuuid <$> rolled)
       ((λ _, (0, 0)) <$> rolled).






(** feeders, reqTss, kvdata and engines have the same buckets as keys. *)
Definition bucket_keys_agree (f : Feed) : Prop :=
  dom (feeders f) = dom (reqTss f) ∧
  dom (kvdata f) = dom (reqTss f) ∧
  dom (engines f) = dom (reqTss f).

(** feeders, reqTss and kvdata have the same buckets as keys. *)
Definition upstream_keys_agree (f : Feed) : Prop :=
  dom (feeders f) = dom (reqTss f) ∧
  dom (kvdata f) = dom (reqTss f).

(** The same, of the state the actor is in. *)
Definition aligned (s : Sys) : Prop := upstream_keys_agree (feed s).

(** Aligned, and the bucket is streaming. *)
Definition aligned_at (bucketn : string) (s : Sys) : Prop :=
  aligned s ∧ bucketn ∈ dom (reqTss (feed s)).


(** The calls a computation adds to the trace all satisfy [Φ]. *)
Definition emits (Φ : call → Prop) : relation Sys :=
  λ s s', ∃ calls, trace s' = trace s ++ calls ∧ Forall Φ calls.

(** A call that connects to a bucket names this pool and this bucket. *)
Definition connects_with (pooln bucketn : string) (c : call) : Prop :=
  match c with
  | CConnectBucket _ p b => p = pooln ∧ b = bucketn
  | _ => True
  end.

(** A producer that answers every call, for one node ["kv1"] that hosts
    the vbuckets 0, 1 and 2. *)
Definition flogs0 : gmap Z (list (Z * Z)) :=
  list_to_map [(0, [(10, 0)]); (1, [(11, 0)]); (2, [(12, 0)])].

Definition W0 : World :=
  mkWorld (λ _, 0)
    (λ _ _ _ _, inr 1%nat) (λ _ _, None) (λ _ _ _, inr [("kv1"%string, [0; 1; 2])])
    (λ _ _ _, inr flogs0) (λ _ _, inr 7%nat) (λ _ _ _ _, None) (λ _ _ _ _, None)
    (λ _ _, true) (λ _ _ _ _, inr (Some 3%nat))
    (λ _ _ _, true) (λ ts _, ts) (λ ts _, ts) (λ a _, a) 1024.

(** Bucket ["b1"] of pool ["default"], vbuckets 0, 1, 2 from seqno 100. *)
Definition ts_b1 : TsVbuuid :=
  mkTs "default" "b1" [0; 1; 2] [100; 100; 100] [10; 11; 12] [(0, 0); (0, 0); (0, 0)].

Definition noSubscribers : Subscriber := mkSubscriber (inr []) (inr []).

Definition oneSubscriber (uuid : Z) (bucketn raddr : string) : Subscriber :=
  mkSubscriber (inr [(uuid, mkEvaluator bucketn)]) (inr [(uuid, mkRouter [raddr])]).

Definition feedbackOk (opaque vbno : Z) : UprEvent := mkUprEvent opaque 0 vbno 0 100.

Definition freshSys (evs : list event) : Sys :=
  mkSys (NewFeed "cluster" "topic" ["kv1"%string]) evs [].

(** The feedback of the rollback scenario: vbuckets 0 and 1 start,
    vbucket 2 reports ROLLBACK to seqno 50 on branch 0xAA. *)
Definition rollbackFeedback : list UprEvent :=
  [feedbackOk 0 0; feedbackOk 0 1; mkUprEvent 0 ROLLBACK 2 170 50].

(** Feedback for the three vbuckets of [ts_b1], posted by the data path
    and then received by the waiting actor. *)
Definition delivered (bucketn kvaddr : string) (fb : list UprEvent) : list event :=
  map (EvPostStreamRequest bucketn kvaddr) fb ++ replicate (length fb) EvRecv.

(** A topic is started on bucket ["b1"] with no index instance yet. *)
Definition start_b1_no_instances : command :=
  fCmdStart (mkMutationTopicRequest noSubscribers "" [ts_b1]).

Definition allStarted : list event :=
  delivered "b1" "kv1" [feedbackOk 0 0; feedbackOk 0 1; feedbackOk 0 2].

(** A topic is started on bucket ["b1"] for index instance 42, whose
    router sends to endpoint ["ep1"]. *)
Definition start_b1 : MutationTopicRequest :=
  mkMutationTopicRequest (oneSubscriber 42 "b1" "ep1") "" [ts_b1].

(** Vbuckets 0 and 1 answer, then the timer fires. *)
Definition twoOfThree : list event :=
  delivered "b1" "kv1" [feedbackOk 0 0; feedbackOk 0 1] ++ [EvTimeout].

(** Two operations one after the other, with opaques [opaque1] and
    [opaque2]. While the first waits for vbucket 1, the feedback of
    vbucket 0 for the second arrives, then its own. The second wait then
    finds the back-channel as the first left it. *)
Definition opaque1 : Z := 1 * 2 ^ 16.
Definition opaque2 : Z := 2 * 2 ^ 16.

Definition laterFirst : list event :=
  [EvPostStreamRequest "b1" "kv1" (feedbackOk opaque2 0);
   EvPostStreamRequest "b1" "kv1" (feedbackOk opaque1 1);
   EvRecv; EvRecv;
   EvRecv; EvTimeout].




End ProjectorSpec.

Module ManagerSpec.
Import Manager.

(** An instance of the topology is to be put on the change list: its
    state is one of [toStates] and every instance of the old definition
    with the same id is in one of [fromStates], in another state. *)
Definition diff_rule (oldDefn : option IndexDefnDistribution)
    (newInst : IndexInstDistribution)
    (fromStates toStates : option (list IndexState)) : Prop :=
  inState (State newInst) toStates = true ∧
  ∀ old oldInst, oldDefn = Some old → oldInst ∈ Instances old →
                 InstId newInst = InstId oldInst →
                 inState (State oldInst) fromStates = true ∧
                 State oldInst ≠ State newInst.

(** A projector that accepts every call; the instances it is sent are
    those the change records point to. *)
Definition W0 : World :=
  mkWorld (λ _, "9100") (λ key, key)
    (λ _ _ _, None) (λ _ _, None) (λ _, inr "localhost") (λ _, inr [])
    (λ _ _ _, inl (ErrorExternal "no topology")) (λ _ _, inr [])
    (λ _ changes addr, inr (omap (λ p, (λ i, mkInstance (InstId i) addr) <$> p.2) changes))
    (λ _ _ _ _, None) (λ _ _ _ _, None) (λ _ _ _, None).

(** Bucket b1 has one definition with the instances 42 and 43, both
    READY; then instance 42 is deleted. *)
Definition d1_ready : IndexDefnDistribution :=
  mkDefn "b1" "d1" [mkInst 42 INDEX_STATE_READY; mkInst 43 INDEX_STATE_READY].
Definition d1_42_deleted : IndexDefnDistribution :=
  mkDefn "b1" "d1" [mkInst 42 INDEX_STATE_DELETED; mkInst 43 INDEX_STATE_READY].

Definition topology1 : IndexTopology := mkTopology 1 "b1" [d1_ready].
Definition topology2 : IndexTopology := mkTopology 2 "b1" [d1_42_deleted].

(** The maintenance stream is open and [topology1] was seen last. *)
Definition maintOpen : Sys :=
  mkSys (mkStreamManager {[MAINT_STREAM := mkStream MAINT_STREAM true]}
                         {["b1" := topology1]} false false false false)
        [] [] [].

(** The change list of [d1_42_deleted] against [d1_ready] for the
    deletions of the maintenance stream, as its caller reads it. *)
Definition deletedOfD1 : M Sys (list (option IndexDefnDistribution *
                                      option IndexInstDistribution)) :=
  newDefn ← newDefnVar;
  storeDefn newDefn d1_42_deleted;;
  changes ← addInstancesToChangeList (Some d1_ready) newDefn
              (Some [INDEX_STATE_ACTIVE; INDEX_STATE_READY]) (Some [INDEX_STATE_DELETED]);
  gets (λ s, map (deref s) changes).

End ManagerSpec.

Module IndexerSpec.
Import Indexer.


End IndexerSpec.

(** * More of the sources

    ** feed.go: the actor's loop, shutdown, statistics and responses *)

Module Actor.
Import Projector.

(** protobuf.TopicResponse as topicResponse fills it. *)
Record TopicResponse : Type := mkTopicResponse {
  Topic : string;
  InstanceIds : list Z;
  ReqTimestamps : list TsVbuuid;
  RollbackTimestamps : list TsVbuuid
}.

(** compose topic-response for caller *)
Definition topicResponse (fd : Feed) : TopicResponse :=
  let uuids := concat ((λ p, (map_to_list p.2).*1) <$> map_to_list (engines fd)) in
  let xs := (map_to_list (reqTss fd)).*2 in
  let ys := (map_to_list (rollTss fd)).*2 in
  mkTopicResponse (topic fd) uuids xs ys.

(** engineNames ranges over [feed.engines], whose keys are the bucket
    names. *)
Definition engineNames (fd : Feed) : list string :=
  (map_to_list (engines fd)).*1.

(** The statistics of a feed: the names under "engines", per bucket
    ("bucket-"+bucketn) the data paths per node ("node-"+kvaddr), and
    the endpoints under "endpoint". *)
Record Statistics : Type := mkStatistics {
  st_engines : list string;
  st_buckets : list (string * list (string * KVData));
  st_endpoint : list (string * RouterEndpoint)
}.

Definition getStatistics (fd : Feed) : Statistics :=
  mkStatistics
    (engineNames fd)
    ((λ p, ("bucket-" +:+ p.1, (λ q, ("node-" +:+ q.1, q.2)) <$> map_to_list p.2))
       <$> map_to_list (kvdata fd))
    (map_to_list (endpoints fd)).

(** What shutdown closes, in the order it closes it. *)
Inductive closing : Type :=
| CloseFeed (feeder : BucketFeeder)
| CloseKVData (kv : KVData)
| CloseEndpoint (endpoint : RouterEndpoint)
| CloseFinch.

(** The feed as its goroutine runs it: the controller's state, what has
    been closed, and whether [finch] is closed. *)
Record Actor : Type := mkActor {
  sys : Sys;
  closed : list closing;
  finch : bool
}.

(** A computation of the controller, run by the actor. *)
Definition lift {A} (m : M Sys A) : M Actor A :=
  λ a, match m (sys a) with
       | Done x s => Done x (mkActor s (closed a) (finch a))
       | Crashed s => Crashed (mkActor s (closed a) (finch a))
       | Blocked s => Blocked (mkActor s (closed a) (finch a))
       end.

Definition closes (c : closing) : M Actor unit :=
  modify (λ a, mkActor (sys a) (closed a ++ [c]) (finch a)).

(** [close(feed.finch)]: closing a closed channel panics. *)
Definition closeFinch : M Actor unit :=
  λ a, if finch a then Crashed a
       else Done tt (mkActor (sys a) (closed a ++ [CloseFinch]) true).

(** shutdown closes upstream, data-path and downstream, then [finch]; a
    panic on the way is recovered and nil is returned. *)
Definition shutdown : M Actor (option error) :=
  λ a, let fd := feed (sys a) in
       match (forM (λ feeder, closes (CloseFeed feeder)) ((map_to_list (feeders fd)).*2);;
              forM (λ xs, forM (λ x, closes (CloseKVData x)) ((map_to_list xs).*2))
                   ((map_to_list (kvdata fd)).*2);;
              forM (λ endpoint, closes (CloseEndpoint endpoint))
                   ((map_to_list (endpoints fd)).*2);;
              closeFinch) a with
       | Done _ a' => Done None a'
       | Crashed a' => Done None a'
       | Blocked a' => Blocked a'
       end.

(** The messages on [reqch]. *)
Inductive request : Type :=
| ReqControl (cmd : command)
| ReqGetStatistics
| ReqShutdown.

(** What is sent on the message's [respch]. *)
Inductive response : Type :=
| RespTopic (resp : TopicResponse) (err : error + unit)
| RespError (err : error + unit)
| RespStatistics (stats : Statistics)
| RespShutdown (err : option error).

Section Server.
Context (W : World).

(** handleCommand with the response it sends and its [exit] flag. The
    eight control commands run as [Projector.handleCommand]. *)
Definition handleCommand (msg : request) : M Actor (bool * response) :=
  match msg with
  | ReqControl cmd =>
      err ← lift (Projector.handleCommand W cmd);
      fd ← gets (feed ∘ sys);
      match cmd with
      | fCmdStart _ | fCmdRestartVbuckets _ | fCmdAddBuckets _ =>
          mret (false, RespTopic (topicResponse fd) err)
      | _ => mret (false, RespError err)
      end
  | ReqGetStatistics =>
      fd ← gets (feed ∘ sys);
      mret (false, RespStatistics (getStatistics fd))
  | ReqShutdown =>
      err ← shutdown;
      mret (true, RespShutdown err)
  end.

(** The loop of genServer over the messages that arrive on [reqch]. *)
Fixpoint genServer_loop (msgs : list request) (sent : list response)
    : M Actor (list response) :=
  match msgs with
  | [] => mret sent
  | msg :: rest =>
      r ← handleCommand msg;
      let '(exit, resp) := r : bool * response in
      if exit then mret (sent ++ [resp])
      else genServer_loop rest (sent ++ [resp])
  end.

(** genServer is panic safe: a crash of the loop is recovered and the
    feed is shut down. The responses already sent are not known to the
    recovery. *)
Definition genServer (msgs : list request) : M Actor (list response) :=
  λ a, match genServer_loop msgs [] a with
       | Crashed a' =>
           match shutdown a' with
           | Done _ a'' => Done [] a''
           | Crashed a'' => Crashed a''
           | Blocked a'' => Blocked a''
           end
       | r => r
       end.

End Server.
End Actor.

(** ** The stream manager: bootstrap and the topology listener *)

Module Listener.
Import Manager.

Section Listener.
Context (W : World).
(** indexMgr.GetTopologyByBucket, as it answers the i-th call that
    loadTopology makes. *)
Context (GetTopologyByBucket : nat → string → error + IndexTopology).

(** Initialize the maintenance stream from the current topology. *)
Definition initializeMaintenanceStream : M Sys (error + unit) :=
  check _ ← StartStream W MAINT_STREAM;
  check buckets ← getBucketWithIndexes W;
  if bool_decide (buckets ≠ []) then
    check _ ← AddIndexForBuckets W MAINT_STREAM buckets;
    check _ ← DeleteIndexForBuckets W MAINT_STREAM buckets;
    mret (inr tt)
  else mret (inr tt).



(** One topology change of the loop of run. [None] is a payload that
    does not unmarshal; an error of the handler is logged and ignored; a
    panic of the handler is recovered and ignored. *)
Definition handleChange (data : option IndexTopology) : M Sys unit :=
  match data with
  | None => mret tt
  | Some topology =>
      λ s, match handleTopologyChange W topology s with
           | Done _ s' => Done tt s'
           | Crashed s' => Done tt s'
           | Blocked s' => Blocked s'
           end
  end.

(** The loop of run over the changes received before the stop signal. *)
Definition run_loop (changes : list (option IndexTopology)) : M Sys unit :=
  forM handleChange changes.

End Listener.
End Listener.

(** ** scan_coordinator.go: snapshots and index instances *)

Module Scan.

(** IndexSnapshot, what listenSnapshot asks of it. *)
Record IndexSnapshot : Type := mkSnapshot {
  snap_id : nat;
  IndexInstId : Z;
  Timestamp : option (list Z)
}.

#[global] Instance IndexSnapshot_eq_dec : EqDecision IndexSnapshot.
Proof. solve_decision. Defined.

(** The part of scanCoordinator that listenSnapshot works on, with the
    snapshots handed to DestroyIndexSnapshot. A map value [None] is a nil
    snapshot. *)
Record Snapshots : Type := mkSnapshots {
  lastSnapshot : gmap Z (option IndexSnapshot);
  destroyed : list IndexSnapshot
}.

(** The body of the loop of listenSnapshot for one snapshot. *)
Definition listenSnapshot_body (ss : IndexSnapshot) (s : Snapshots) : Snapshots :=
  let s1 :=
    match lastSnapshot s !! IndexInstId ss with
    | Some oldSnap =>
        mkSnapshots (delete (IndexInstId ss) (lastSnapshot s))
                    (match oldSnap with
                     | Some old => destroyed s ++ [old]
                     | None => destroyed s
                     end)
    | None => s
    end in
  match Timestamp ss with
  | Some _ => mkSnapshots (<[IndexInstId ss := Some ss]> (lastSnapshot s1)) (destroyed s1)
  | None => s1
  end.

(** listenSnapshot over the snapshots that arrive on the channel. *)
Definition listenSnapshot (arrived : list IndexSnapshot) (s : Snapshots) : Snapshots :=
  foldl (λ s ss, listenSnapshot_body ss s) s arrived.

Inductive error : Type :=
| ErrNotMyIndex
| ErrIndexNotFound.

(** common.IndexInst, the fields findIndexInstance reads. *)
Record IndexInst : Type := mkIndexInst {
  InstId : Z;
  DefnId : Z
}.

(** Find and return data structures for the specified index. The
    instance map is given in the order the range statement visits it. *)
Fixpoint findIndexInstance (indexInstMap : list IndexInst) (indexPartnMap : gset Z)
    (defnID : Z) : error + IndexInst :=
  match indexInstMap with
  | [] => inl ErrIndexNotFound
  | inst :: rest =>
      if bool_decide (DefnId inst = defnID) then
        if bool_decide (InstId inst ∈ indexPartnMap) then inr inst
        else inl ErrNotMyIndex
      else findIndexInstance rest indexPartnMap defnID
  end.

End Scan.

(** ** Specifications for the rest of the sources *)

(** When the computation returns an error, the view [π] of the state has
    the value it had before. *)
Definition on_error {S E A X} (π : S → X) (m : M S (E + A)) : Prop :=
  ∀ s e s', m s = Done (inl e) s' → π s' = π s.


Module ProjectorMoreSpec.
Import Projector ProjectorSpec.

(** The downstream endpoints of the topic. *)
Definition endpointsOf (s : Sys) := endpoints (feed s).

(** What the topic is made with: the cluster, the topic name, the nodes
    and the cache of connected buckets. *)
Definition fixedOf (s : Sys) :=
  (cluster (feed s), topic (feed s), kvaddrs (feed s), buckets (feed s)).

(** The endpoint registered for a remote address. *)
Definition has_endpoint (raddr : string) (e : RouterEndpoint) (s : Sys) : Prop :=
  endpoints (feed s) !! raddr = Some e.

(** A call that opens no upstream feed. *)
Definition opens_no_feed (c : call) : Prop :=
  match c with
  | COpenBucketFeed _ => False
  | _ => True
  end.

(** A call that neither opens a feed nor starts or ends a stream. *)
Definition no_stream_call (c : call) : Prop :=
  match c with
  | COpenBucketFeed _ | CEndVbStreams _ _ _ | CStartVbStreams _ _ _ => False
  | _ => True
  end.

(** The engine installed under a bucket for an instance. *)
Definition engineAt (bucketn : string) (uuid : Z) (f : Feed) : option Engine :=
  engines f !! bucketn ≫= (.!! uuid).

(** The producer of [W0], but no branch history verifies. *)
Definition Wunverified : World :=
  mkWorld (w_UnixNano W0) (w_ConnectBucket W0) (w_Refresh W0) (w_GetVBmap W0)
    (w_GetFailoverLogs W0) (w_OpenBucketFeed W0) (w_EndVbStreams W0)
    (w_StartVbStreams W0) (w_Ping W0) (w_epFactory W0)
    (λ _ _ _, false) (SelectByVbuckets W0) (FilterByVbuckets W0) (Union W0)
    (MaxVbuckets W0).

(** The producer of [W0], but the failover log of vbucket 2 is empty. *)
Definition flogs_without_2 : gmap Z (list (Z * Z)) :=
  list_to_map [(0, [(10, 0)]); (1, [(11, 0)]); (2, [])].

Definition Wnolog : World :=
  mkWorld (w_UnixNano W0) (w_ConnectBucket W0) (w_Refresh W0) (w_GetVBmap W0)
    (λ _ _ _, inr flogs_without_2) (w_OpenBucketFeed W0) (w_EndVbStreams W0)
    (w_StartVbStreams W0) (w_Ping W0) (w_epFactory W0)
    (VerifyBranch W0) (SelectByVbuckets W0) (FilterByVbuckets W0) (Union W0)
    (MaxVbuckets W0).

(** The topic after [start_b1] when the three vbuckets have answered;
    [later] is what happens afterwards. *)
Definition streaming_b1 (later : list event) : Sys :=
  stateOf (start W0 start_b1 (freshSys (allStarted ++ later))).

(** The stream ends of the three vbuckets of ["b1"], posted and then
    received. *)
Definition allEnded : list event :=
  map (EvPostStreamEnd "b1" "kv1") [feedbackOk 0 0; feedbackOk 0 1; feedbackOk 0 2] ++
  [EvRecv; EvRecv; EvRecv].

(** An instance with an evaluator and no router. *)
Definition noRouter : Subscriber :=
  mkSubscriber (inr [(42, mkEvaluator "b1")]) (inr []).

End ProjectorMoreSpec.

Module ActorSpec.
Import Projector Actor.

(** A relation on the controller's state, as a relation on the actor. *)
Definition on_sys (R : relation Sys) : relation Actor :=
  λ a a', R (sys a) (sys a').

(** What a feed holds open, upstream first, then the data paths, then
    downstream. *)
Definition closings (fd : Feed) : list closing :=
  (CloseFeed <$> (map_to_list (feeders fd)).*2) ++
  (CloseKVData <$> concat ((λ xs, (map_to_list xs).*2) <$> (map_to_list (kvdata fd)).*2)) ++
  (CloseEndpoint <$> (map_to_list (endpoints fd)).*2).

(** The actor of a topic made by NewFeed, with what will happen on its
    back-channel. *)
Definition newActor (cluster_ topic_ : string) (kvaddrs_ : list string)
    (evs : list event) : Actor :=
  mkActor (mkSys (NewFeed cluster_ topic_ kvaddrs_) evs []) [] false.

End ActorSpec.

Module ScanSpec.
Import Scan.

(** The snapshot that arrived last for an index instance. *)
Definition lastFor (instId : Z) (arrived : list IndexSnapshot) : option IndexSnapshot :=
  last (filter (λ ss, IndexInstId ss = instId) arrived).

(** The snapshots the coordinator holds in [lastSnapshot]. *)
Definition held (s : Snapshots) : list IndexSnapshot :=
  omap id (map_to_list (lastSnapshot s)).*2.

(** The snapshots that carry a timestamp. *)
Definition stamped (arrived : list IndexSnapshot) : list IndexSnapshot :=
  filter (λ ss, is_Some (Timestamp ss)) arrived.

(** The instances of an index definition. *)
Definition instancesOf (defnID : Z) (indexInstMap : list IndexInst) : list IndexInst :=
  filter (λ inst, DefnId inst = defnID) indexInstMap.

End ScanSpec.

Module ManagerMoreSpec.
Import Manager ManagerSpec.

(** The books of the manager: everything but its mutex. *)
Definition booksOf (s : Sys) :=
  (streams (mgr s), topologies (mgr s), monitor (mgr s), isClosed (mgr s), stopch (mgr s)).

(** The calls made so far on the StreamAdmin interface. *)
Definition adminOf (s : Sys) : list call :=
  filter (λ c, is_admin_call c = true) (trace s).

(** The manager can be called: it is not closed and nobody holds its
    mutex. *)
Definition callable (s : Sys) : Prop :=
  isClosed (mgr s) = false ∧ mutex (mgr s) = false.

(** A new manager with nothing recorded. *)
Definition newSys : Sys := mkSys (NewStreamManager false) [] [] [].

(** The repository of [W0] with a global topology of the buckets b1 and
    b2. *)
Definition Wtwo : World :=
  mkWorld (getPortForStreamId W0) (getBucketFromTopologyKey W0)
    (w_newStream W0) (w_streamStart W0) (w_GetLocalServiceHost W0)
    (λ _, inr ["b1"%string; "b2"%string])
    (w_GetTopologyAsInstanceProtoMsg W0) (w_GetAllDeletedIndexInstancesId W0)
    (w_GetChangeRecordAsProtoMsg W0) (w_AddIndexToStream W0)
    (w_DeleteIndexFromStream W0) (w_RestartStreamIfNecessary W0).


(** The instances of a definition that the diff rule accepts. *)
Definition accepted (oldDefn : option IndexDefnDistribution)
    (fromStates toStates : option (list IndexState))
    (insts : list IndexInstDistribution) : list IndexInstDistribution :=
  filter (λ newInst, addDecision oldDefn newInst fromStates toStates = true) insts.

End ManagerMoreSpec.

(** * Proofs

    ** The monad *)

Section RespectsFacts.
Context {S : Type} {R : relation S} `{!PreOrder R}.

Lemma respects_ret {A} (a : A) : respects R (ret a).
Proof. intros s. simpl. reflexivity. Qed.

Lemma respects_gets {A} (f : S → A) : respects R (gets f).
Proof. intros s. simpl. reflexivity. Qed.

Lemma respects_bind {A B} (m : M S A) (k : A → M S B) :
  respects R m → (∀ a, respects R (k a)) → respects R (bind m k).
Proof.
  intros Hm Hk s. unfold bind. specialize (Hm s).
  destruct (m s) as [a s1|s1|s1]; [|done..].
  specialize (Hk a s1). destruct (k a s1); etrans; eauto.
Qed.

Lemma respects_bindE {E A B} (m : M S (E + A)) (k : A → M S (E + B)) :
  respects R m → (∀ a, respects R (k a)) → respects R (bindE m k).
Proof.
  intros Hm Hk. apply respects_bind; [done|].
  intros [e|a]; [apply respects_ret | apply Hk].
Qed.

Lemma respects_forE {E A} (body : A → M S (E + unit)) (xs : list A) :
  (∀ x, respects R (body x)) → respects R (forE body xs).
Proof.
  intros Hb. induction xs as [|x xs IH]; simpl.
  - apply respects_ret.
  - apply respects_bindE; auto.
Qed.

Lemma respects_forM {A} (body : A → M S unit) (xs : list A) :
  (∀ x, respects R (body x)) → respects R (forM body xs).
Proof.
  intros Hb. induction xs as [|x xs IH]; simpl.
  - apply respects_ret.
  - apply respects_bind; auto.
Qed.

End RespectsFacts.

Lemma respects_mono {S A} (R R' : relation S) (m : M S A) :
  (∀ s s', R s s' → R' s s') → respects R m → respects R' m.
Proof. intros HR Hm s. specialize (Hm s). destruct (m s); auto. Qed.

Lemma respects_Done {S A} (R : relation S) (m : M S A) s a s' :
  respects R m → m s = Done a s' → R s s'.
Proof. intros Hm Hs. specialize (Hm s). by rewrite Hs in Hm. Qed.

#[global] Instance kept_preorder {S X} (π : S → X) : PreOrder (kept π).
Proof.
  split.
  - intros s. reflexivity.
  - intros s1 s2 s3 H1 H2. unfold kept in *. congruence.
Qed.

#[global] Instance preserved_preorder {S} (P : S → Prop) : PreOrder (preserved P).
Proof.
  split.
  - intros s H. exact H.
  - intros s1 s2 s3 H1 H2 H. apply H2, H1, H.
Qed.

(** Inversion of a run that returned. *)
Lemma bind_Done {S A B} (m : M S A) (k : A → M S B) s b s' :
  bind m k s = Done b s' → ∃ a s1, m s = Done a s1 ∧ k a s1 = Done b s'.
Proof. unfold bind. destruct (m s) as [a s1|s1|s1]; [eauto | done..]. Qed.

Lemma bindE_Done {S E A B} (m : M S (E + A)) (k : A → M S (E + B)) s r s' :
  bindE m k s = Done r s' →
  (∃ e, m s = Done (inl e) s' ∧ r = inl e) ∨
  (∃ a s1, m s = Done (inr a) s1 ∧ k a s1 = Done r s').
Proof.
  intros (x & s1 & Hm & Hk)%bind_Done. destruct x as [e|a].
  - left. exists e. inversion Hk; by subst.
  - right. eauto.
Qed.

Lemma bindE_Done_inr {S E A B} (m : M S (E + A)) (k : A → M S (E + B)) s b s' :
  bindE m k s = Done (inr b) s' →
  ∃ a s1, m s = Done (inr a) s1 ∧ k a s1 = Done (inr b) s'.
Proof. intros [(e & _ & ?)|H]%bindE_Done; [done | exact H]. Qed.


(** ** The topic feed controller *)

Module ProjectorFacts.
Import Projector ProjectorSpec.

(** One step of the proof that a computation respects a relation: follow
    the structure of the program. *)
Ltac respects_step :=
  first
    [ apply respects_ret | apply respects_gets
    | apply respects_bind | apply respects_bindE
    | apply respects_forE | apply respects_forM
    | match goal with |- ∀ _, _ => intro end
    | progress unfold mbind, M_bind, mret, M_ret
    | match goal with
      | |- respects _ (match ?x with _ => _ end) => destruct x
      | |- respects _ (if ?b then _ else _) => destruct b
      | |- respects _ (let '(_, _) := ?x in _) => destruct x
      end ].

(** Run a sequence of field updates. *)
Ltac run_upd :=
  unfold mbind, M_bind, mret, M_ret, bind, ret, upd, modify, gets; cbn.

Create HintDb keeps discriminated.

Ltac keeps := repeat first [ solve [auto with keeps] | respects_step ].

Section Facts.
Context (W : World).

(** *** What leaves the per-bucket maps and the inbox alone *)

Lemma extern_keeps {A} (c : call) (answer : nat → A) :
  respects (kept quietOf) (extern c answer).
Proof. intros s. reflexivity. Qed.

Lemma set_endpoints_keeps g : respects (kept quietOf) (upd (set_endpoints g)).
Proof. intros s. reflexivity. Qed.

Lemma set_endpSettings_keeps setts :
  respects (kept quietOf) (upd (set_endpSettings setts)).
Proof. intros s. reflexivity. Qed.

Hint Resolve extern_keeps set_endpoints_keeps set_endpSettings_keeps : keeps.

Lemma newOpaque_keeps : respects (kept quietOf) (newOpaque W).
Proof. unfold newOpaque. keeps. Qed.

Lemma getBucket_keeps pooln bucketn :
  respects (kept quietOf) (getBucket W pooln bucketn).
Proof. unfold getBucket. keeps. Qed.

Hint Resolve newOpaque_keeps getBucket_keeps : keeps.

Lemma bucketDetails_keeps pooln bucketn :
  respects (kept quietOf) (bucketDetails W pooln bucketn).
Proof. unfold bucketDetails. keeps. Qed.

Hint Resolve bucketDetails_keeps : keeps.

Lemma bucketFeed_keeps opaque stop start_ reqTs :
  respects (kept quietOf) (bucketFeed W opaque stop start_ reqTs).
Proof. unfold bucketFeed. keeps. Qed.

Lemma startDataPath_loop_keeps bucketn reqTs ka m :
  respects (kept quietOf) (startDataPath_loop bucketn reqTs ka m).
Proof. revert m. induction ka as [|kvaddr ka IH]; intros m; simpl; keeps. Qed.

Hint Resolve bucketFeed_keeps startDataPath_loop_keeps : keeps.

Lemma startDataPath_keeps bucketn feeder reqTs :
  respects (kept quietOf) (startDataPath bucketn feeder reqTs).
Proof. unfold startDataPath. keeps. Qed.

Lemma updateTs_loop_keeps kvdata_ restartTs ka :
  respects (kept quietOf) (updateTs_loop kvdata_ restartTs ka).
Proof. induction ka as [|kvaddr ka IH]; simpl; keeps. Qed.

Lemma subscribers_keeps req : respects (kept quietOf) (subscribers req).
Proof. unfold subscribers. keeps. Qed.

Lemma ensureEndpoint_keeps raddr : respects (kept quietOf) (ensureEndpoint W raddr).
Proof. unfold ensureEndpoint. keeps. Qed.

Hint Resolve startDataPath_keeps updateTs_loop_keeps subscribers_keeps
  ensureEndpoint_keeps : keeps.

Lemma startEndpoints_keeps routers :
  respects (kept quietOf) (startEndpoints W routers).
Proof. unfold startEndpoints. keeps. Qed.

Lemma postAddEngines_keeps fd bucketn engines_ :
  respects (kept quietOf) (postAddEngines fd bucketn engines_).
Proof. unfold postAddEngines. keeps. Qed.

Hint Resolve startEndpoints_keeps postAddEngines_keeps : keeps.

(** *** What leaves the per-bucket maps alone *)

Lemma bucketMaps_of_quiet {A} (m : M Sys A) :
  respects (kept quietOf) m → respects (kept bucketMapsOf) m.
Proof. apply respects_mono. intros s s' H. exact (f_equal fst H). Qed.

Lemma inbox_of_quiet {A} (m : M Sys A) :
  respects (kept quietOf) m → respects (kept inboxOf) m.
Proof. apply respects_mono. intros s s' H. exact (f_equal snd H). Qed.

Lemma waitOnFeedback_keeps {C} (callb : iface → C → string * C) (c : C) :
  respects (kept bucketMapsOf) (waitOnFeedback callb c).
Proof. intros s. unfold waitOnFeedback. by destruct (feedbackLoop _ _ _ _ _). Qed.

Create HintDb keeps_maps discriminated.

Hint Resolve waitOnFeedback_keeps : keeps_maps.
Hint Extern 1 (respects (kept bucketMapsOf) _) =>
  apply bucketMaps_of_quiet; solve [auto with keeps] : keeps_maps.

Ltac keeps_maps := repeat first [ solve [auto with keeps_maps] | respects_step ].

Lemma waitStreamRequests_keeps opaque pooln bucketn vbnos :
  respects (kept bucketMapsOf) (waitStreamRequests W opaque pooln bucketn vbnos).
Proof. unfold waitStreamRequests. keeps_maps. Qed.

Lemma waitStreamEnds_keeps opaque bucketn vbnos :
  respects (kept bucketMapsOf) (waitStreamEnds opaque bucketn vbnos).
Proof. unfold waitStreamEnds. keeps_maps. Qed.

Hint Resolve waitStreamRequests_keeps waitStreamEnds_keeps : keeps_maps.

(** The upstream maps are a part of the per-bucket maps. *)
Lemma upstream_of_bucketMaps {A} (m : M Sys A) :
  respects (kept bucketMapsOf) m → respects (kept upstreamOf) m.
Proof.
  apply respects_mono. unfold kept, bucketMapsOf, upstreamOf.
  intros s s' [= H1 H2 H3 H4 H5]. by rewrite H1, H2, H3, H4.
Qed.

Lemma installEngine_keeps_upstream routers p :
  respects (kept upstreamOf) (installEngine routers p).
Proof. intros s. reflexivity. Qed.

Lemma processSubscribers_keeps_upstream req :
  respects (kept upstreamOf) (processSubscribers W req).
Proof.
  unfold processSubscribers.
  repeat first [ apply installEngine_keeps_upstream
               | apply upstream_of_bucketMaps; solve [auto with keeps_maps]
               | respects_step ].
Qed.

(** *** The key sets of the upstream maps *)

Lemma aligned_of_upstream {A} (m : M Sys A) :
  respects (kept upstreamOf) m → respects (preserved aligned) m.
Proof.
  apply respects_mono. unfold kept, upstreamOf, preserved, aligned, upstream_keys_agree.
  intros s s' [= H1 H2 H3 H4]. by rewrite H1, H3, H4.
Qed.

Lemma aligned_at_of_upstream {A} bucketn (m : M Sys A) :
  respects (kept upstreamOf) m → respects (preserved (aligned_at bucketn)) m.
Proof.
  apply respects_mono.
  unfold kept, upstreamOf, preserved, aligned_at, aligned, upstream_keys_agree.
  intros s s' [= H1 H2 H3 H4]. by rewrite H1, H3, H4.
Qed.

Lemma installBucket_aligned bucketn reqTs rollTs feeder m :
  respects (preserved aligned) (installBucket bucketn reqTs rollTs feeder m).
Proof.
  intros s. unfold installBucket. run_upd. unfold preserved, aligned, upstream_keys_agree. cbn.
  intros [H1 H2]. rewrite !dom_insert_L, H1, H2. done.
Qed.

Lemma forgetBucket_aligned bucketn :
  respects (preserved aligned) (forgetBucket bucketn).
Proof.
  intros s. unfold forgetBucket. run_upd. unfold preserved, aligned, upstream_keys_agree. cbn.
  intros [H1 H2]. rewrite !dom_delete_L, H1, H2. done.
Qed.

Lemma update_reqTs_aligned_at bucketn ts :
  respects (preserved (aligned_at bucketn)) (upd (set_reqTss (insert bucketn ts))).
Proof.
  intros s. run_upd. unfold preserved, aligned_at, aligned, upstream_keys_agree. cbn.
  intros [[Hf Hk] Hin]. rewrite !dom_insert_L.
  assert ({[bucketn]} ∪ dom (reqTss (feed s)) = dom (reqTss (feed s))) as ->; [|done].
  by apply subseteq_union_1_L, singleton_subseteq_l.
Qed.

Lemma update_rollTs_aligned_at bucketn b ts :
  respects (preserved (aligned_at bucketn)) (upd (set_rollTss (insert b ts))).
Proof. intros s. run_upd. unfold preserved, aligned_at, aligned. by cbn. Qed.

Create HintDb aligned discriminated.

Hint Resolve installBucket_aligned forgetBucket_aligned
  update_reqTs_aligned_at update_rollTs_aligned_at : aligned.

Ltac aligned :=
  repeat first
    [ solve [auto with aligned]
    | apply aligned_of_upstream;
      first [ apply processSubscribers_keeps_upstream
            | apply upstream_of_bucketMaps; solve [auto with keeps_maps] ]
    | apply aligned_at_of_upstream, upstream_of_bucketMaps; solve [auto with keeps_maps]
    | respects_step ].

Lemma start_body_aligned opaque reqTs :
  respects (preserved aligned) (start_body W opaque reqTs).
Proof. unfold start_body. aligned. Qed.

Lemma addBuckets_body_aligned opaque reqTs :
  respects (preserved aligned) (addBuckets_body W opaque reqTs).
Proof. unfold addBuckets_body. aligned. Qed.

Hint Resolve start_body_aligned addBuckets_body_aligned : aligned.

Lemma start_aligned req : respects (preserved aligned) (start W req).
Proof. unfold start. aligned. Qed.

Lemma addBuckets_aligned req : respects (preserved aligned) (addBuckets W req).
Proof. unfold addBuckets. aligned. Qed.

(** A computation that keeps [aligned_at] for a bucket that is
    streaming keeps [aligned]. *)
Lemma aligned_from_aligned_at {A} bucketn (m : M Sys A) s :
  bucketn ∈ dom (reqTss (feed s)) →
  respects (preserved (aligned_at bucketn)) m →
  match m s with
  | Done _ s' | Crashed s' | Blocked s' => preserved aligned s s'
  end.
Proof.
  intros Hin Hm. specialize (Hm s).
  destruct (m s); intros Hs; by apply Hm.
Qed.

Lemma restartVbuckets_body_aligned opaque restartTs :
  respects (preserved aligned) (restartVbuckets_body W opaque restartTs).
Proof.
  intros s. unfold restartVbuckets_body, mbind, M_bind, bind at 1, gets.
  destruct (reqTss (feed s) !! GetBucket restartTs) as [reqTs|] eqn:Hreq;
    [|by intros ?].
  destruct (kvdata (feed s) !! GetBucket restartTs) as [kvdata_|]; [|by intros ?].
  apply (aligned_from_aligned_at (GetBucket restartTs)).
  - by apply elem_of_dom.
  - aligned.
Qed.

Lemma shutdownVbuckets_body_aligned opaque shutTs :
  respects (preserved aligned) (shutdownVbuckets_body W opaque shutTs).
Proof.
  intros s. unfold shutdownVbuckets_body, mbind, M_bind, bind at 1, gets.
  destruct (reqTss (feed s) !! GetBucket shutTs) as [reqTs|] eqn:Hreq;
    [|by intros ?].
  apply (aligned_from_aligned_at (GetBucket shutTs)).
  - by apply elem_of_dom.
  - aligned.
Qed.

Lemma delBuckets_body_aligned opaque bucketn :
  respects (preserved aligned) (delBuckets_body W opaque bucketn).
Proof. unfold delBuckets_body. aligned. Qed.

Lemma delInstances_keeps_upstream instanceIds_ :
  respects (kept upstreamOf) (delInstances instanceIds_).
Proof.
  unfold delInstances.
  repeat first [ apply upstream_of_bucketMaps; solve [auto with keeps_maps]
               | respects_step ].
  intros s. reflexivity.
Qed.

Hint Resolve start_aligned addBuckets_aligned restartVbuckets_body_aligned
  shutdownVbuckets_body_aligned delBuckets_body_aligned : aligned.

Lemma handleCommand_aligned cmd : respects (preserved aligned) (handleCommand W cmd).
Proof.
  destruct cmd; simpl.
  - aligned.
  - unfold restartVbuckets. aligned.
  - unfold shutdownVbuckets. aligned.
  - aligned.
  - unfold delBuckets. aligned.
  - unfold addInstances. aligned.
  - apply aligned_of_upstream, delInstances_keeps_upstream.
  - unfold repairEndpoints. aligned.
Qed.


(** *** The feedback wait *)

Lemma PostStreamRequest_eq bucket kvaddr m ch :
  PostStreamRequest bucket kvaddr m ch = ch ++ [[IStreamRequest (streamRequestOf bucket kvaddr m)]].
Proof. reflexivity. Qed.

(** Feedback that is posted lands on the back-channel in the order
    posted. *)
Lemma feedbackLoop_posts {C} (callb : iface → C → string * C) bucketn kvaddr fb :
  ∀ evs ch msgs c,
  feedbackLoop callb (map (EvPostStreamRequest bucketn kvaddr) fb ++ evs) ch msgs c =
  feedbackLoop callb evs
    (ch ++ map (λ m, [IStreamRequest (streamRequestOf bucketn kvaddr m)]) fb) msgs c.
Proof.
  induction fb as [|m fb IH]; intros evs ch msgs c; simpl.
  - by rewrite app_nil_r.
  - rewrite IH, PostStreamRequest_eq, <- app_assoc. done.
Qed.

Lemma RemoveUint16_elem v item xs : v ∈ RemoveUint16 item xs ↔ v ≠ item ∧ v ∈ xs.
Proof. unfold RemoveUint16. by rewrite list_elem_of_filter. Qed.

Lemma streamRequestCallb_match opaque bucketn kvaddr m vbnos rollTs :
  Opaque m = opaque →
  streamRequestCallb opaque bucketn (IStreamRequest (streamRequestOf bucketn kvaddr m))
                     (vbnos, rollTs) =
  let rollTs' := appendRollbacks rollTs [m] in
  let vbnos' := RemoveUint16 (VBucket m) vbnos in
  (if bool_decide (length vbnos' = 0%nat) then "done" else "ok", (vbnos', rollTs')).
Proof.
  intros <-. unfold streamRequestCallb. simpl.
  rewrite !bool_decide_eq_true_2 by done. simpl.
  by destruct (bool_decide (length _ = 0%nat)).
Qed.

(** When every requested vbucket answers once, the wait consumes the
    answers and ends without an error, whatever their status. *)
Lemma feedbackLoop_answers opaque bucketn kvaddr fb :
  ∀ vbnos rollTs msgs rest,
  fb ≠ [] →
  Forall (λ m, Opaque m = opaque) fb →
  NoDup (VBucket <$> fb) →
  (∀ v, v ∈ vbnos ↔ v ∈ VBucket <$> fb) →
  feedbackLoop (streamRequestCallb opaque bucketn)
    (replicate (length fb) EvRecv ++ rest)
    (map (λ m, [IStreamRequest (streamRequestOf bucketn kvaddr m)]) fb) msgs (vbnos, rollTs) =
  Waited None ([], appendRollbacks rollTs fb) [] msgs rest.
Proof.
  induction fb as [|m fb IH]; intros vbnos rollTs msgs rest Hne Hop Hnd Hvb; [done|].
  apply Forall_cons in Hop as [Hm Hop]. rewrite fmap_cons in Hnd.
  apply NoDup_cons in Hnd as [Hfresh Hnd].
  cbn [length replicate app map feedbackLoop].
  rewrite streamRequestCallb_match by done. cbn zeta.
  assert (∀ v, v ∈ RemoveUint16 (VBucket m) vbnos ↔ v ∈ VBucket <$> fb) as Hvb'.
  { intros v. rewrite RemoveUint16_elem, Hvb, fmap_cons, elem_of_cons.
    split; [by intros [? [?|?]] | intros Hv; split; [|by right]].
    by intros ->. }
  destruct fb as [|m' fb].
  - assert (RemoveUint16 (VBucket m) vbnos = []) as ->.
    { apply elem_of_nil_inv. intros v Hv. apply Hvb' in Hv. by apply elem_of_nil in Hv. }
    simpl. done.
  - rewrite bool_decide_eq_false_2.
    + rewrite decide_False by done. rewrite decide_False by done.
      apply (IH _ _ msgs rest); [done | done | done | done].
    + intros Hlen. apply nil_length_inv in Hlen.
      assert (VBucket m' ∈ RemoveUint16 (VBucket m) vbnos) as Hin
        by (apply Hvb'; rewrite fmap_cons; apply elem_of_cons; by left).
      rewrite Hlen in Hin. by apply elem_of_nil in Hin.
Qed.

Lemma appendRollbacks_eq pooln bucketn fb :
  ∀ vbs seqs uuids snaps,
  appendRollbacks (mkTs pooln bucketn vbs seqs uuids snaps) fb =
  mkTs pooln bucketn
       (vbs ++ Vbnos (rollbackOf pooln bucketn fb))
       (seqs ++ Seqnos (rollbackOf pooln bucketn fb))
       (uuids ++ Vbuuids (rollbackOf pooln bucketn fb))
       (snaps ++ Snapshots (rollbackOf pooln bucketn fb)).
Proof.
  induction fb as [|m fb IH]; intros vbs seqs uuids snaps; simpl.
  - by rewrite !app_nil_r.
  - unfold appendRollbacks in *. simpl. rewrite filter_cons.
    destruct (decide (Status m = ROLLBACK)) as [Hr|Hr].
    + rewrite bool_decide_eq_true_2 by done. unfold Append. simpl.
      rewrite IH. by rewrite <- !app_assoc.
    + rewrite bool_decide_eq_false_2 by done. by rewrite IH.
Qed.

Lemma appendRollbacks_new pooln bucketn maxvb fb :
  appendRollbacks (NewTsVbuuid pooln bucketn maxvb) fb = rollbackOf pooln bucketn fb.
Proof. unfold NewTsVbuuid. by rewrite appendRollbacks_eq. Qed.


(** What waitOnFeedback puts back is wrapped once more: the message
    itself becomes element 0 of a new slice. *)
Lemma requeue_wraps ch msgs :
  ∃ wrapped, requeue ch msgs = ch ++ wrapped ∧
             Forall2 (λ msg w, w = [ISlice msg]) msgs wrapped.
Proof.
  exists (map (λ msg, [ISlice msg]) msgs). split; [done|].
  induction msgs; constructor; auto.
Qed.

(** No wait matches a slice. *)
Lemma callb_skips_slice opaque bucketn xs :
  (∀ c, streamRequestCallb opaque bucketn (ISlice xs) c = ("skip", c)) ∧
  (∀ c, streamEndCallb opaque bucketn (ISlice xs) c = ("skip", c)).
Proof. split; [by intros [? ?] | done]. Qed.

(** *** start, one bucket at a time *)

Lemma startDataPath_loop_Done bucketn reqTs ka :
  ∀ m s, ∃ m' s', startDataPath_loop bucketn reqTs ka m s = Done m' s'.
Proof.
  induction ka as [|kvaddr ka IH]; intros m s; simpl; [by eexists _, _|].
  unfold mbind, M_bind, bind, extern. apply IH.
Qed.

Lemma startDataPath_Done bucketn feeder reqTs s :
  ∃ m s', startDataPath bucketn feeder reqTs s = Done m s'.
Proof.
  unfold startDataPath, mbind, M_bind, bind, extern, gets.
  apply startDataPath_loop_Done.
Qed.

Lemma newOpaque_Done s : ∃ opaque s', newOpaque W s = Done opaque s'.
Proof. by eexists _, _. Qed.

Lemma installBucket_Done bucketn reqTs rollTs feeder m s :
  ∃ s', installBucket bucketn reqTs rollTs feeder m s = Done tt s' ∧
        upstreamAt bucketn s' = (Some reqTs, Some rollTs, Some feeder, Some m) ∧
        (∀ b, b ≠ bucketn → upstreamAt b s' = upstreamAt b s) ∧
        inboxOf s' = inboxOf s ∧ trace s' = trace s ∧
        engines (feed s') = engines (feed s).
Proof.
  eexists. split; [reflexivity|]. unfold upstreamAt, inboxOf. cbn.
  split; [by rewrite !lookup_insert_eq|].
  split; [|done]. intros b Hb. by rewrite !lookup_insert_ne.
Qed.

(** One iteration of start, from the outcome of its three steps. *)
Lemma start_body_run opaque reqTs s feeder s1 m s2 rollTs err s3 :
  bucketFeed W opaque false true reqTs s = Done (inr feeder) s1 →
  startDataPath (GetBucket reqTs) feeder reqTs s1 = Done m s2 →
  waitStreamRequests W opaque (GetBucket reqTs) (GetBucket reqTs)
                     (Vbno32to16 (GetVbnos reqTs)) s2 = Done (rollTs, err) s3 →
  start_body W opaque reqTs s =
  match err with
  | Some e => Done (inl e) s3
  | None =>
      match installBucket (GetBucket reqTs) reqTs rollTs feeder m s3 with
      | Done _ s4 => Done (inr tt) s4
      | Crashed s4 => Crashed s4
      | Blocked s4 => Blocked s4
      end
  end.
Proof.
  intros Hfeed Hpath Hwait.
  unfold start_body, bindE, mbind, M_bind. unfold bind at 1. rewrite Hfeed.
  unfold bind at 1. rewrite Hpath. unfold bind at 1. rewrite Hwait.
  destruct err; reflexivity.
Qed.

Lemma processSubscribers_keeps_inbox req :
  respects (kept inboxOf) (processSubscribers W req).
Proof.
  unfold processSubscribers.
  repeat first [ apply inbox_of_quiet; solve [auto with keeps] | respects_step ].
  intros s. reflexivity.
Qed.

(** The wait of start when every requested vbucket answers once. *)
Lemma waitStreamRequests_answers opaque pooln bucketn kvaddr vbnos fb rest s :
  backch (feed s) = [] →
  sched s = delivered bucketn kvaddr fb ++ rest →
  Forall (λ m, Opaque m = opaque) fb →
  NoDup (VBucket <$> fb) →
  (∀ v, v ∈ vbnos ↔ v ∈ VBucket <$> fb) →
  ∃ s', waitStreamRequests W opaque pooln bucketn vbnos s =
          Done (rollbackOf pooln bucketn fb, None) s' ∧
        bucketMapsOf s' = bucketMapsOf s.
Proof.
  intros Hch Hsched Hop Hnd Hvb. unfold waitStreamRequests.
  destruct vbnos as [|vb vbnos].
  - assert (fb = []) as ->.
    { destruct fb as [|m fb]; [done|]. exfalso.
      apply (elem_of_nil (VBucket m)), Hvb. rewrite fmap_cons. apply elem_of_cons. by left. }
    simpl. by eexists.
  - assert (fb ≠ []) as Hne.
    { intros ->. apply (elem_of_nil vb), Hvb. apply elem_of_cons. by left. }
    rewrite bool_decide_eq_false_2 by done.
    unfold mbind, M_bind, bind, waitOnFeedback. rewrite Hch, Hsched.
    unfold delivered. rewrite <- app_assoc, feedbackLoop_posts, app_nil_l.
    rewrite (feedbackLoop_answers opaque bucketn kvaddr fb) by done.
    rewrite appendRollbacks_new. by eexists.
Qed.







(** *** One bucket among the per-bucket maps *)










(** *** delBuckets *)















(** *** Pool names *)

#[local] Instance emits_preorder Φ : PreOrder (emits Φ).
Proof.
  split.
  - intros s. exists []. by rewrite app_nil_r.
  - intros s1 s2 s3 (c1 & H1 & Hc1) (c2 & H2 & Hc2). exists (c1 ++ c2). split.
    + by rewrite H2, H1, app_assoc.
    + by apply Forall_app.
Qed.

Lemma extern_emits {A} Φ (c : call) (answer : nat → A) :
  Φ c → respects (emits Φ) (extern c answer).
Proof. intros Hc s. exists [c]. split; [done|]. by apply Forall_singleton. Qed.

Lemma emits_of_trace_kept {A} Φ (m : M Sys A) :
  respects (kept trace) m → respects (emits Φ) m.
Proof.
  apply respects_mono. intros s s' H. exists []. unfold kept in H.
  by rewrite H, app_nil_r.
Qed.

Lemma upd_keeps_trace g : respects (kept trace) (upd g).
Proof. intros s. reflexivity. Qed.

Lemma waitOnFeedback_keeps_trace {C} (callb : iface → C → string * C) (c : C) :
  respects (kept trace) (waitOnFeedback callb c).
Proof. intros s. unfold waitOnFeedback. by destruct (feedbackLoop _ _ _ _ _). Qed.

Create HintDb emits discriminated.

Ltac emits :=
  repeat first
    [ solve [auto with emits]
    | apply extern_emits; solve [simpl; auto]
    | apply emits_of_trace_kept;
      first [ apply upd_keeps_trace | apply waitOnFeedback_keeps_trace ]
    | respects_step ].

Section Pool.
Context (pooln bucketn : string).

Lemma getBucket_emits :
  respects (emits (connects_with pooln bucketn)) (getBucket W pooln bucketn).
Proof. unfold getBucket. emits. Qed.

Hint Resolve getBucket_emits : emits.

Lemma bucketDetails_emits :
  respects (emits (connects_with pooln bucketn)) (bucketDetails W pooln bucketn).
Proof. unfold bucketDetails. emits. Qed.

Lemma startDataPath_loop_emits b reqTs ka m :
  respects (emits (connects_with pooln bucketn)) (startDataPath_loop b reqTs ka m).
Proof. revert m. induction ka as [|kvaddr ka IH]; intros m; simpl; emits. Qed.

Hint Resolve startDataPath_loop_emits : emits.

Lemma startDataPath_emits b feeder reqTs :
  respects (emits (connects_with pooln bucketn)) (startDataPath b feeder reqTs).
Proof. unfold startDataPath. emits. Qed.

Lemma updateTs_loop_emits kvdata_ restartTs ka :
  respects (emits (connects_with pooln bucketn)) (updateTs_loop kvdata_ restartTs ka).
Proof. induction ka as [|kvaddr ka IH]; simpl; emits. Qed.

Lemma waitStreamRequests_emits opaque p b vbnos :
  respects (emits (connects_with pooln bucketn)) (waitStreamRequests W opaque p b vbnos).
Proof. unfold waitStreamRequests. emits. Qed.

Lemma waitStreamEnds_emits opaque b vbnos :
  respects (emits (connects_with pooln bucketn)) (waitStreamEnds opaque b vbnos).
Proof. unfold waitStreamEnds. emits. Qed.

Lemma installBucket_emits b reqTs rollTs feeder m :
  respects (emits (connects_with pooln bucketn)) (installBucket b reqTs rollTs feeder m).
Proof. unfold installBucket. emits. Qed.

End Pool.

Hint Resolve bucketDetails_emits startDataPath_emits updateTs_loop_emits
  waitStreamRequests_emits waitStreamEnds_emits installBucket_emits getBucket_emits : emits.

Lemma bucketFeed_emits opaque stop start_ reqTs :
  respects (emits (connects_with (GetPool reqTs) (GetBucket reqTs)))
           (bucketFeed W opaque stop start_ reqTs).
Proof. unfold bucketFeed. emits. Qed.

Hint Resolve bucketFeed_emits : emits.

Lemma start_body_emits opaque reqTs :
  respects (emits (connects_with (GetPool reqTs) (GetBucket reqTs)))
           (start_body W opaque reqTs).
Proof. unfold start_body. emits. Qed.

(** The pool field of the rollback timestamp is the pool name the wait
    was given. *)
Lemma streamRequestCallb_pool opaque bucketn msg vbnos rollTs :
  Pool (streamRequestCallb opaque bucketn msg (vbnos, rollTs)).2.2 = Pool rollTs.
Proof.
  unfold streamRequestCallb. destruct msg as [val| |]; [|done..].
  destruct (_ && _); [|done].
  by destruct (bool_decide (csr_status val = ROLLBACK)), (bool_decide (length _ = 0%nat)).
Qed.

Lemma feedbackLoop_pool opaque bucketn :
  ∀ evs ch msgs vbnos rollTs,
  match feedbackLoop (streamRequestCallb opaque bucketn) evs ch msgs (vbnos, rollTs) with
  | Waited _ c _ _ _ => Pool c.2 = Pool rollTs
  | WaitCrashed _ _ => True
  end.
Proof.
  induction evs as [|e evs IH]; intros ch msgs vbnos rollTs; [done|].
  destruct e as [b k m|b k m| |]; cbn [feedbackLoop]; [apply IH | apply IH | | done].
  destruct ch as [|msg ch]; [apply IH|].
  destruct msg as [|msg0 msg]; [done|].
  pose proof (streamRequestCallb_pool opaque bucketn msg0 vbnos rollTs) as Hp.
  destruct (streamRequestCallb opaque bucketn msg0 (vbnos, rollTs)) as [r [vbnos' rollTs']].
  simpl in Hp. rewrite <- Hp.
  destruct (decide (r = "skip")); [apply IH|].
  destruct (decide (r = "done")); [done | apply IH].
Qed.

Lemma waitStreamRequests_pool opaque pooln bucketn vbnos s rollTs err s' :
  waitStreamRequests W opaque pooln bucketn vbnos s = Done (rollTs, err) s' →
  Pool rollTs = pooln.
Proof.
  unfold waitStreamRequests. destruct (bool_decide _).
  - by intros [= <- _ _].
  - unfold mbind, M_bind, bind, waitOnFeedback.
    pose proof (feedbackLoop_pool opaque bucketn (sched s) (backch (feed s)) [] vbnos
                  (NewTsVbuuid pooln bucketn (MaxVbuckets W))) as Hp.
    destruct (feedbackLoop _ _ _ _ _) as [err' [vbnos' rollTs'] ch msgs rest|]; [|done].
    by intros [= <- _ _].
Qed.

Lemma start_body_pool opaque reqTs s s' :
  start_body W opaque reqTs s = Done (inr tt) s' →
  Pool <$> rollTss (feed s') !! GetBucket reqTs = Some (GetBucket reqTs).
Proof.
  unfold start_body, mbind, M_bind. intros H.
  apply bindE_Done_inr in H as (feeder & s1 & _ & H).
  apply bind_Done in H as (m & s2 & _ & H).
  apply bind_Done in H as ([rollTs err] & s3 & Hwait & H).
  destruct err as [e|]; [discriminate|].
  apply bind_Done in H as ([] & s4 & Hinst & H). inversion H; subst.
  destruct (installBucket_Done (GetBucket reqTs) reqTs rollTs feeder m s3)
    as (s4' & Hinst' & Hat & _).
  rewrite Hinst' in Hinst. inversion Hinst; subst.
  injection Hat as _ -> _ _. simpl. f_equal. by eapply waitStreamRequests_pool.
Qed.

Lemma addBuckets_body_pool opaque reqTs s s' :
  addBuckets_body W opaque reqTs s = Done (inr tt) s' →
  Pool <$> rollTss (feed s') !! GetBucket reqTs = Some (GetPool reqTs).
Proof.
  unfold addBuckets_body, mbind, M_bind. intros H.
  apply bindE_Done_inr in H as (feeder & s1 & _ & H).
  apply bind_Done in H as (m & s2 & _ & H).
  apply bind_Done in H as ([rollTs err] & s3 & Hwait & H).
  destruct err as [e|]; [discriminate|].
  apply bind_Done in H as ([] & s4 & Hinst & H). inversion H; subst.
  destruct (installBucket_Done (GetBucket reqTs) reqTs rollTs feeder m s3)
    as (s4' & Hinst' & Hat & _).
  rewrite Hinst' in Hinst. inversion Hinst; subst.
  injection Hat as _ -> _ _. simpl. f_equal. by eapply waitStreamRequests_pool.
Qed.

Lemma restartVbuckets_body_pool opaque restartTs s s' :
  restartVbuckets_body W opaque restartTs s = Done (inr tt) s' →
  Pool <$> rollTss (feed s') !! GetBucket restartTs = Some (GetPool restartTs).
Proof.
  unfold restartVbuckets_body, mbind, M_bind. intros H.
  apply bind_Done in H as (fd & s0 & _ & H).
  destruct (reqTss fd !! GetBucket restartTs) as [reqTs|]; [|discriminate].
  destruct (kvdata fd !! GetBucket restartTs) as [kvdata_|]; [|discriminate].
  apply bindE_Done_inr in H as (? & s1 & _ & H).
  apply bindE_Done_inr in H as (? & s2 & _ & H).
  apply bind_Done in H as (ka & s3 & _ & H).
  apply bind_Done in H as (? & s4 & _ & H).
  apply bindE_Done_inr in H as (? & s5 & _ & H).
  apply bind_Done in H as ([rollTs err] & s6 & Hwait & H).
  destruct err as [e|]; [discriminate|].
  apply bind_Done in H as ([] & s7 & H7 & H).
  apply bind_Done in H as ([] & s8 & H8 & H).
  inversion H; subst. inversion H8; subst. inversion H7; subst. cbn.
  rewrite lookup_insert_eq. simpl. f_equal. by eapply waitStreamRequests_pool.
Qed.

(** *** Claims *)

(** C1, as amended: when a control operation (start, restartVbuckets,
    shutdownVbuckets, addBuckets, delBuckets, addInstances, delInstances,
    repairEndpoints) returns, with success or with an error, the maps
    feeders, reqTss and kvdata have identical key sets if they had
    before it. *)
Theorem control_op_keeps_upstream_keys (cmd : command) (s s' : Sys)
    (r : error + unit) :
  upstream_keys_agree (feed s) →
  handleCommand W cmd s = Done r s' →
  upstream_keys_agree (feed s').
Proof.
  intros Hs Hrun.
  exact (respects_Done _ _ _ _ _ (handleCommand_aligned cmd) Hrun Hs).
Qed.

(** C3: a per-vbucket ROLLBACK reported while start waits is not an
    error. When every requested vbucket of the bucket answers once,
    whatever the status of each answer, start returns success, the
    request timestamp (with every requested vbucket) becomes
    reqTss[bucket], and rollTss[bucket] holds exactly the answers that
    reported ROLLBACK, each at its reported vbno, seqno and vbuuid. *)
Theorem start_rollback_is_not_an_error (req : MutationTopicRequest)
    (reqTs : TsVbuuid) (kvaddr : string) (fb : list UprEvent) (rest : list event)
    (s s1 s2 s3 : Sys) (opaque : Z) (feeder : BucketFeeder) :
  mt_ReqTimestamps req = [reqTs] →
  processSubscribers W (mt_subscriber req) s = Done (inr tt) s1 →
  newOpaque W s1 = Done opaque s2 →
  bucketFeed W opaque false true reqTs s2 = Done (inr feeder) s3 →
  backch (feed s) = [] →
  sched s = delivered (GetBucket reqTs) kvaddr fb ++ rest →
  Forall (λ m, Opaque m = opaque) fb →
  NoDup (VBucket <$> fb) →
  (∀ v, v ∈ Vbno32to16 (GetVbnos reqTs) ↔ v ∈ VBucket <$> fb) →
  ∃ s', start W req s = Done (inr tt) s' ∧
        reqTss (feed s') !! GetBucket reqTs = Some reqTs ∧
        rollTss (feed s') !! GetBucket reqTs =
          Some (rollbackOf (GetBucket reqTs) (GetBucket reqTs) fb).
Proof.
  intros Hts Hps Hop Hfeed Hch Hsched Hfb Hnd Hvb.
  destruct (startDataPath_Done (GetBucket reqTs) feeder reqTs s3) as (m & s4 & Hpath).
  assert (inboxOf s4 = inboxOf s) as [= Hsched4 Hch4].
  { pose proof (respects_Done _ _ _ _ _ (processSubscribers_keeps_inbox _) Hps) as H1.
    pose proof (respects_Done _ _ _ _ _ (inbox_of_quiet _ (newOpaque_keeps)) Hop) as H2.
    pose proof (respects_Done _ _ _ _ _
                  (inbox_of_quiet _ (bucketFeed_keeps _ _ _ _)) Hfeed) as H3.
    pose proof (respects_Done _ _ _ _ _
                  (inbox_of_quiet _ (startDataPath_keeps _ _ _)) Hpath) as H4.
    unfold kept in *. congruence. }
  rewrite <- Hch4 in Hch. rewrite <- Hsched4 in Hsched.
  destruct (waitStreamRequests_answers opaque (GetBucket reqTs) (GetBucket reqTs) kvaddr
              _ fb rest s4 Hch Hsched Hfb Hnd Hvb) as (s5 & Hwait & _).
  destruct (installBucket_Done (GetBucket reqTs) reqTs
              (rollbackOf (GetBucket reqTs) (GetBucket reqTs) fb) feeder m s5)
    as (s6 & Hinst & Hat & _).
  exists s6. split; [|by injection Hat].
  unfold start, bindE, mbind, M_bind. unfold bind at 1. rewrite Hps.
  unfold bind at 1. rewrite Hop, Hts. simpl. unfold bindE, bind at 1.
  by rewrite (start_body_run _ _ _ _ _ _ _ _ _ _ Hfeed Hpath Hwait), Hinst.
Qed.



(** C9, as amended: in the start path [pooln] and [bucketn] are both
    bound to the bucket field of the request timestamp, and that pool
    name only reaches the rollback timestamp, whose pool field is the
    bucket name. The bucket connection behind the vbucket map and the
    failover logs is opened by bucketFeed under the pool field of the
    request timestamp. addBuckets and restartVbuckets bind [pooln] from
    the pool field, which becomes the pool of their rollback
    timestamp. *)
Theorem start_pool_names (opaque : Z) (reqTs : TsVbuuid) :
  respects (emits (connects_with (GetPool reqTs) (GetBucket reqTs)))
           (start_body W opaque reqTs) ∧
  (∀ s s', start_body W opaque reqTs s = Done (inr tt) s' →
           Pool <$> rollTss (feed s') !! GetBucket reqTs = Some (GetBucket reqTs)) ∧
  (∀ s s', addBuckets_body W opaque reqTs s = Done (inr tt) s' →
           Pool <$> rollTss (feed s') !! GetBucket reqTs = Some (GetPool reqTs)) ∧
  (∀ s s', restartVbuckets_body W opaque reqTs s = Done (inr tt) s' →
           Pool <$> rollTss (feed s') !! GetBucket reqTs = Some (GetPool reqTs)).
Proof.
  split; [apply start_body_emits|].
  split; [apply start_body_pool|].
  split; [apply addBuckets_body_pool | apply restartVbuckets_body_pool].
Qed.

End Facts.

(** *** The claims on the scenarios of the specification *)

(** C1, as stated, fails: feeders, reqTss, kvdata and engines need not
    have the same keys when a control operation returns. A topic started
    on bucket b1 with no index instance returns success with b1 in
    feeders, reqTss and kvdata, and no entry in engines. *)
Lemma bucket_keys_disagree_after_start :
  bucket_keys_agree (feed (freshSys allStarted)) ∧
  valueOf (handleCommand W0 start_b1_no_instances (freshSys allStarted)) = Some (inr tt) ∧
  ¬ bucket_keys_agree
      (feed (stateOf (handleCommand W0 start_b1_no_instances (freshSys allStarted)))).
Proof.
  split; [by repeat split|]. split; [by vm_compute|].
  intros (_ & _ & Heng).
  assert ("b1" ∈ dom (engines (feed (stateOf
            (handleCommand W0 start_b1_no_instances (freshSys allStarted)))))) as Hin.
  { rewrite Heng. apply elem_of_dom. by vm_compute. }
  apply elem_of_dom in Hin. vm_compute in Hin. by destruct Hin.
Qed.

Lemma control_op_keeps_upstream_keys_witness :
  upstream_keys_agree
    (feed (stateOf (handleCommand W0 start_b1_no_instances (freshSys allStarted)))).
Proof.
  apply (control_op_keeps_upstream_keys W0 start_b1_no_instances
           (freshSys allStarted) _ (inr tt)).
  - split; reflexivity.
  - vm_compute. reflexivity.
Defined.

Lemma start_rollback_is_not_an_error_witness :
  ∃ s', start W0 start_b1 (freshSys (delivered "b1" "kv1" rollbackFeedback)) =
          Done (inr tt) s' ∧
        reqTss (feed s') !! "b1" = Some ts_b1 ∧
        rollTss (feed s') !! "b1" = Some (mkTs "b1" "b1" [2] [50] [170] [(0, 0)]).
Proof.
  pose (s := freshSys (delivered "b1" "kv1" rollbackFeedback)).
  pose (s1 := stateOf (processSubscribers W0 (mt_subscriber start_b1) s)).
  pose (s2 := stateOf (newOpaque W0 s1)).
  pose (s3 := stateOf (bucketFeed W0 0 false true ts_b1 s2)).
  apply (start_rollback_is_not_an_error W0 start_b1 ts_b1 "kv1" rollbackFeedback []
           s s1 s2 s3 0 7%nat).
  - reflexivity.
  - vm_compute. reflexivity.
  - vm_compute. reflexivity.
  - vm_compute. reflexivity.
  - reflexivity.
  - reflexivity.
  - repeat constructor.
  - compute_done.
  - intros v. reflexivity.
Defined.




(** C2: a feedback message that does not match the wait is put back on
    the back-channel, but not in a form a later wait can match. The
    first wait, for vbucket 1 under [opaque1], skips the StreamRequest of
    vbucket 0 for [opaque2] and puts it back wrapped in one more slice;
    the wait for vbucket 0 under [opaque2] then receives it, skips it and
    runs into its timeout. *)
Theorem requeued_feedback_is_not_matched :
  let first := waitStreamRequests W0 opaque1 "default" "b1" [1] (freshSys laterFirst) in
  valueOf first = Some (NewTsVbuuid "default" "b1" 1024, None) ∧
  backch (feed (stateOf first)) =
    [[ISlice [IStreamRequest (streamRequestOf "b1" "kv1" (feedbackOk opaque2 0))]]] ∧
  valueOf (waitStreamRequests W0 opaque2 "default" "b1" [0] (stateOf first)) =
    Some (NewTsVbuuid "default" "b1" 1024, Some ErrorResponseTimeout).
Proof. repeat split; vm_compute; reflexivity. Qed.

(** C9, as stated, fails: start does not resolve the vbucket map and the
    failover logs under the bucket name. For a request timestamp of pool
    "default" and bucket "b1" the bucket is connected under pool
    "default", never under pool "b1". *)
Lemma start_connects_with_pool_field :
  GetPool ts_b1 ≠ GetBucket ts_b1 ∧
  valueOf (start W0 start_b1 (freshSys allStarted)) = Some (inr tt) ∧
  CConnectBucket "cluster" (GetPool ts_b1) "b1"
    ∈ trace (stateOf (start W0 start_b1 (freshSys allStarted))) ∧
  CConnectBucket "cluster" (GetBucket ts_b1) "b1"
    ∉ trace (stateOf (start W0 start_b1 (freshSys allStarted))).
Proof.
  split; [done|]. split; [by vm_compute|]. split.
  - vm_compute. do 2 (apply elem_of_cons; right). apply elem_of_cons. by left.
  - vm_compute. intros H.
    repeat (apply elem_of_cons in H as [H|H]; [discriminate|]).
    by apply elem_of_nil in H.
Qed.

Lemma start_pool_names_witness :
  Pool <$> rollTss (feed (stateOf (start_body W0 0 ts_b1 (freshSys allStarted)))) !! "b1" =
  Some "b1"%string.
Proof.
  apply (proj1 (proj2 (start_pool_names W0 0 ts_b1)) (freshSys allStarted)).
  vm_compute. reflexivity.
Defined.

End ProjectorFacts.

(** ** The stream manager *)

Module ManagerFacts.
Import Manager ManagerSpec.

Section Facts.
Context (W : World).

Lemma matchOldInstances_true newInst fromStates oldInsts :
  ∀ add,
  matchOldInstances newInst fromStates oldInsts add = true ↔
  add = true ∧
  ∀ oldInst, oldInst ∈ oldInsts → InstId newInst = InstId oldInst →
             inState (State oldInst) fromStates = true ∧ State oldInst ≠ State newInst.
Proof.
  induction oldInsts as [|o oldInsts IH]; intros add; simpl.
  - split; [intros ->; split; [done|] | by intros [-> _]].
    intros oldInst Hin. by apply elem_of_nil in Hin.
  - rewrite IH. split.
    + intros [Hadd Hrest]. case_bool_decide as Hid.
      * apply andb_true_iff in Hadd as [Hadd Hne]. apply andb_true_iff in Hadd as [-> Hfrom].
        split; [done|]. intros oldInst [->|Hin]%elem_of_cons Heq; [|by apply Hrest].
        split; [done|]. apply negb_true_iff, bool_decide_eq_false in Hne. done.
      * split; [done|]. intros oldInst [->|Hin]%elem_of_cons Heq; [done|by apply Hrest].
    + intros [-> Hall]. split.
      * case_bool_decide as Hid; [|done].
        destruct (Hall o) as [-> Hne]; [apply elem_of_cons; by left | done |].
        simpl. by apply negb_true_iff, bool_decide_eq_false.
      * intros oldInst Hin. apply Hall. apply elem_of_cons. by right.
Qed.

(** The flag [add] follows the diff rule. *)
Lemma addDecision_rule oldDefn newInst fromStates toStates :
  addDecision oldDefn newInst fromStates toStates = true ↔
  diff_rule oldDefn newInst fromStates toStates.
Proof.
  unfold addDecision, diff_rule. destruct oldDefn as [old|].
  - rewrite matchOldInstances_true. split.
    + intros [Hto Hall]. split; [done|]. intros ? oldInst [= <-]. apply Hall.
    + intros [Hto Hall]. split; [done|]. intros oldInst. by apply Hall.
  - split; [|by intros [? _]]. intros Hto. split; [done|]. by intros.
Qed.

(** A nil list of states accepts every state. *)
Lemma inState_nil state : inState state None = true.
Proof. reflexivity. Qed.

(** The two handlers return at once when the old topology has the
    version of the new one. *)
Lemma handleAddInstances_same_version streamId bucket old newTopology fromState toState s :
  Version old = Version newTopology →
  handleAddInstances W streamId bucket (Some old) newTopology fromState toState s =
  Done (inr tt) s.
Proof.
  intros Hv. unfold handleAddInstances, sameVersion.
  by rewrite bool_decide_eq_true_2.
Qed.

Lemma handleDeleteInstances_same_version streamId bucket old newTopology fromState toState s :
  Version old = Version newTopology →
  handleDeleteInstances W streamId bucket (Some old) newTopology fromState toState s =
  Done (inr tt) s.
Proof.
  intros Hv. unfold handleDeleteInstances, sameVersion.
  rewrite (bool_decide_eq_true_2 (Version old = _)) by done.
  by rewrite orb_true_r.
Qed.

(** C6: when a topology arrives for a bucket whose last-seen topology
    has the same Version, the handlers of the maintenance stream and of
    the init stream make no admin call (no call at all leaves the
    manager), and the change is reported as handled. *)
Theorem same_version_no_admin_calls (newTopology old : IndexTopology) (s : Sys) :
  topologies (mgr s) !! Bucket newTopology = Some old →
  Version old = Version newTopology →
  ∃ s', handleTopologyChange W newTopology s = Done (inr tt) s' ∧
        trace s' = trace s ∧
        filter (λ c, is_admin_call c = true) (trace s') =
        filter (λ c, is_admin_call c = true) (trace s).
Proof.
  intros Hold Hv.
  assert (handleTopologyChangeForMaintStream W newTopology s = Done (inr tt) s) as Hmaint.
  { unfold handleTopologyChangeForMaintStream, bindE, mbind, M_bind, bind, gets.
    destruct (negb _); [done|]. rewrite Hold.
    rewrite handleAddInstances_same_version by done.
    by rewrite handleDeleteInstances_same_version. }
  assert (handleTopologyChangeForInitStream W newTopology s = Done (inr tt) s) as Hinit.
  { unfold handleTopologyChangeForInitStream, bindE, mbind, M_bind, bind, gets.
    destruct (negb _); [done|]. rewrite Hold.
    rewrite handleAddInstances_same_version by done.
    by rewrite handleDeleteInstances_same_version. }
  eexists. split; [|split].
  - unfold handleTopologyChange, bindE, mbind, M_bind, bind.
    rewrite Hmaint, Hinit. reflexivity.
  - reflexivity.
  - reflexivity.
Qed.

(** *** After Close *)

(** Close returns with the manager closed and the lock released. *)
Lemma Close_Done s s1 :
  Close s = Done tt s1 → isClosed (mgr s1) = true ∧ mutex (mgr s1) = false.
Proof.
  unfold Close, locked. destruct (mutex (mgr s)); [done|].
  unfold mbind, M_bind, bind, gets. simpl.
  destruct (isClosed (mgr s)) eqn:Hclosed; simpl.
  - intros [= <-]. by simpl.
  - destruct (Close_loop _ _) as [[] s2|s2|s2]; [|done..].
    destruct (monitor (mgr s)); simpl; intros [= <-]; by simpl.
Qed.

(** C10: once Close has returned, every public operation of the stream
    manager returns nil and leaves the manager and the record of calls
    as they are: no admin call is made and no error such as
    streamNotOpen is reported. *)
Theorem closed_manager_reports_success (s s1 : Sys) (streamId : StreamId)
    (buckets : list string) (timestamps : list nat) :
  Close s = Done tt s1 →
  StartStream W streamId s1 = Done (inr tt) s1 ∧
  AddIndexForAllBuckets W streamId s1 = Done (inr tt) s1 ∧
  AddIndexForBuckets W streamId buckets s1 = Done (inr tt) s1 ∧
  DeleteIndexForBuckets W streamId buckets s1 = Done (inr tt) s1 ∧
  RestartStreamIfNecessary W streamId timestamps s1 = Done (inr tt) s1 ∧
  CloseStream streamId s1 = Done (inr tt) s1.
Proof.
  intros [Hclosed Hfree]%Close_Done.
  destruct s1 as [[streams_ topologies_ monitor_ mutex_ isClosed_ stopch_] dv iv tr].
  simpl in *. subst.
  repeat split; reflexivity.
Qed.

End Facts.

Lemma same_version_no_admin_calls_witness :
  ∃ s', handleTopologyChange W0 topology1 maintOpen = Done (inr tt) s' ∧
        trace s' = trace maintOpen ∧
        filter (λ c, is_admin_call c = true) (trace s') =
        filter (λ c, is_admin_call c = true) (trace maintOpen).
Proof.
  apply (same_version_no_admin_calls W0 topology1 topology1 maintOpen).
  - vm_compute. reflexivity.
  - reflexivity.
Defined.

Lemma closed_manager_reports_success_witness :
  AddIndexForBuckets W0 INIT_STREAM ["b1"%string] (stateOf (Close maintOpen)) =
  Done (inr tt) (stateOf (Close maintOpen)).
Proof.
  apply (closed_manager_reports_success W0 maintOpen (stateOf (Close maintOpen))
           INIT_STREAM ["b1"%string] []).
  vm_compute. reflexivity.
Defined.

(** C7: the flag [add] of addInstancesToChangeList follows the diff
    rule, but the change list does not hold the instances the rule
    accepts. Of the definition with instance 42 (READY to DELETED) and
    instance 43 (READY as before), the rule accepts 42 alone; the one
    record of the change list points to the loop variable, which holds
    instance 43 when the function returns, and the maintenance stream
    is asked to delete instance 43. *)
Theorem change_list_points_to_last_instance :
  diff_rule (Some d1_ready) (mkInst 42 INDEX_STATE_DELETED)
            (Some [INDEX_STATE_ACTIVE; INDEX_STATE_READY]) (Some [INDEX_STATE_DELETED]) ∧
  ¬ diff_rule (Some d1_ready) (mkInst 43 INDEX_STATE_READY)
              (Some [INDEX_STATE_ACTIVE; INDEX_STATE_READY]) (Some [INDEX_STATE_DELETED]) ∧
  valueOf (deletedOfD1 maintOpen) =
    Some [(Some d1_42_deleted, Some (mkInst 43 INDEX_STATE_READY))] ∧
  valueOf (handleTopologyChange W0 topology2 maintOpen) = Some (inr tt) ∧
  trace (stateOf (handleTopologyChange W0 topology2 maintOpen)) =
    [CDeleteIndexFromStream MAINT_STREAM ["b1"%string] [43]].
Proof.
  split; [by apply addDecision_rule|].
  split; [rewrite <- addDecision_rule; by vm_compute|].
  repeat split; vm_compute; reflexivity.
Qed.

End ManagerFacts.

(** ** The cancel callback of a scan *)

Module IndexerFacts.
Import Indexer IndexerSpec.





End IndexerFacts.

(** ** More of the topic feed controller *)

Section OnError.
Context {S E X : Type} (π : S → X).

Lemma on_error_ret {A} (r : E + A) : on_error π (ret r).
Proof. intros s e s' [= _ <-]. reflexivity. Qed.

Lemma on_error_bind {A B} (m : M S A) (k : A → M S (E + B)) :
  respects (kept π) m → (∀ a, on_error π (k a)) → on_error π (bind m k).
Proof.
  intros Hm Hk s e s' (a & s1 & H1 & H2)%bind_Done.
  rewrite (Hk a s1 e s' H2). exact (respects_Done (kept π) m s a s1 Hm H1).
Qed.

Lemma on_error_bindE {A B} (m : M S (E + A)) (k : A → M S (E + B)) :
  respects (kept π) m → (∀ a, on_error π (k a)) → on_error π (bindE m k).
Proof.
  intros Hm Hk. apply on_error_bind; [done|].
  intros [e|a]; [apply on_error_ret | apply Hk].
Qed.

(** A continuation that returns no error. *)
Lemma on_error_bind_never {A B} (m : M S A) (k : A → M S (E + B)) :
  (∀ a s e s', k a s ≠ Done (inl e) s') → on_error π (bind m k).
Proof. intros Hk s e s' (a & s1 & _ & H)%bind_Done. by apply Hk in H. Qed.

(** A computation that ends by returning nil returns no error. *)
Lemma on_error_then_nil {A B} (m : M S A) (b : B) :
  on_error π (bind m (λ _, ret (inr b) : M S (E + B))).
Proof. intros s e s' (a & s1 & _ & H)%bind_Done. discriminate. Qed.

End OnError.

Module ProjectorMore.
Import Projector ProjectorSpec ProjectorFacts ProjectorMoreSpec.

#[local] Existing Instance emits_preorder.

Section More.
Context (W : World).

(** X1 (newOpaque): the opaque of an operation is the 16 bits 40..55 of
    the clock (in nanoseconds, as an unsigned 64-bit number) placed in
    the upper half of a 32-bit word; its lower 16 bits are zero. The call
    reads the clock once and leaves the topic state alone. *)
Theorem newOpaque_bits s :
  let now := w_UnixNano W (length (trace s)) in
  let opaque := (to_uint64 now / 2 ^ 40) mod 2 ^ 16 * 2 ^ 16 in
  newOpaque W s = Done opaque (mkSys (feed s) (sched s) (trace s ++ [CNow])) ∧
  0 ≤ opaque < 2 ^ 32 ∧ opaque mod 2 ^ 16 = 0.
Proof.
  cbn zeta. split; [|split].
  - unfold newOpaque, mbind, M_bind, mret, M_ret, bind, ret, extern. do 2 f_equal.
    unfold to_uint32. rewrite Z.shiftr_div_pow2, Z.shiftl_mul_pow2 by lia.
    change (2 ^ 32) with (2 ^ 16 * 2 ^ 16).
    by rewrite Z.mul_mod_distr_r by lia.
  - pose proof (Z.mod_pos_bound (to_uint64 (w_UnixNano W (length (trace s))) / 2 ^ 40)
                  (2 ^ 16) ltac:(lia)). lia.
  - apply Z.mod_mul. lia.
Qed.

(** *** subscribers and processSubscribers *)

Lemma lookupRouter_Some uuid routers router :
  lookupRouter uuid routers = Some router → (uuid, router) ∈ routers.
Proof.
  unfold lookupRouter. destruct (find _ routers) as [[u r]|] eqn:Hfind; [|done].
  intros [= <-]. apply find_some in Hfind as [Hin Hu].
  apply bool_decide_eq_true in Hu. simpl in Hu. subst u.
  by apply list_elem_of_In.
Qed.

Lemma subscribers_Done_inr req s evaluators routers s' :
  subscribers req s = Done (inr (evaluators, routers)) s' →
  s' = s ∧ GetEvaluators req = inr evaluators ∧ GetRouters req = inr routers ∧
  length evaluators = length routers ∧
  ∀ p, p ∈ evaluators → is_Some (lookupRouter p.1 routers).
Proof.
  unfold subscribers, bindE, mbind, M_bind, mret, M_ret, bind, ret.
  destruct (GetEvaluators req) as [e|evs]; [done|].
  destruct (GetRouters req) as [e|rts]; [done|].
  destruct (bool_decide (length evs = length rts)) eqn:Hlen; [|done]. simpl.
  destruct (forallb _ evs) eqn:Hall; [|done].
  intros [= <- <- <-]. apply bool_decide_eq_true in Hlen.
  repeat split; [done|]. intros p Hp.
  rewrite forallb_forall in Hall.
  specialize (Hall p (proj1 (list_elem_of_In _ _) Hp)).
  by apply bool_decide_eq_true in Hall.
Qed.

(** X2 (subscribers): when subscribers accepts a request, the state is
    untouched and the evaluators and the routers it returns are those of
    the request and cover the same instances: every uuid with an
    evaluator has a router and the other way round (the evaluators come
    from a Go map, so no uuid occurs twice among them). *)
Theorem subscribers_same_uuids req s evaluators routers s' :
  subscribers req s = Done (inr (evaluators, routers)) s' →
  NoDup evaluators.*1 →
  s' = s ∧ GetEvaluators req = inr evaluators ∧ GetRouters req = inr routers ∧
  evaluators.*1 ≡ₚ routers.*1.
Proof.
  intros (-> & Hev & Hrt & Hlen & Hall)%subscribers_Done_inr Hnd.
  repeat split; [done..|].
  apply submseteq_length_Permutation.
  - apply NoDup_submseteq; [done|]. intros uuid Huuid.
    apply list_elem_of_fmap in Huuid as (p & -> & Hp).
    destruct (Hall p Hp) as [router Hr]. apply lookupRouter_Some in Hr.
    by apply (list_elem_of_fmap_2 fst) in Hr.
  - by rewrite !length_fmap, Hlen.
Qed.

Lemma engines_of_quiet {A} (m : M Sys A) :
  respects (kept quietOf) m → respects (kept (engines ∘ feed)) m.
Proof.
  apply respects_mono. unfold kept, quietOf, bucketMapsOf.
  intros s s' [= H1 H2 H3 H4 H5 _ _]. exact H5.
Qed.

(** X3 (processSubscribers): when processSubscribers returns an error,
    be it from the request, from the consistency check or from the
    endpoint factory, no engine has been installed and the per-bucket
    maps are as before. *)
Theorem processSubscribers_error_installs_nothing req :
  on_error bucketMapsOf (processSubscribers W req).
Proof.
  unfold processSubscribers.
  apply on_error_bindE; [apply bucketMaps_of_quiet, (subscribers_keeps W)|].
  intros [evaluators routers].
  apply on_error_bindE; [apply bucketMaps_of_quiet, startEndpoints_keeps|].
  intros _. apply on_error_then_nil.
Qed.

Lemma installEngine_engineAt routers p s bucketn uuid :
  ∃ s', installEngine routers p s = Done tt s' ∧
        engineAt bucketn uuid (feed s') =
        if decide (bucketn = ev_Bucket p.2 ∧ uuid = p.1)
        then Some (NewEngine p.1 p.2 (lookupRouter p.1 routers))
        else engineAt bucketn uuid (feed s).
Proof.
  eexists. split; [reflexivity|]. unfold engineAt. cbn.
  destruct (decide (bucketn = ev_Bucket p.2)) as [->|Hb].
  - rewrite lookup_insert_eq. cbn.
    destruct (decide (uuid = p.1)) as [->|Hu].
    + rewrite lookup_insert_eq. by rewrite decide_True.
    + rewrite lookup_insert_ne by done. rewrite decide_False by (by intros [_ ?]).
      by destruct (engines (feed s) !! ev_Bucket p.2).
  - rewrite lookup_insert_ne by done. by rewrite decide_False by (by intros [? _]).
Qed.

Lemma installEngines_others routers evaluators bucketn uuid :
  ∀ s s', forM (installEngine routers) evaluators s = Done tt s' →
  (∀ ev, (uuid, ev) ∈ evaluators → ev_Bucket ev ≠ bucketn) →
  engineAt bucketn uuid (feed s') = engineAt bucketn uuid (feed s).
Proof.
  induction evaluators as [|p evaluators IH]; intros s s' H Hno; simpl in H.
  - by inversion H.
  - apply bind_Done in H as ([] & s1 & H1 & H).
    destruct (installEngine_engineAt routers p s bucketn uuid) as (s1' & H1' & Hat).
    rewrite H1' in H1. inversion H1; subst s1'.
    rewrite (IH s1 s' H); [|intros ev Hev; apply Hno; by right].
    rewrite Hat. rewrite decide_False; [done|].
    intros [-> ->]. apply (Hno p.2); [|done]. destruct p. by left.
Qed.

Lemma installEngines_installed routers evaluators uuid ev :
  ∀ s s', forM (installEngine routers) evaluators s = Done tt s' →
  NoDup evaluators.*1 →
  (uuid, ev) ∈ evaluators →
  engineAt (ev_Bucket ev) uuid (feed s') =
  Some (NewEngine uuid ev (lookupRouter uuid routers)).
Proof.
  induction evaluators as [|p evaluators IH]; intros s s' H Hnd Hin; simpl in H.
  - by apply elem_of_nil in Hin.
  - apply bind_Done in H as ([] & s1 & H1 & H).
    apply NoDup_cons in Hnd as [Hp Hnd].
    apply elem_of_cons in Hin as [<-|Hin]; [|by eapply IH].
    destruct (installEngine_engineAt routers (uuid, ev) s (ev_Bucket ev) uuid)
      as (s1' & H1' & Hat).
    rewrite H1' in H1. inversion H1; subst s1'.
    rewrite (installEngines_others _ _ _ _ _ _ H).
    + rewrite Hat. by rewrite decide_True.
    + intros ev' Hev'. exfalso. apply Hp. by apply (list_elem_of_fmap_2 fst) in Hev'.
Qed.

(** X4 (processSubscribers): when processSubscribers succeeds, every
    instance of the request has its engine under the bucket of its
    evaluator, made of the evaluator and of the router the request gives
    for the instance; an engine is left as it was under every bucket that
    is not the bucket of an evaluator the request gives for its
    instance. *)
Theorem processSubscribers_installs req s s' evaluators :
  processSubscribers W req s = Done (inr tt) s' →
  GetEvaluators req = inr evaluators →
  NoDup evaluators.*1 →
  (∀ uuid ev, (uuid, ev) ∈ evaluators →
     ∃ routers router, GetRouters req = inr routers ∧ (uuid, router) ∈ routers ∧
       engineAt (ev_Bucket ev) uuid (feed s') = Some (NewEngine uuid ev (Some router))) ∧
  (∀ bucketn uuid, (∀ ev, (uuid, ev) ∈ evaluators → ev_Bucket ev ≠ bucketn) →
     engineAt bucketn uuid (feed s') = engineAt bucketn uuid (feed s)).
Proof.
  unfold processSubscribers, mbind, M_bind. intros H Hev Hnd.
  apply bindE_Done_inr in H as ([evs routers] & s1 & Hsub & H).
  apply subscribers_Done_inr in Hsub as (-> & Hev' & Hrt & _ & Hall).
  rewrite Hev in Hev'. injection Hev' as <-.
  apply bindE_Done_inr in H as ([] & s2 & Hstart & H).
  apply bind_Done in H as ([] & s3 & Hinst & H). inversion H; subst s3.
  pose proof (respects_Done _ _ _ _ _
                (engines_of_quiet _ (startEndpoints_keeps W routers)) Hstart) as Heng.
  unfold kept in Heng. simpl in Heng.
  split.
  - intros uuid ev Hin.
    destruct (Hall (uuid, ev) Hin) as [router Hr]. simpl in Hr.
    exists routers, router. split; [done|]. split; [by apply lookupRouter_Some|].
    rewrite <- Hr. by eapply installEngines_installed.
  - intros bucketn uuid Hno.
    rewrite (installEngines_others _ _ _ _ _ _ Hinst Hno).
    unfold engineAt. by rewrite Heng.
Qed.

(** *** Endpoints *)

Lemma waitOnFeedback_ends {C} (callb : iface → C → string * C) (c : C) :
  respects (kept endpointsOf) (waitOnFeedback callb c).
Proof. intros s. unfold waitOnFeedback. by destruct (feedbackLoop _ _ _ _ _). Qed.

Ltac ends :=
  repeat first [ solve [intros ?; reflexivity]
               | solve [auto]
               | apply waitOnFeedback_ends
               | respects_step ].

Lemma startDataPath_loop_ends bucketn reqTs ka m :
  respects (kept endpointsOf) (startDataPath_loop bucketn reqTs ka m).
Proof. revert m. induction ka as [|kvaddr ka IH]; intros m; simpl; ends. Qed.

Lemma updateTs_loop_ends kvdata_ restartTs ka :
  respects (kept endpointsOf) (updateTs_loop kvdata_ restartTs ka).
Proof. induction ka as [|kvaddr ka IH]; simpl; ends. Qed.

Section Live.
Context (raddr : string) (e : RouterEndpoint).
Context (Hping : ∀ n, w_Ping W n e = true).

Lemma live_of_ends {A} (m : M Sys A) :
  respects (kept endpointsOf) m → respects (preserved (has_endpoint raddr e)) m.
Proof.
  apply respects_mono. unfold kept, endpointsOf, preserved, has_endpoint.
  intros s s' H. by rewrite H.
Qed.

Lemma ensureEndpoint_live raddr' : respects (preserved (has_endpoint raddr e)) (ensureEndpoint W raddr').
Proof.
  intros s. unfold ensureEndpoint, bindE, mbind, M_bind, mret, M_ret, bind, ret, gets, extern.
  destruct (endpoints (feed s) !! raddr') as [e'|] eqn:He'.
  - destruct (w_Ping W (length (trace s)) e') eqn:Hp; simpl; [by intros ?|].
    assert (raddr' ≠ raddr ∨ raddr' = raddr) as [Hne| ->]
      by (destruct (decide (raddr' = raddr)); auto).
    + destruct (w_epFactory _ _ _ _ _) as [err|[e''|]]; simpl; try by intros ?.
      unfold preserved, has_endpoint. cbn. by rewrite lookup_insert_ne.
    + destruct (w_epFactory _ _ _ _ _) as [err|[e''|]]; simpl; try by intros ?.
      unfold preserved, has_endpoint. cbn. rewrite He'. intros [= ->]. by rewrite Hping in Hp.
  - simpl. destruct (w_epFactory _ _ _ _ _) as [err|[e''|]]; simpl; try by intros ?.
    unfold preserved, has_endpoint. cbn. intros Hl.
    rewrite lookup_insert_ne; [done|]. intros ->. by rewrite He' in Hl.
Qed.

Lemma handleCommand_live cmd : respects (preserved (has_endpoint raddr e)) (handleCommand W cmd).
Proof.
  destruct cmd; simpl;
    unfold start, restartVbuckets, shutdownVbuckets, addBuckets, delBuckets,
      addInstances, delInstances, repairEndpoints, processSubscribers, startEndpoints;
    repeat first
      [ apply ensureEndpoint_live
      | apply live_of_ends;
        unfold start_body, restartVbuckets_body, shutdownVbuckets_body, addBuckets_body,
          delBuckets_body, subscribers, newOpaque, installEngine, installBucket,
          forgetBucket, postAddEngines, bucketFeed, bucketDetails, getBucket,
          startDataPath, waitStreamRequests, waitStreamEnds;
        solve [repeat first [ solve [intros ?; reflexivity]
                            | apply waitOnFeedback_ends
                            | apply startDataPath_loop_ends
                            | apply updateTs_loop_ends
                            | respects_step ]]
      | respects_step ].
Qed.

End Live.

(** X5 (startEndpoints, repairEndpoints): no control operation replaces
    an endpoint that answers the ping. If the endpoint registered for a
    remote address keeps answering Ping with true, it is the endpoint of
    that address after any control operation, however the operation
    ends. *)
Theorem live_endpoint_is_kept cmd raddr e s :
  (∀ n, w_Ping W n e = true) →
  endpoints (feed s) !! raddr = Some e →
  endpoints (feed (stateOf (handleCommand W cmd s))) !! raddr = Some e.
Proof.
  intros Hping Hs. pose proof (handleCommand_live raddr e Hping cmd s) as H.
  destruct (handleCommand W cmd s); by apply H.
Qed.

(** *** bucketDetails and bucketFeed *)

Lemma latestVbuuids_length flogs vbnos vbuuids :
  latestVbuuids flogs vbnos = Some vbuuids → length vbuuids = length vbnos.
Proof.
  revert vbuuids. induction vbnos as [|vbno vbnos IH]; intros vbuuids; simpl.
  - by intros [= <-].
  - destruct (last _) as [entry|]; [|done].
    destruct (latestVbuuids flogs vbnos) as [vs|]; [|done].
    intros [= <-]. simpl. f_equal. by apply IH.
Qed.

Lemma latestVbuuids_None flogs vbnos vbno :
  vbno ∈ vbnos → default [] (flogs !! vbno) = [] → latestVbuuids flogs vbnos = None.
Proof.
  intros Hin Hempty. induction vbnos as [|v vbnos IH]; [by apply elem_of_nil in Hin|].
  simpl. apply elem_of_cons in Hin as [<-|Hin].
  - by rewrite Hempty.
  - destruct (last _); [|done]. by rewrite IH.
Qed.

Ltac emitted :=
  eexists; split;
  [ first [ rewrite <- ?app_assoc; reflexivity | symmetry; apply app_nil_r ]
  | repeat constructor ].

Lemma bucketDetails_run pooln bucketn s :
  ∃ r s', bucketDetails W pooln bucketn s = Done r s' ∧
          feed s' = feed s ∧ sched s' = sched s ∧ emits no_stream_call s s' ∧
          ∀ vbnos vbuuids, r = inr (vbnos, vbuuids) → length vbuuids = length vbnos.
Proof.
  unfold bucketDetails, getBucket, bindE, mbind, M_bind, mret, M_ret, bind, ret, gets, extern.
  repeat match goal with
         | |- context [match ?x with _ => _ end] =>
             lazymatch x with
             | context [match _ with _ => _ end] => fail
             | latestVbuuids _ _ => fail
             | _ => destruct x; cbn
             end
         end;
    first
      [ eexists _, _; split; [reflexivity|]; cbn;
        split; [done|]; split; [done|]; split; [emitted|done]
      | destruct (latestVbuuids _ _) as [vbuuids|] eqn:Hl;
        eexists _, _; (split; [reflexivity|]); cbn;
        (split; [done|]); (split; [done|]); (split; [emitted|]);
        intros ? ? [= <- <-]; first [done | by eapply latestVbuuids_length] ].
Qed.

(** X6 (bucketDetails): the vbucket numbers and the vbuuids that
    bucketDetails returns are parallel: one vbuuid for each vbucket. It
    asks the producer but changes nothing in the topic, and it neither
    opens a feed nor starts or ends a stream. *)
Theorem bucketDetails_parallel pooln bucketn s vbnos vbuuids s' :
  bucketDetails W pooln bucketn s = Done (inr (vbnos, vbuuids)) s' →
  length vbuuids = length vbnos ∧ feed s' = feed s ∧ emits no_stream_call s s'.
Proof.
  intros H. destruct (bucketDetails_run pooln bucketn s) as (r & s1 & Hrun & Hf & _ & He & Hl).
  rewrite Hrun in H. inversion H; subst. split; [by apply Hl|done].
Qed.

(** X7 (bucketFeed): a start on a branch that VerifyBranch does not
    accept is refused before anything is done upstream. With [start]
    set, when the details of the bucket do not verify the request
    timestamp, bucketFeed returns ErrorInvalidVbucketBranch in the state
    bucketDetails left: no feed is opened and no stream is ended or
    started, also when [stop] is set. *)
Theorem bucketFeed_unverified_branch opaque stop reqTs s vbnos vbuuids s' :
  bucketDetails W (GetPool reqTs) (GetBucket reqTs) s = Done (inr (vbnos, vbuuids)) s' →
  VerifyBranch W reqTs vbnos vbuuids = false →
  bucketFeed W opaque stop true reqTs s = Done (inl ErrorInvalidVbucketBranch) s' ∧
  feed s' = feed s ∧ emits no_stream_call s s'.
Proof.
  intros Hd Hv. split.
  - unfold bucketFeed, bindE. unfold bind at 1. rewrite Hd. by rewrite Hv.
  - destruct (bucketDetails_run (GetPool reqTs) (GetBucket reqTs) s)
      as (r & s1 & Hrun & Hf & _ & He & _).
    rewrite Hrun in Hd. by inversion Hd; subst.
Qed.

Lemma emits_weaken (Φ Ψ : call → Prop) s s' :
  (∀ c, Φ c → Ψ c) → emits Φ s s' → emits Ψ s s'.
Proof.
  intros Himp (calls & H & Hc). exists calls. split; [done|].
  eapply Forall_impl; eauto.
Qed.

Lemma emits_step (Φ Ψ : call → Prop) s s1 s' :
  (∀ c, Φ c → Ψ c) → emits Φ s s1 → emits Ψ s1 s' → emits Ψ s s'.
Proof. intros Himp H1 H2. etrans; [|exact H2]. by eapply emits_weaken. Qed.

Lemma no_stream_call_opens_no_feed c : no_stream_call c → opens_no_feed c.
Proof. by destruct c. Qed.

(** X8 (bucketFeed): a bucket that has a feeder keeps it. When the
    bucket of the timestamp is in [feeders], bucketFeed opens no feed,
    whatever [stop] and [start] are and however it ends, and the feeder
    it returns on success is the one registered. *)
Theorem bucketFeed_reuses_feeder opaque stop start_ reqTs s feeder :
  feeders (feed s) !! GetBucket reqTs = Some feeder →
  ∃ r s', bucketFeed W opaque stop start_ reqTs s = Done r s' ∧
          (∀ feeder', r = inr feeder' → feeder' = feeder) ∧
          feed s' = feed s ∧ emits opens_no_feed s s'.
Proof.
  intros Hf.
  destruct (bucketDetails_run (GetPool reqTs) (GetBucket reqTs) s)
    as (r & s1 & Hrun & Hfeed & _ & He & _).
  unfold bucketFeed, bindE. unfold bind at 1. rewrite Hrun.
  destruct r as [e|[vbnos vbuuids]].
  { eexists _, _. split; [reflexivity|]. split; [done|]. split; [done|].
    eapply emits_weaken; [apply no_stream_call_opens_no_feed | done]. }
  destruct (start_ && negb _) eqn:Hv.
  { eexists _, _. split; [reflexivity|]. split; [done|]. split; [done|].
    eapply emits_weaken; [apply no_stream_call_opens_no_feed | done]. }
  unfold mbind, M_bind, mret, M_ret, bind, ret, gets, extern. rewrite Hfeed, Hf.
  destruct stop, start_; cbn;
    repeat match goal with
           | |- context [match asE ?x with _ => _ end] => destruct x; cbn
           end;
    (eexists _, _; split; [reflexivity|]; cbn;
     split; [by intros ? [= <-] || done|]; split; [done|];
     eapply emits_step; [apply no_stream_call_opens_no_feed | exact He | cbn; emitted]).
Qed.

(** X9 (bucketDetails): an empty failover log is not reported. When
    the producer answers every call but the failover log of one of the
    hosted vbuckets is empty (or missing), bucketDetails returns no
    vbucket and no vbuuid, and no error. *)
Theorem bucketDetails_empty_failover_log pooln bucketn s bucket m flogs vbno :
  buckets (feed s) !! bucketn = None →
  (∀ n, w_ConnectBucket W n (cluster (feed s)) pooln bucketn = inr bucket) →
  (∀ n, w_Refresh W n bucket = None) →
  (∀ n, w_GetVBmap W n bucket (kvaddrs (feed s)) = inr m) →
  (∀ n, w_GetFailoverLogs W n bucket (concat m.*2) = inr flogs) →
  vbno ∈ concat m.*2 →
  default [] (flogs !! vbno) = [] →
  ∃ s', bucketDetails W pooln bucketn s = Done (inr ([], [])) s'.
Proof.
  intros Hb Hc Hr Hm Hf Hin Hempty.
  unfold bucketDetails, getBucket, bindE, mbind, M_bind, mret, M_ret, bind, ret, gets, extern.
  rewrite Hb, Hc. cbn. rewrite Hr. cbn. rewrite Hm. cbn. rewrite Hf.
  rewrite (latestVbuuids_None _ _ _ Hin Hempty). by eexists.
Qed.

(** *** The iterations of the control operations *)

Ltac fails_clean :=
  repeat first
    [ apply on_error_ret
    | apply on_error_then_nil
    | apply on_error_bindE;
      [ first [ apply bucketMaps_of_quiet, bucketFeed_keeps
              | apply (waitStreamEnds_keeps W) ] |]
    | apply on_error_bind;
      [ first [ apply respects_gets
              | apply bucketMaps_of_quiet, (startDataPath_keeps W)
              | apply bucketMaps_of_quiet, (updateTs_loop_keeps W)
              | apply waitStreamRequests_keeps
              | apply respects_forM; intros ?; apply bucketMaps_of_quiet, extern_keeps ] |]
    | apply on_error_bind_never; intros ? ? ? ?; discriminate
    | match goal with
      | |- ∀ _, _ => intro
      | |- on_error _ (match ?x with _ => _ end) => destruct x
      | |- on_error _ (let '(_, _) := ?x in _) => destruct x
      end ].

(** X10 (start, restartVbuckets, shutdownVbuckets, addBuckets,
    delBuckets): an iteration that fails writes nothing. When the
    iteration of one of the five operations for a bucket returns an
    error, whatever the error, the per-bucket maps (reqTss, rollTss,
    feeders, kvdata, engines) are as they were before the iteration: the
    operation stops there with the buckets of the earlier iterations
    done and this one untouched. *)
Theorem failed_iteration_keeps_maps opaque ts bucketn :
  on_error bucketMapsOf (start_body W opaque ts) ∧
  on_error bucketMapsOf (addBuckets_body W opaque ts) ∧
  on_error bucketMapsOf (restartVbuckets_body W opaque ts) ∧
  on_error bucketMapsOf (shutdownVbuckets_body W opaque ts) ∧
  on_error bucketMapsOf (delBuckets_body W opaque bucketn).
Proof.
  repeat split;
    unfold start_body, addBuckets_body, restartVbuckets_body, shutdownVbuckets_body,
      delBuckets_body, mbind, M_bind, mret, M_ret;
    fails_clean.
Qed.

(** X11 (restartVbuckets, shutdownVbuckets, delBuckets): a bucket that
    is not streaming is refused at once. When the first bucket of the
    request has no request timestamp (restart, shutdown) or no data path
    (restart, delBuckets), the operation returns ErrorInvalidBucket
    having read the clock for its opaque and done nothing else: no call
    to the producer, no wait, no change of the topic. *)
Theorem not_streaming_is_invalid_bucket ts tss bucketn bucketns s :
  let s' := mkSys (feed s) (sched s) (trace s ++ [CNow]) in
  (reqTss (feed s) !! GetBucket ts = None ∨ kvdata (feed s) !! GetBucket ts = None →
   restartVbuckets W (ts :: tss) s = Done (inl ErrorInvalidBucket) s') ∧
  (reqTss (feed s) !! GetBucket ts = None →
   shutdownVbuckets W (ts :: tss) s = Done (inl ErrorInvalidBucket) s') ∧
  (kvdata (feed s) !! bucketn = None →
   delBuckets W (bucketn :: bucketns) s = Done (inl ErrorInvalidBucket) s').
Proof.
  cbn zeta. repeat split.
  - intros H. unfold restartVbuckets, newOpaque, mbind, M_bind, mret, M_ret, bind, ret, extern.
    cbn. unfold bindE, restartVbuckets_body, mbind, M_bind, mret, M_ret, bind, ret, gets. cbn.
    destruct H as [-> | ->]; [done|]. by destruct (reqTss (feed s) !! GetBucket ts).
  - intros H. unfold shutdownVbuckets, newOpaque, mbind, M_bind, mret, M_ret, bind, ret, extern.
    cbn. unfold bindE, shutdownVbuckets_body, mbind, M_bind, mret, M_ret, bind, ret, gets. cbn.
    by rewrite H.
  - intros H. unfold delBuckets, newOpaque, mbind, M_bind, mret, M_ret, bind, ret, extern.
    cbn. unfold bindE, delBuckets_body, mbind, M_bind, mret, M_ret, bind, ret, gets. cbn.
    by rewrite H.
Qed.

Lemma bucketMaps_Done {A} (m : M Sys A) s a s' :
  respects (kept bucketMapsOf) m → m s = Done a s' →
  reqTss (feed s') = reqTss (feed s) ∧ rollTss (feed s') = rollTss (feed s) ∧
  feeders (feed s') = feeders (feed s) ∧ kvdata (feed s') = kvdata (feed s) ∧
  engines (feed s') = engines (feed s).
Proof.
  intros Hm H. pose proof (respects_Done _ _ _ _ _ Hm H) as Hk.
  unfold kept, bucketMapsOf in Hk. by injection Hk.
Qed.

(** X12 (shutdownVbuckets): an iteration of shutdownVbuckets that
    succeeds replaces the request timestamp of its bucket by what
    FilterByVbuckets leaves of it without the vbuckets shut down, and
    writes nothing else: the bucket keeps its feeder, its data paths, its
    rollback timestamp and its engines, also when no vbucket is left. *)
Theorem shutdownVbuckets_body_filters opaque shutTs s s' :
  shutdownVbuckets_body W opaque shutTs s = Done (inr tt) s' →
  ∃ reqTs, reqTss (feed s) !! GetBucket shutTs = Some reqTs ∧
    reqTss (feed s') =
      <[GetBucket shutTs := FilterByVbuckets W reqTs (Vbno32to16 (GetVbnos shutTs))]>
        (reqTss (feed s)) ∧
    rollTss (feed s') = rollTss (feed s) ∧ feeders (feed s') = feeders (feed s) ∧
    kvdata (feed s') = kvdata (feed s) ∧ engines (feed s') = engines (feed s).
Proof.
  unfold shutdownVbuckets_body, mbind, M_bind. intros H.
  apply bind_Done in H as (fd & s0 & H0 & H). inversion H0; subst fd s0.
  destruct (reqTss (feed s) !! GetBucket shutTs) as [reqTs|]; [|discriminate].
  exists reqTs. split; [done|].
  apply bindE_Done_inr in H as (? & s1 & H1 & H).
  apply bindE_Done_inr in H as (? & s2 & H2 & H).
  apply bind_Done in H as ([] & s3 & H3 & H). inversion H; subst s3.
  inversion H3; subst s'. cbn.
  apply (bucketMaps_Done _ _ _ _ (bucketMaps_of_quiet _ (bucketFeed_keeps W _ _ _ _)))
    in H1 as (R1 & L1 & F1 & K1 & E1).
  apply (bucketMaps_Done _ _ _ _ (waitStreamEnds_keeps W _ _ _))
    in H2 as (R2 & L2 & F2 & K2 & E2).
  repeat split; congruence.
Qed.

(** X13 (restartVbuckets): an iteration of restartVbuckets that
    succeeds stores the Union of the bucket's request timestamp and the
    restart timestamp, and as rollback timestamp the one its wait
    collected, whose pool is the pool of the restart timestamp; the
    feeder, the data paths and the engines are not written. *)
Theorem restartVbuckets_body_unions opaque restartTs s s' :
  restartVbuckets_body W opaque restartTs s = Done (inr tt) s' →
  ∃ reqTs rollTs, reqTss (feed s) !! GetBucket restartTs = Some reqTs ∧
    reqTss (feed s') = <[GetBucket restartTs := Union W reqTs restartTs]> (reqTss (feed s)) ∧
    rollTss (feed s') = <[GetBucket restartTs := rollTs]> (rollTss (feed s)) ∧
    Pool rollTs = GetPool restartTs ∧
    feeders (feed s') = feeders (feed s) ∧
    kvdata (feed s') = kvdata (feed s) ∧ engines (feed s') = engines (feed s).
Proof.
  unfold restartVbuckets_body, mbind, M_bind. intros H.
  apply bind_Done in H as (fd & s0 & H0 & H). inversion H0; subst fd s0.
  destruct (reqTss (feed s) !! GetBucket restartTs) as [reqTs|]; [|discriminate].
  destruct (kvdata (feed s) !! GetBucket restartTs) as [kvdata_|]; [|discriminate].
  apply bindE_Done_inr in H as (? & s1 & H1 & H).
  apply bindE_Done_inr in H as (? & s2 & H2 & H).
  apply bind_Done in H as (ka & s3 & H3 & H). inversion H3; subst ka s3.
  apply bind_Done in H as (? & s4 & H4 & H).
  apply bindE_Done_inr in H as (? & s5 & H5 & H).
  apply bind_Done in H as ([rollTs err] & s6 & H6 & H).
  destruct err as [e|]; [discriminate|].
  apply bind_Done in H as ([] & s7 & H7 & H).
  apply bind_Done in H as ([] & s8 & H8 & H).
  inversion H; subst s8. inversion H8; subst s'. inversion H7; subst s7. cbn.
  exists reqTs, rollTs. split; [done|].
  pose proof (waitStreamRequests_pool _ _ _ _ _ _ _ _ _ H6) as Hpool.
  apply (bucketMaps_Done _ _ _ _ (bucketMaps_of_quiet _ (bucketFeed_keeps W _ _ _ _)))
    in H1 as (R1 & L1 & F1 & K1 & E1).
  apply (bucketMaps_Done _ _ _ _ (waitStreamEnds_keeps W _ _ _))
    in H2 as (R2 & L2 & F2 & K2 & E2).
  apply (bucketMaps_Done _ _ _ _ (bucketMaps_of_quiet _ (updateTs_loop_keeps W _ _ _)))
    in H4 as (R4 & L4 & F4 & K4 & E4).
  apply (bucketMaps_Done _ _ _ _ (bucketMaps_of_quiet _ (bucketFeed_keeps W _ _ _ _)))
    in H5 as (R5 & L5 & F5 & K5 & E5).
  apply (bucketMaps_Done _ _ _ _ (waitStreamRequests_keeps W _ _ _ _))
    in H6 as (R6 & L6 & F6 & K6 & E6).
  repeat split; congruence.
Qed.

(** *** delInstances and the response to the caller *)

Lemma InstanceIds_elem fd uuid :
  uuid ∈ Actor.InstanceIds (Actor.topicResponse fd) ↔
  ∃ bucketn, is_Some (engineAt bucketn uuid fd).
Proof.
  unfold Actor.topicResponse, engineAt. simpl.
  rewrite list_elem_of_In, in_concat. split.
  - intros (l & Hl & Hin). apply list_elem_of_In in Hl, Hin.
    apply list_elem_of_fmap in Hl as ([b m] & -> & Hbm). simpl in Hin.
    apply elem_of_map_to_list in Hbm.
    apply list_elem_of_fmap in Hin as ([u en] & -> & Hu).
    apply elem_of_map_to_list in Hu. exists b. rewrite Hbm. simpl. by rewrite Hu.
  - intros (b & en & Hen).
    destruct (engines fd !! b) as [m|] eqn:Hb; [|done]. simpl in Hen.
    exists ((map_to_list m).*1). split; apply list_elem_of_In.
    + apply (list_elem_of_fmap_2 (λ p, (map_to_list p.2).*1) _ (b, m)).
      by apply elem_of_map_to_list.
    + apply (list_elem_of_fmap_2 fst _ (uuid, en)). by apply elem_of_map_to_list.
Qed.

Lemma forM_Done_feed {A} (body : A → M Sys unit) xs :
  (∀ x s, ∃ s', body x s = Done tt s' ∧ feed s' = feed s) →
  ∀ s, ∃ s', forM body xs s = Done tt s' ∧ feed s' = feed s.
Proof.
  intros Hb. induction xs as [|x xs IH]; intros s; simpl.
  - by eexists.
  - destruct (Hb x s) as (s1 & H1 & Hf1). unfold bind. rewrite H1.
    destruct (IH s1) as (s2 & H2 & Hf2). exists s2. split; [done|]. congruence.
Qed.

(** X14 (delInstances, topicResponse): delInstances always returns nil
    and removes exactly the engines whose instance is named: under every
    bucket an engine is gone if its uuid is among the ids and is as
    before otherwise; a bucket whose engines are all removed stays as a
    key of [engines]. The instance ids of the topic response afterwards
    are those from before that are not named. The upstream maps are not
    touched. *)
Theorem delInstances_partition instanceIds s :
  ∃ s', delInstances instanceIds s = Done (inr tt) s' ∧
    dom (engines (feed s')) = dom (engines (feed s)) ∧
    (∀ bucketn uuid,
       engineAt bucketn uuid (feed s') =
       if decide (uuid ∈ instanceIds) then None else engineAt bucketn uuid (feed s)) ∧
    (∀ uuid, uuid ∈ Actor.InstanceIds (Actor.topicResponse (feed s')) ↔
             uuid ∈ Actor.InstanceIds (Actor.topicResponse (feed s)) ∧ uuid ∉ instanceIds) ∧
    upstreamOf s' = upstreamOf s.
Proof.
  setoid_rewrite InstanceIds_elem.
  unfold delInstances, mbind, M_bind, mret, M_ret. unfold bind at 1, gets.
  match goal with
  | |- context [bind (forM ?body ?xs) _ _] =>
      destruct (forM_Done_feed body xs) with (s := s) as (s1 & H1 & Hf1)
  end.
  { intros p s0. apply forM_Done_feed. intros kv s2. by eexists. }
  unfold bind at 1. rewrite H1. cbn.
  eexists. split; [reflexivity|].
  assert (∀ bucketn uuid,
    (((λ engines_ : gmap Z Engine,
         filter (λ p, HasUint64 p.1 instanceIds = false) engines_) <$> engines (feed s))
       !! bucketn) ≫= (.!! uuid) =
    if decide (uuid ∈ instanceIds) then None else engineAt bucketn uuid (feed s)) as Hat.
  { intros bucketn uuid. unfold engineAt. rewrite lookup_fmap.
    destruct (engines (feed s) !! bucketn) as [m|]; simpl; [|by destruct (decide _)].
    unfold HasUint64. destruct (decide (uuid ∈ instanceIds)) as [Hin|Hin].
    - apply map_lookup_filter_None. right. intros en _. simpl.
      by rewrite bool_decide_eq_true_2.
    - destruct (m !! uuid) as [en|] eqn:Hu.
      + apply map_lookup_filter_Some. split; [done|]. simpl.
        by rewrite bool_decide_eq_false_2.
      + apply map_lookup_filter_None. by left. }
  split; [cbn; by rewrite dom_fmap_L|]. split; [exact Hat|]. split.
  - intros uuid. unfold engineAt at 1. cbn. split.
    + intros (b & Hb). rewrite Hat in Hb. destruct (decide (uuid ∈ instanceIds)).
      * by destruct Hb.
      * split; [by exists b | done].
    + intros [(b & Hb) Hnot]. exists b. rewrite Hat. by rewrite decide_False.
  - unfold upstreamOf. cbn. by rewrite Hf1.
Qed.

(** *** What no control operation writes *)

Lemma waitOnFeedback_fixed {C} (callb : iface → C → string * C) (c : C) :
  respects (kept fixedOf) (waitOnFeedback callb c).
Proof. intros s. unfold waitOnFeedback. by destruct (feedbackLoop _ _ _ _ _). Qed.

Ltac fixed :=
  repeat first [ solve [intros ?; reflexivity]
               | solve [auto]
               | apply waitOnFeedback_fixed
               | respects_step ].

Lemma startDataPath_loop_fixed bucketn reqTs ka m :
  respects (kept fixedOf) (startDataPath_loop bucketn reqTs ka m).
Proof. revert m. induction ka as [|kvaddr ka IH]; intros m; simpl; fixed. Qed.

Lemma updateTs_loop_fixed kvdata_ restartTs ka :
  respects (kept fixedOf) (updateTs_loop kvdata_ restartTs ka).
Proof. induction ka as [|kvaddr ka IH]; simpl; fixed. Qed.

Lemma handleCommand_fixed cmd : respects (kept fixedOf) (handleCommand W cmd).
Proof.
  destruct cmd; simpl;
    unfold start, restartVbuckets, shutdownVbuckets, addBuckets, delBuckets,
      addInstances, delInstances, repairEndpoints, processSubscribers, startEndpoints,
      ensureEndpoint,
      start_body, restartVbuckets_body, shutdownVbuckets_body, addBuckets_body,
      delBuckets_body, subscribers, newOpaque, installEngine, installBucket,
      forgetBucket, postAddEngines, bucketFeed, bucketDetails, getBucket,
      startDataPath, waitStreamRequests, waitStreamEnds;
    repeat first [ solve [intros ?; reflexivity]
                 | apply waitOnFeedback_fixed
                 | apply startDataPath_loop_fixed
                 | apply updateTs_loop_fixed
                 | respects_step ].
Qed.

End More.

Lemma subscribers_same_uuids_witness :
  freshSys [] = freshSys [] ∧
  GetEvaluators (oneSubscriber 42 "b1" "ep1") = inr [(42, mkEvaluator "b1")] ∧
  GetRouters (oneSubscriber 42 "b1" "ep1") = inr [(42, mkRouter ["ep1"%string])] ∧
  [(42, mkEvaluator "b1")].*1 ≡ₚ [(42, mkRouter ["ep1"%string])].*1.
Proof.
  apply (subscribers_same_uuids (oneSubscriber 42 "b1" "ep1") (freshSys [])).
  - reflexivity.
  - apply NoDup_singleton.
Defined.

Lemma processSubscribers_error_installs_nothing_witness :
  bucketMapsOf (stateOf (processSubscribers W0 noRouter (freshSys []))) =
  bucketMapsOf (freshSys []).
Proof.
  apply (processSubscribers_error_installs_nothing W0 noRouter (freshSys [])
           ErrorInconsistentFeed).
  reflexivity.
Defined.

Lemma processSubscribers_installs_witness :
  (∀ uuid ev, (uuid, ev) ∈ [(42, mkEvaluator "b1")] →
     ∃ routers router,
       GetRouters (oneSubscriber 42 "b1" "ep1") = inr routers ∧ (uuid, router) ∈ routers ∧
       engineAt (ev_Bucket ev) uuid
         (feed (stateOf (processSubscribers W0 (oneSubscriber 42 "b1" "ep1") (freshSys [])))) =
       Some (NewEngine uuid ev (Some router))) ∧
  (∀ bucketn uuid,
     (∀ ev, (uuid, ev) ∈ [(42, mkEvaluator "b1")] → ev_Bucket ev ≠ bucketn) →
     engineAt bucketn uuid
       (feed (stateOf (processSubscribers W0 (oneSubscriber 42 "b1" "ep1") (freshSys [])))) =
     engineAt bucketn uuid (feed (freshSys []))).
Proof.
  apply (processSubscribers_installs W0 (oneSubscriber 42 "b1" "ep1") (freshSys [])).
  - vm_compute. reflexivity.
  - reflexivity.
  - apply NoDup_singleton.
Defined.

Lemma live_endpoint_is_kept_witness :
  endpoints (feed (stateOf (handleCommand W0 (fCmdRepairEndpoints ["ep1"%string])
                              (streaming_b1 [])))) !! "ep1" = Some 3%nat.
Proof.
  apply (live_endpoint_is_kept W0 (fCmdRepairEndpoints ["ep1"%string]) "ep1" 3%nat
           (streaming_b1 [])).
  - intros n. reflexivity.
  - vm_compute. reflexivity.
Defined.

Lemma bucketDetails_parallel_witness :
  length [10; 11; 12] = length [0; 1; 2] ∧
  feed (stateOf (bucketDetails W0 "default" "b1" (freshSys []))) = feed (freshSys []) ∧
  emits no_stream_call (freshSys [])
    (stateOf (bucketDetails W0 "default" "b1" (freshSys []))).
Proof.
  apply (bucketDetails_parallel W0 "default" "b1" (freshSys [])).
  vm_compute. reflexivity.
Defined.

Lemma bucketFeed_unverified_branch_witness :
  bucketFeed Wunverified 0 true true ts_b1 (freshSys []) =
    Done (inl ErrorInvalidVbucketBranch)
         (stateOf (bucketDetails Wunverified "default" "b1" (freshSys []))) ∧
  feed (stateOf (bucketDetails Wunverified "default" "b1" (freshSys []))) = feed (freshSys []) ∧
  emits no_stream_call (freshSys [])
    (stateOf (bucketDetails Wunverified "default" "b1" (freshSys []))).
Proof.
  apply (bucketFeed_unverified_branch Wunverified 0 true ts_b1 (freshSys [])
           [0; 1; 2] [10; 11; 12]).
  - vm_compute. reflexivity.
  - reflexivity.
Defined.

Lemma bucketFeed_reuses_feeder_witness :
  ∃ r s', bucketFeed W0 0 true false ts_b1 (streaming_b1 []) = Done r s' ∧
          (∀ feeder', r = inr feeder' → feeder' = 7%nat) ∧
          feed s' = feed (streaming_b1 []) ∧ emits opens_no_feed (streaming_b1 []) s'.
Proof.
  apply (bucketFeed_reuses_feeder W0 0 true false ts_b1 (streaming_b1 []) 7%nat).
  vm_compute. reflexivity.
Defined.

Lemma bucketDetails_empty_failover_log_witness :
  ∃ s', bucketDetails Wnolog "default" "b1" (freshSys []) = Done (inr ([], [])) s'.
Proof.
  apply (bucketDetails_empty_failover_log Wnolog "default" "b1" (freshSys []) 1%nat
           [("kv1"%string, [0; 1; 2])] flogs_without_2 2).
  - reflexivity.
  - intros n. reflexivity.
  - intros n. reflexivity.
  - intros n. reflexivity.
  - intros n. reflexivity.
  - compute_done.
  - vm_compute. reflexivity.
Defined.

Lemma failed_iteration_keeps_maps_witness :
  bucketMapsOf (stateOf (start_body W0 0 ts_b1 (freshSys twoOfThree))) =
  bucketMapsOf (freshSys twoOfThree).
Proof.
  apply (proj1 (failed_iteration_keeps_maps W0 0 ts_b1 "b1") (freshSys twoOfThree)
           ErrorResponseTimeout).
  vm_compute. reflexivity.
Defined.

Lemma not_streaming_is_invalid_bucket_witness :
  let s' := mkSys (feed (freshSys [])) [] [CNow] in
  restartVbuckets W0 [ts_b1] (freshSys []) = Done (inl ErrorInvalidBucket) s' ∧
  shutdownVbuckets W0 [ts_b1] (freshSys []) = Done (inl ErrorInvalidBucket) s' ∧
  delBuckets W0 ["b1"%string] (freshSys []) = Done (inl ErrorInvalidBucket) s'.
Proof.
  destruct (not_streaming_is_invalid_bucket W0 ts_b1 [] "b1" [] (freshSys []))
    as (H1 & H2 & H3).
  split; [|split].
  - apply H1. left. reflexivity.
  - apply H2. reflexivity.
  - apply H3. reflexivity.
Defined.

Lemma shutdownVbuckets_body_filters_witness :
  ∃ reqTs, reqTss (feed (streaming_b1 allEnded)) !! GetBucket ts_b1 = Some reqTs ∧
    reqTss (feed (stateOf (shutdownVbuckets_body W0 0 ts_b1 (streaming_b1 allEnded)))) =
      <[GetBucket ts_b1 := FilterByVbuckets W0 reqTs (Vbno32to16 (GetVbnos ts_b1))]>
        (reqTss (feed (streaming_b1 allEnded))) ∧
    rollTss (feed (stateOf (shutdownVbuckets_body W0 0 ts_b1 (streaming_b1 allEnded)))) =
      rollTss (feed (streaming_b1 allEnded)) ∧
    feeders (feed (stateOf (shutdownVbuckets_body W0 0 ts_b1 (streaming_b1 allEnded)))) =
      feeders (feed (streaming_b1 allEnded)) ∧
    kvdata (feed (stateOf (shutdownVbuckets_body W0 0 ts_b1 (streaming_b1 allEnded)))) =
      kvdata (feed (streaming_b1 allEnded)) ∧
    engines (feed (stateOf (shutdownVbuckets_body W0 0 ts_b1 (streaming_b1 allEnded)))) =
      engines (feed (streaming_b1 allEnded)).
Proof.
  apply (shutdownVbuckets_body_filters W0 0 ts_b1 (streaming_b1 allEnded)).
  vm_compute. reflexivity.
Defined.

Lemma restartVbuckets_body_unions_witness :
  ∃ reqTs rollTs,
    reqTss (feed (streaming_b1 (allEnded ++ allStarted))) !! GetBucket ts_b1 = Some reqTs ∧
    reqTss (feed (stateOf (restartVbuckets_body W0 0 ts_b1
                             (streaming_b1 (allEnded ++ allStarted))))) =
      <[GetBucket ts_b1 := Union W0 reqTs ts_b1]>
        (reqTss (feed (streaming_b1 (allEnded ++ allStarted)))) ∧
    rollTss (feed (stateOf (restartVbuckets_body W0 0 ts_b1
                              (streaming_b1 (allEnded ++ allStarted))))) =
      <[GetBucket ts_b1 := rollTs]> (rollTss (feed (streaming_b1 (allEnded ++ allStarted)))) ∧
    Pool rollTs = GetPool ts_b1 ∧
    feeders (feed (stateOf (restartVbuckets_body W0 0 ts_b1
                              (streaming_b1 (allEnded ++ allStarted))))) =
      feeders (feed (streaming_b1 (allEnded ++ allStarted))) ∧
    kvdata (feed (stateOf (restartVbuckets_body W0 0 ts_b1
                             (streaming_b1 (allEnded ++ allStarted))))) =
      kvdata (feed (streaming_b1 (allEnded ++ allStarted))) ∧
    engines (feed (stateOf (restartVbuckets_body W0 0 ts_b1
                              (streaming_b1 (allEnded ++ allStarted))))) =
      engines (feed (streaming_b1 (allEnded ++ allStarted))).
Proof.
  apply (restartVbuckets_body_unions W0 0 ts_b1 (streaming_b1 (allEnded ++ allStarted))).
  vm_compute. reflexivity.
Defined.

End ProjectorMore.

(** ** The actor of a topic *)

Section NeverBlocks.
Context {S : Type}.








End NeverBlocks.

Module ActorFacts.
Import Projector ProjectorSpec ProjectorFacts ProjectorMoreSpec ProjectorMore.
Import Actor ActorSpec.






Section Facts.
Context (W : World).


(** *** shutdown *)

Lemma closes_loop {A} (c : A → closing) xs :
  ∀ a, forM (λ x, closes (c x)) xs a =
       Done tt (mkActor (sys a) (closed a ++ (c <$> xs)) (finch a)).
Proof.
  induction xs as [|x xs IH]; intros a; simpl.
  - rewrite app_nil_r. by destruct a.
  - unfold bind, closes at 1, modify. rewrite IH. cbn. by rewrite <- app_assoc.
Qed.

Lemma closes_loops {A B} (c : B → closing) (f : A → list B) xss :
  ∀ a, forM (λ xs, forM (λ x, closes (c x)) (f xs)) xss a =
       Done tt (mkActor (sys a) (closed a ++ (c <$> concat (f <$> xss))) (finch a)).
Proof.
  induction xss as [|xs xss IH]; intros a; simpl.
  - rewrite app_nil_r. by destruct a.
  - unfold bind. rewrite closes_loop, IH. cbn. by rewrite fmap_app, <- app_assoc.
Qed.

Lemma shutdown_run a :
  shutdown a =
  Done None (mkActor (sys a)
               (closed a ++ closings (feed (sys a)) ++ if finch a then [] else [CloseFinch])
               true).
Proof.
  unfold shutdown, mbind, M_bind. unfold bind at 1. rewrite closes_loop.
  unfold bind at 1. rewrite closes_loops. unfold bind at 1. rewrite closes_loop.
  unfold closeFinch, closings. cbn.
  destruct (finch a) eqn:Hf; cbn; f_equal; f_equal;
    by rewrite <- ?app_assoc, ?app_nil_r.
Qed.

(** X15 (genServer, handleCommand, shutdown): a shutdown request closes
    what the topic holds open, in this order: the feeders, the data paths
    of every bucket, the endpoints, and then [finch] (unless it is
    closed already, which shutdown survives). The request is answered
    with nil, the loop of the actor ends, and the requests that follow
    are not served. The maps of the topic are left as they are. *)
Theorem shutdown_request_closes_all rest a :
  genServer W (ReqShutdown :: rest) a =
  Done [RespShutdown None]
       (mkActor (sys a)
          (closed a ++ closings (feed (sys a)) ++ if finch a then [] else [CloseFinch])
          true).
Proof.
  unfold genServer. simpl. unfold mbind, M_bind, mret, M_ret. unfold bind at 1.
  unfold bind at 1. by rewrite shutdown_run.
Qed.

(** *** The loop of the actor *)




(** *** What holds of every state of the actor *)

#[local] Instance on_sys_preorder (R : relation Sys) `{!PreOrder R} : PreOrder (on_sys R).
Proof.
  split.
  - intros a. unfold on_sys. reflexivity.
  - intros a1 a2 a3 H1 H2. unfold on_sys in *. by etrans.
Qed.

Section OnSys.
Context (R : relation Sys) `{!PreOrder R}.

Lemma lift_respects {A} (m : M Sys A) : respects R m → respects (on_sys R) (lift m).
Proof. intros Hm a. unfold lift. specialize (Hm (sys a)). by destruct (m (sys a)). Qed.

Lemma shutdown_respects : respects (on_sys R) shutdown.
Proof. intros a. rewrite shutdown_run. unfold on_sys. cbn. reflexivity. Qed.

Lemma handleCommand_respects msg :
  (∀ cmd, respects R (Projector.handleCommand W cmd)) →
  respects (on_sys R) (handleCommand W msg).
Proof.
  intros Hcmd. destruct msg as [cmd| |]; simpl.
  - repeat first [ apply lift_respects, Hcmd | respects_step ].
  - repeat respects_step.
  - repeat first [ apply shutdown_respects | respects_step ].
Qed.

Lemma genServer_loop_respects msgs :
  (∀ cmd, respects R (Projector.handleCommand W cmd)) →
  ∀ sent, respects (on_sys R) (genServer_loop W msgs sent).
Proof.
  intros Hcmd. induction msgs as [|msg msgs IH]; intros sent; simpl.
  - repeat respects_step.
  - repeat first [ apply handleCommand_respects, Hcmd | apply IH | respects_step ].
Qed.

Lemma genServer_respects msgs :
  (∀ cmd, respects R (Projector.handleCommand W cmd)) →
  respects (on_sys R) (genServer W msgs).
Proof.
  intros Hcmd a. unfold genServer.
  pose proof (genServer_loop_respects msgs Hcmd [] a) as H.
  destruct (genServer_loop W msgs [] a) as [sent a'|a'|a']; [done| |done].
  rewrite shutdown_run. exact H.
Qed.

End OnSys.

(** X17 (NewFeed, genServer): what holds of a topic all its life. From
    a topic made by NewFeed, whatever requests the actor serves and
    whatever is posted on its back-channel, also after a panic it
    recovered from and after shutdown: feeders, reqTss and kvdata have
    the same buckets as keys; the cluster, the topic name and the nodes
    are those it was made with; and [buckets] is empty, that is, no
    connection to a bucket is ever kept for the next call. *)
Theorem topic_invariant cluster_ topic_ kvaddrs_ evs msgs :
  let fd := feed (sys (stateOf (genServer W msgs (newActor cluster_ topic_ kvaddrs_ evs)))) in
  upstream_keys_agree fd ∧
  cluster fd = cluster_ ∧ topic fd = topic_ ∧ kvaddrs fd = kvaddrs_ ∧ buckets fd = ∅.
Proof.
  cbn zeta. set (a := newActor cluster_ topic_ kvaddrs_ evs).
  pose proof (genServer_respects (preserved aligned) msgs (handleCommand_aligned W) a) as Ha.
  pose proof (genServer_respects (kept fixedOf) msgs (handleCommand_fixed W) a) as Hf.
  destruct (genServer W msgs a) as [sent a'|a'|a']; simpl;
    (split; [by apply Ha|]); unfold on_sys, kept, fixedOf in Hf; by injection Hf.
Qed.

End Facts.


End ActorFacts.

(** ** The stream manager: streams, the bootstrap and the listener *)

Module ManagerMore.
Import Manager ManagerSpec ManagerMoreSpec Listener.

Ltac books_step := ProjectorFacts.respects_step.

Create HintDb books discriminated.

Ltac books := repeat first [ solve [auto with books] | books_step ].

Lemma unlock_lock m : mutex m = false → set_mutex false (set_mutex true m) = m.
Proof. destruct m. cbn. by intros ->. Qed.

Lemma mgr_extern_keeps {A} (c : call) (answer : nat → A) :
  respects (kept booksOf) (extern c answer).
Proof. by intros s. Qed.

Lemma newDefnVar_keeps : respects (kept booksOf) newDefnVar.
Proof. by intros s. Qed.

Lemma newInstVar_keeps : respects (kept booksOf) newInstVar.
Proof. by intros s. Qed.

Lemma storeDefn_keeps p d : respects (kept booksOf) (storeDefn p d).
Proof. by intros s. Qed.

Lemma storeInst_keeps p i : respects (kept booksOf) (storeInst p i).
Proof. by intros s. Qed.

Lemma loadDefn_keeps p : respects (kept booksOf) (loadDefn p).
Proof. intros s. unfold loadDefn. by destruct (defnVars s !! p). Qed.

Lemma loadInst_keeps p : respects (kept booksOf) (loadInst p).
Proof. intros s. unfold loadInst. by destruct (instVars s !! p). Qed.

(** Taking and releasing the mutex is not seen in the books. *)
Lemma locked_keeps {A} (body : M Sys A) :
  respects (kept booksOf) body → respects (kept booksOf) (locked body).
Proof.
  intros Hb s. unfold locked. destruct (mutex (mgr s)); [done|].
  match goal with |- context [body ?s0] => specialize (Hb s0) end.
  destruct (body _); exact Hb.
Qed.

#[local] Hint Resolve mgr_extern_keeps newDefnVar_keeps newInstVar_keeps storeDefn_keeps
  storeInst_keeps loadDefn_keeps loadInst_keeps : books.

Section More.
Context (W : World).

Lemma getAddrForPort_keeps port : respects (kept booksOf) (getAddrForPort W port).
Proof. unfold getAddrForPort. books. Qed.

Lemma getBucketWithIndexes_keeps : respects (kept booksOf) (getBucketWithIndexes W).
Proof. unfold getBucketWithIndexes. books. Qed.

Hint Resolve getAddrForPort_keeps getBucketWithIndexes_keeps : books.

Lemma AddIndexForBuckets_loop_keeps streamId buckets :
  ∀ allInstances,
  respects (kept booksOf) (AddIndexForBuckets_loop W streamId buckets allInstances).
Proof.
  induction buckets as [|bucket buckets IH]; intros allInstances; cbn [AddIndexForBuckets_loop];
    books.
Qed.

Hint Resolve AddIndexForBuckets_loop_keeps : books.

Lemma AddIndexForBuckets_keeps streamId buckets :
  respects (kept booksOf) (AddIndexForBuckets W streamId buckets).
Proof. unfold AddIndexForBuckets. apply locked_keeps. books. Qed.

Lemma DeleteIndexForBuckets_keeps streamId buckets :
  respects (kept booksOf) (DeleteIndexForBuckets W streamId buckets).
Proof. unfold DeleteIndexForBuckets. apply locked_keeps. books. Qed.

Lemma addIndexInstances_keeps streamId bucket instances :
  respects (kept booksOf) (addIndexInstances W streamId bucket instances).
Proof. unfold addIndexInstances. apply locked_keeps. books. Qed.

Lemma removeIndexInstances_keeps streamId bucket instances :
  respects (kept booksOf) (removeIndexInstances W streamId bucket instances).
Proof. unfold removeIndexInstances. apply locked_keeps. books. Qed.

Hint Resolve AddIndexForBuckets_keeps DeleteIndexForBuckets_keeps addIndexInstances_keeps
  removeIndexInstances_keeps : books.

Lemma addInstancesToChangeList_loop_keeps oldDefn newDefn newInstVar_ fromStates toStates insts :
  ∀ changes,
  respects (kept booksOf)
    (addInstancesToChangeList_loop oldDefn newDefn newInstVar_ fromStates toStates
                                   insts changes).
Proof.
  induction insts as [|elem insts IH]; intros changes;
    cbn [addInstancesToChangeList_loop]; books.
Qed.

Hint Resolve addInstancesToChangeList_loop_keeps : books.

Lemma addInstancesToChangeList_keeps oldDefn newDefn fromStates toStates :
  respects (kept booksOf) (addInstancesToChangeList oldDefn newDefn fromStates toStates).
Proof. unfold addInstancesToChangeList. books. Qed.

Hint Resolve addInstancesToChangeList_keeps : books.

Lemma collectChanges_keeps findOld newDefnVar_ fromState toState defns :
  ∀ changes,
  respects (kept booksOf) (collectChanges findOld newDefnVar_ fromState toState defns changes).
Proof.
  induction defns as [|elem defns IH]; intros changes; cbn [collectChanges]; books.
Qed.

Lemma instanceIds_keeps changes :
  ∀ toBeDeleted, respects (kept booksOf) (instanceIds changes toBeDeleted).
Proof.
  induction changes as [|change changes IH]; intros toBeDeleted; cbn [instanceIds]; books.
Qed.

Hint Resolve collectChanges_keeps instanceIds_keeps : books.

Lemma handleAddInstances_keeps streamId bucket oldTopology newTopology fromState toState :
  respects (kept booksOf)
    (handleAddInstances W streamId bucket oldTopology newTopology fromState toState).
Proof. unfold handleAddInstances. books. Qed.

Lemma handleDeleteInstances_keeps streamId bucket oldTopology newTopology fromState toState :
  respects (kept booksOf)
    (handleDeleteInstances W streamId bucket oldTopology newTopology fromState toState).
Proof. unfold handleDeleteInstances. books. Qed.

Hint Resolve handleAddInstances_keeps handleDeleteInstances_keeps : books.

Lemma handleTopologyChangeForMaintStream_keeps newTopology :
  respects (kept booksOf) (handleTopologyChangeForMaintStream W newTopology).
Proof. unfold handleTopologyChangeForMaintStream. books. Qed.

Lemma handleTopologyChangeForInitStream_keeps newTopology :
  respects (kept booksOf) (handleTopologyChangeForInitStream W newTopology).
Proof. unfold handleTopologyChangeForInitStream. books. Qed.


(** *** Streams *)

Lemma run_locked {A} (body : M Sys A) s :
  mutex (mgr s) = false →
  locked body s =
  match body (mkSys (set_mutex true (mgr s)) (defnVars s) (instVars s) (trace s)) with
  | Done a s' => Done a (mkSys (set_mutex false (mgr s')) (defnVars s') (instVars s') (trace s'))
  | Crashed s' =>
      Crashed (mkSys (set_mutex false (mgr s')) (defnVars s') (instVars s') (trace s'))
  | Blocked s' => Blocked s'
  end.
Proof. intros Hm. unfold locked. by rewrite Hm. Qed.

Ltac run_mgr :=
  unfold mbind, M_bind, mret, M_ret, bindE, bind, ret, gets, upd, modify, extern, asE; cbn.

(** StartStream on a stream that is not open, step by step. *)
Lemma StartStream_run streamId s :
  callable s → isOpen (streams (mgr s) !! streamId) = false →
  StartStream W streamId s =
  let port := getPortForStreamId W streamId in
  let n := length (trace s) in
  match w_newStream W n streamId port with
  | Some e =>
      Done (inl e) (mkSys (mgr s) (defnVars s) (instVars s)
                          (trace s ++ [CNewStream streamId port]))
  | None =>
      match w_streamStart W (S n) streamId with
      | Some e =>
          Done (inl e) (mkSys (mgr s) (defnVars s) (instVars s)
                              (trace s ++ [CNewStream streamId port; CStreamStart streamId]))
      | None =>
          Done (inr tt)
               (mkSys (set_streams (insert streamId (mkStream streamId true)) (mgr s))
                      (defnVars s) (instVars s)
                      (trace s ++ [CNewStream streamId port; CStreamStart streamId]))
      end
  end.
Proof.
  intros [Hc Hm] Ho. unfold StartStream. rewrite run_locked by done.
  destruct s as [[ss ts mo mu cl st] dv iv tr]. cbn in *. subst. run_mgr. rewrite Ho. cbn.
  destruct (w_newStream _ _ _ _); cbn; [done|].
  rewrite length_app, Nat.add_1_r. cbn.
  destruct (w_streamStart _ _ _); cbn; by rewrite <- ?app_assoc.
Qed.

Lemma StartStream_open streamId s :
  callable s → isOpen (streams (mgr s) !! streamId) = true →
  StartStream W streamId s = Done (inr tt) s.
Proof.
  intros [Hc Hm] Ho. unfold StartStream. rewrite run_locked by done.
  destruct s as [[ss ts mo mu cl st] dv iv tr]. cbn in *. subst. run_mgr. by rewrite Ho.
Qed.

(** X18 (StartStream): starting a stream twice is starting it once, and
    a start that fails registers nothing. On a manager that is not
    closed, when StartStream returns nil the stream is registered as open
    and a further StartStream returns nil without a call and without a
    change; when StartStream returns an error, the manager is as
    before: the stream made by newStream is not registered (and not
    closed either). *)
Theorem StartStream_twice (streamId : StreamId) (s s1 : Sys) (r : error + unit) :
  callable s →
  StartStream W streamId s = Done r s1 →
  match r with
  | inr _ => isOpen (streams (mgr s1) !! streamId) = true ∧
             StartStream W streamId s1 = Done (inr tt) s1
  | inl _ => mgr s1 = mgr s
  end.
Proof.
  intros Hs. destruct (isOpen (streams (mgr s) !! streamId)) eqn:Ho.
  - rewrite StartStream_open by done. intros [= <- <-].
    split; [done | by apply StartStream_open].
  - rewrite StartStream_run by done. cbn zeta.
    destruct (w_newStream _ _ _ _); [by intros [= <- <-]|].
    destruct (w_streamStart _ _ _); intros [= <- <-]; [done|].
    assert (isOpen (streams (set_streams (insert streamId (mkStream streamId true)) (mgr s))
                      !! streamId) = true) as Ho'
      by (cbn; by rewrite lookup_insert_eq).
    split; [exact Ho'|]. apply StartStream_open; [|exact Ho'].
    destruct Hs as [Hc Hm]. split; cbn; done.
Qed.

(** X19 (StartStream, CloseStream, closeStreamNoLock): round trip. On a
    manager that is not closed, a stream that is not open, once started
    with success and then closed, is no key of [streams], and nothing
    else of the manager has changed; the calls made are newStream, the
    start of the stream and the stop of the timers of the stream, and
    Close is not called on the stream. *)
Theorem StartStream_CloseStream (streamId : StreamId) (s s1 : Sys) :
  callable s →
  isOpen (streams (mgr s) !! streamId) = false →
  StartStream W streamId s = Done (inr tt) s1 →
  CloseStream streamId s1 =
  Done (inr tt)
    (mkSys (set_streams (delete streamId) (mgr s)) (defnVars s) (instVars s)
           (trace s ++ [CNewStream streamId (getPortForStreamId W streamId);
                        CStreamStart streamId; CTimerStopForStream streamId])).
Proof.
  intros Hs Ho. rewrite StartStream_run by done. cbn zeta.
  destruct (w_newStream _ _ _ _); [done|].
  destruct (w_streamStart _ _ _); intros [= <-].
  destruct Hs as [Hc Hm]. unfold CloseStream, closeStreamNoLock. rewrite run_locked by done.
  destruct s as [[ss ts mo mu cl st] dv iv tr]. cbn in *. subst. run_mgr.
  rewrite lookup_insert_eq. cbn. unfold set_mutex, set_streams. cbn.
  by rewrite delete_insert_eq, <- app_assoc.
Qed.

(** X20 (AddIndexForAllBuckets, AddIndexForBuckets): on a manager that
    is not closed AddIndexForAllBuckets does not return. It takes the
    mutex, asks for the global topology, and calls AddIndexForBuckets,
    which takes the mutex again: the goroutine waits for the lock it
    holds, whatever the repository answers, and no stream is sent an
    index. *)
Theorem AddIndexForAllBuckets_blocks (streamId : StreamId) (s : Sys) :
  isClosed (mgr s) = false →
  ∃ s', AddIndexForAllBuckets W streamId s = Blocked s' ∧
        mutex (mgr s') = true ∧
        filter (λ c, is_admin_call c = true) (trace s') =
        filter (λ c, is_admin_call c = true) (trace s).
Proof.
  intros Hc. unfold AddIndexForAllBuckets at 1, locked at 1.
  destruct (mutex (mgr s)) eqn:Hm; [by exists s|].
  destruct s as [[ss ts mo mu cl st] dv iv tr]. cbn in *. subst.
  unfold getBucketWithIndexes, AddIndexForBuckets, locked. run_mgr.
  destruct (w_GetGlobalTopology _ _); cbn; eexists; (split; [reflexivity|]); cbn;
    (split; [done|]); by rewrite filter_app, app_nil_r.
Qed.

(** X21 (AddIndexForBuckets, DeleteIndexForBuckets, addIndexInstances,
    removeIndexInstances, RestartStreamIfNecessary): on a manager that
    is not closed, the four operations that add or delete indexes
    return ERROR_STREAM_NOT_OPEN for a stream that is not open, without
    a call and without a change. RestartStreamIfNecessary does not look
    at the stream: it passes the timestamps to the admin and returns
    its answer. *)
Theorem stream_not_open (streamId : StreamId) (buckets : list string) (bucket : string)
    (instances : list Instance) (instanceIds_ : list Z) (timestamps : list nat) (s : Sys) :
  callable s →
  isOpen (streams (mgr s) !! streamId) = false →
  AddIndexForBuckets W streamId buckets s = Done (inl ERROR_STREAM_NOT_OPEN) s ∧
  DeleteIndexForBuckets W streamId buckets s = Done (inl ERROR_STREAM_NOT_OPEN) s ∧
  addIndexInstances W streamId bucket instances s = Done (inl ERROR_STREAM_NOT_OPEN) s ∧
  removeIndexInstances W streamId bucket instanceIds_ s = Done (inl ERROR_STREAM_NOT_OPEN) s ∧
  RestartStreamIfNecessary W streamId timestamps s =
    Done (asE (w_RestartStreamIfNecessary W (length (trace s)) streamId timestamps))
         (mkSys (mgr s) (defnVars s) (instVars s)
                (trace s ++ [CRestartStreamIfNecessary streamId timestamps])).
Proof.
  intros [Hc Hm] Ho.
  unfold AddIndexForBuckets, DeleteIndexForBuckets, addIndexInstances, removeIndexInstances,
    RestartStreamIfNecessary.
  rewrite !run_locked by done.
  destruct s as [[ss ts mo mu cl st] dv iv tr]. cbn in *. subst. run_mgr. by rewrite Ho.
Qed.

(** *** The listener *)

(** What handleTopologyChange does to the books, however it ends. *)
Lemma handleTopologyChange_books newTopology s :
  match handleTopologyChange W newTopology s with
  | Done (inr _) s' =>
      booksOf s' = (streams (mgr s), <[Bucket newTopology := newTopology]> (topologies (mgr s)),
                    monitor (mgr s), isClosed (mgr s), stopch (mgr s))
  | Done (inl _) s' | Crashed s' | Blocked s' => booksOf s' = booksOf s
  end.
Proof.
  unfold handleTopologyChange, bindE, mbind, M_bind, bind.
  pose proof (handleTopologyChangeForMaintStream_keeps newTopology s) as H1.
  destruct (handleTopologyChangeForMaintStream W newTopology s) as [[e|[]] s1|s1|s1];
    [exact H1| |exact H1..].
  pose proof (handleTopologyChangeForInitStream_keeps newTopology s1) as H2.
  destruct (handleTopologyChangeForInitStream W newTopology s1) as [[e|[]] s2|s2|s2];
    unfold kept in *; [congruence| |congruence..].
  cbn. unfold booksOf in *. cbn. congruence.
Qed.

(** X22 (handleTopologyChange): the new topology is recorded only when
    both streams were handled without error. When handleTopologyChange
    returns nil, [topologies] has the new topology under its bucket and
    is as before elsewhere; when it returns an error, [topologies] is as
    before, so the same change is computed again from the old topology
    when the next version arrives. The streams and the closed flag are
    not written in either case. *)
Theorem handleTopologyChange_records (newTopology : IndexTopology) (s s' : Sys)
    (r : error + unit) :
  handleTopologyChange W newTopology s = Done r s' →
  streams (mgr s') = streams (mgr s) ∧ isClosed (mgr s') = isClosed (mgr s) ∧
  topologies (mgr s') =
    match r with
    | inr _ => <[Bucket newTopology := newTopology]> (topologies (mgr s))
    | inl _ => topologies (mgr s)
    end.
Proof.
  intros H. pose proof (handleTopologyChange_books newTopology s) as Hb.
  rewrite H in Hb. unfold booksOf in Hb. destruct r as [e|[]]; by injection Hb as -> -> _ -> _.
Qed.

(** What one change does to the books. *)
Lemma handleChange_books data s :
  match handleChange W data s with
  | Done _ s' | Blocked s' =>
      booksOf s' = booksOf s ∨
      ∃ t, data = Some t ∧
           booksOf s' = (streams (mgr s), <[Bucket t := t]> (topologies (mgr s)),
                         monitor (mgr s), isClosed (mgr s), stopch (mgr s))
  | Crashed _ => False
  end.
Proof.
  destruct data as [t|]; [|by left]. unfold handleChange.
  pose proof (handleTopologyChange_books t s) as H.
  destruct (handleTopologyChange W t s) as [[e|[]] s'|s'|s']; eauto.
Qed.

(** X23 (run): the loop of the listener survives every change and only
    records topologies. Over the changes it receives the loop does not
    panic: a panic of the handler is recovered. It never opens or closes
    a stream, and afterwards the topology recorded for a bucket is the
    one from before the loop or one of the topologies received for that
    bucket. *)
Theorem run_loop_records (changes : list (option IndexTopology)) (s : Sys) :
  match run_loop W changes s with
  | Done _ s' | Blocked s' =>
      streams (mgr s') = streams (mgr s) ∧ isClosed (mgr s') = isClosed (mgr s) ∧
      ∀ bucket, topologies (mgr s') !! bucket = topologies (mgr s) !! bucket ∨
                ∃ t, Some t ∈ changes ∧ Bucket t = bucket ∧
                     topologies (mgr s') !! bucket = Some t
  | Crashed _ => False
  end.
Proof.
  unfold run_loop. revert s. induction changes as [|data changes IH]; intros s.
  - cbn. split; [done|]. split; [done|]. by left.
  - cbn [forM]. unfold bind.
    pose proof (handleChange_books data s) as H1.
    destruct (handleChange W data s) as [[] s1|s1|s1]; [| done |].
    + specialize (IH s1).
      assert (streams (mgr s1) = streams (mgr s) ∧ isClosed (mgr s1) = isClosed (mgr s) ∧
              ∀ bucket, topologies (mgr s1) !! bucket = topologies (mgr s) !! bucket ∨
                        ∃ t, data = Some t ∧ Bucket t = bucket ∧
                             topologies (mgr s1) !! bucket = Some t) as (Hs & Hc & Ht).
      { destruct H1 as [H1|(t & -> & H1)]; unfold booksOf in H1;
          injection H1 as -> Ht _ -> _; (split; [done|]); (split; [done|]); intros bucket.
        - left. by rewrite Ht.
        - rewrite Ht. destruct (decide (Bucket t = bucket)) as [<-|Hne].
          + right. exists t. by rewrite lookup_insert_eq.
          + left. by rewrite lookup_insert_ne. }
      destruct (forM (handleChange W) changes s1) as [[] s'|s'|s']; [| done |];
        destruct IH as (IHs & IHc & IHt); (split; [congruence|]); (split; [congruence|]);
        intros bucket;
        (destruct (IHt bucket) as [Heq|(t & Hin & Hb & Heq)];
         [ rewrite Heq; destruct (Ht bucket) as [?|(t & -> & Hb & ?)];
           [ by left | right; exists t; split; [left|done] ]
         | right; exists t; split; [by right|done] ]).
    + destruct H1 as [H1|(t & -> & H1)]; unfold booksOf in H1;
        injection H1 as -> Ht _ -> _; (split; [done|]); (split; [done|]); intros bucket.
      * left. by rewrite Ht.
      * rewrite Ht. destruct (decide (Bucket t = bucket)) as [<-|Hne].
        -- right. exists t. rewrite lookup_insert_eq. split; [left|done].
        -- left. by rewrite lookup_insert_ne.
Qed.

(** *** The bootstrap *)

Lemma locked_Done {A} (body : M Sys A) s a s' :
  mutex (mgr s) = false →
  locked body s = Done a s' →
  ∃ s1, body (mkSys (set_mutex true (mgr s)) (defnVars s) (instVars s) (trace s)) = Done a s1 ∧
        s' = mkSys (set_mutex false (mgr s1)) (defnVars s1) (instVars s1) (trace s1).
Proof.
  intros Hm. rewrite run_locked by done.
  destruct (body _) as [a1 s1|s1|s1]; [|done..]. intros [= <- <-]. by exists s1.
Qed.

Lemma extern_keeps_admin {A} (c : call) (answer : nat → A) :
  is_admin_call c = false → respects (kept adminOf) (extern c answer).
Proof.
  intros Hc s. unfold kept, adminOf. cbn. rewrite filter_app, filter_cons, filter_nil.
  rewrite decide_False by (by rewrite Hc). apply app_nil_r.
Qed.

Lemma AddIndexForBuckets_loop_admin streamId buckets :
  ∀ allInstances,
  respects (kept adminOf) (AddIndexForBuckets_loop W streamId buckets allInstances).
Proof.
  induction buckets as [|bucket buckets IH]; intros allInstances;
    cbn [AddIndexForBuckets_loop]; unfold getAddrForPort;
    repeat first [ apply extern_keeps_admin; reflexivity | apply IH | books_step ].
Qed.

(** AddIndexForBuckets that succeeds on a manager that is not closed. *)
Lemma AddIndexForBuckets_Done streamId buckets s s' :
  callable s →
  AddIndexForBuckets W streamId buckets s = Done (inr tt) s' →
  callable s' ∧ booksOf s' = booksOf s ∧
  ∃ instances, adminOf s' = adminOf s ++ [CAddIndexToStream streamId buckets instances].
Proof.
  intros [Hc Hm] H.
  pose proof (respects_Done _ _ _ _ _ (AddIndexForBuckets_keeps streamId buckets) H) as Hk.
  unfold AddIndexForBuckets in H. apply locked_Done in H as (s1 & H & ->); [|done].
  split; [split; cbn; [|done]|].
  { unfold kept, booksOf in Hk. cbn in Hk. injection Hk as _ _ _ Hk _. by rewrite <- Hc. }
  split; [exact Hk|]. unfold mbind, M_bind in H.
  apply bind_Done in H as (m & s0 & [= <- <-] & H). cbn in H. rewrite Hc in H.
  destruct (isOpen (streams (mgr s) !! streamId)); [|done]. cbn in H.
  apply bindE_Done_inr in H as (allInstances & s2 & Hloop & H).
  apply bind_Done in H as (err & s3 & Hext & Hret).
  pose proof (respects_Done _ _ _ _ _ (AddIndexForBuckets_loop_admin streamId buckets []) Hloop)
    as Hadm.
  unfold kept, adminOf in Hadm. cbn in Hadm.
  injection Hret as _ <-. injection Hext as _ <-. unfold adminOf. cbn.
  exists allInstances. by rewrite filter_app, Hadm.
Qed.

(** DeleteIndexForBuckets that succeeds on a manager that is not
    closed. *)
Lemma DeleteIndexForBuckets_Done streamId buckets s s' :
  callable s →
  DeleteIndexForBuckets W streamId buckets s = Done (inr tt) s' →
  callable s' ∧ booksOf s' = booksOf s ∧
  ∃ instances, adminOf s' = adminOf s ++ [CDeleteIndexFromStream streamId buckets instances].
Proof.
  intros [Hc Hm] H.
  pose proof (respects_Done _ _ _ _ _ (DeleteIndexForBuckets_keeps streamId buckets) H) as Hk.
  unfold DeleteIndexForBuckets in H. apply locked_Done in H as (s1 & H & ->); [|done].
  split; [split; cbn; [|done]|].
  { unfold kept, booksOf in Hk. cbn in Hk. injection Hk as _ _ _ Hk _. by rewrite <- Hc. }
  split; [exact Hk|]. unfold mbind, M_bind in H.
  apply bind_Done in H as (m & s0 & [= <- <-] & H). cbn in H. rewrite Hc in H.
  destruct (isOpen (streams (mgr s) !! streamId)); [|done]. cbn in H.
  destruct (w_GetAllDeletedIndexInstancesId _ _ _) as [e|instances]; [done|].
  apply bind_Done in H as (err & s3 & Hext & Hret).
  injection Hret as _ <-. injection Hext as _ <-. unfold adminOf. cbn.
  exists instances. by rewrite <- app_assoc, filter_app.
Qed.

(** StartStream that succeeds on a manager that is not closed. *)
Lemma StartStream_Done streamId s s' :
  callable s →
  StartStream W streamId s = Done (inr tt) s' →
  callable s' ∧ isOpen (streams (mgr s') !! streamId) = true ∧
  topologies (mgr s') = topologies (mgr s) ∧ adminOf s' = adminOf s.
Proof.
  intros Hs. destruct (isOpen (streams (mgr s) !! streamId)) eqn:Ho.
  - rewrite StartStream_open by done. by intros [= <-].
  - rewrite StartStream_run by done. cbn zeta.
    destruct (w_newStream _ _ _ _); [done|].
    destruct (w_streamStart _ _ _); intros [= <-]. destruct Hs as [Hc Hm].
    split; [by split|]. cbn. rewrite lookup_insert_eq. split; [done|]. split; [done|].
    unfold adminOf. cbn. by rewrite filter_app, app_nil_r.
Qed.

(** X24 (initializeMaintenanceStream, getBucketWithIndexes): what a
    bootstrap that succeeds has done. On a manager that is not closed,
    when initializeMaintenanceStream returns nil the maintenance stream
    is open and the recorded topologies are as before. If the global
    topology, asked for after the stream is started, is missing or has
    no key, the admin is not called. If it has keys, the admin is called
    twice, for the maintenance stream and the buckets of all the keys at
    once: AddIndexToStream, then DeleteIndexFromStream. *)
Theorem initializeMaintenanceStream_bootstraps (s s' : Sys) :
  callable s →
  initializeMaintenanceStream W s = Done (inr tt) s' →
  isOpen (streams (mgr s') !! MAINT_STREAM) = true ∧
  topologies (mgr s') = topologies (mgr s) ∧
  match w_GetGlobalTopology W (length (trace (stateOf (StartStream W MAINT_STREAM s)))) with
  | inl _ | inr [] => adminOf s' = adminOf s
  | inr keys =>
      let buckets := map (getBucketFromTopologyKey W) keys in
      ∃ instances instanceIds_,
        adminOf s' = adminOf s ++ [CAddIndexToStream MAINT_STREAM buckets instances;
                                   CDeleteIndexFromStream MAINT_STREAM buckets instanceIds_]
  end.
Proof.
  intros Hs H. unfold initializeMaintenanceStream in H.
  apply bindE_Done_inr in H as ([] & s1 & Hstart & H). rewrite Hstart. cbn [stateOf].
  apply StartStream_Done in Hstart as (Hs1 & Ho & Ht & Ha); [|done].
  apply bindE_Done_inr in H as (buckets & s2 & Hget & H).
  unfold getBucketWithIndexes, mbind, M_bind in Hget.
  apply bind_Done in Hget as (globalTop & s2' & [= <- <-] & Hget).
  set (s2' := mkSys (mgr s1) (defnVars s1) (instVars s1) (trace s1 ++ [CGetGlobalTopology])) in *.
  assert (callable s2' ∧ booksOf s2' = booksOf s1 ∧ adminOf s2' = adminOf s1) as (Hs2 & Hb2 & Ha2).
  { split; [exact Hs1|]. split; [done|]. unfold adminOf, s2'. cbn.
    by rewrite filter_app, app_nil_r. }
  assert (∀ t, booksOf t = booksOf s1 →
               isOpen (streams (mgr t) !! MAINT_STREAM) = true ∧
               topologies (mgr t) = topologies (mgr s)) as Hbooks.
  { intros t Hb. unfold booksOf in Hb. injection Hb as -> -> _ _ _. by rewrite Ht. }
  destruct (w_GetGlobalTopology W (length (trace s1))) as [e|[|key keys]];
    injection Hget as <- <-; cbn in H.
  - injection H as <-. destruct (Hbooks s2' Hb2). by rewrite Ha2, Ha.
  - injection H as <-. destruct (Hbooks s2' Hb2). by rewrite Ha2, Ha.
  - apply bindE_Done_inr in H as ([] & s3 & Hadd & H).
    apply bindE_Done_inr in H as ([] & s4 & Hdel & H). injection H as <-.
    apply AddIndexForBuckets_Done in Hadd as (Hs3 & Hb3 & instances & Ha3); [|done].
    apply DeleteIndexForBuckets_Done in Hdel as (Hs4 & Hb4 & instanceIds_ & Ha4); [|done].
    destruct (Hbooks s4) as [? ?]; [congruence|]. split; [done|]. split; [done|].
    exists instances, instanceIds_. by rewrite Ha4, Ha3, Ha2, Ha, <- app_assoc.
Qed.

(** *** loadTopology *)



(** *** The change list *)

Lemma addInstancesToChangeList_loop_run oldDefn newDefn p fromStates toStates insts :
  ∀ changes s, (p < length (instVars s))%nat →
  addInstancesToChangeList_loop oldDefn newDefn p fromStates toStates insts changes s =
  Done (changes ++ replicate (length (accepted oldDefn fromStates toStates insts))
                             (mkChangeRecord newDefn p))
       (mkSys (mgr s) (defnVars s)
              (match last insts with
               | Some inst => <[p := inst]> (instVars s)
               | None => instVars s
               end) (trace s)).
Proof.
  unfold accepted.
  induction insts as [|elem insts IH]; intros changes s Hp; cbn [addInstancesToChangeList_loop].
  - cbn. rewrite app_nil_r. by destruct s.
  - rewrite filter_cons.
    unfold mbind, M_bind, bind, storeInst, modify, loadInst.
    cbn [mgr defnVars instVars trace].
    rewrite list_lookup_insert_eq by done. rewrite IH by (cbn; by rewrite length_insert).
    cbn [mgr defnVars instVars trace].
    assert (match last (elem :: insts) with
            | Some inst => <[p := inst]> (instVars s)
            | None => instVars s
            end =
            match last insts with
            | Some inst => <[p := inst]> (<[p := elem]> (instVars s))
            | None => <[p := elem]> (instVars s)
            end) as ->.
    { destruct insts as [|inst insts]; [done|]. rewrite last_cons.
      destruct (last (inst :: insts)) eqn:Hl; [by rewrite list_insert_insert_eq|].
      by apply last_None in Hl. }
    f_equal. destruct (addDecision oldDefn elem fromStates toStates).
    + rewrite decide_True by done. cbn. by rewrite <- app_assoc.
    + by rewrite decide_False by done.
Qed.

(** X26 (addInstancesToChangeList): how many records are added follows
    the diff rule, what they hold does not. For a definition with
    instances, the function returns one record for each instance that
    the rule accepts, and every one of these records holds the pointer
    to the definition and the address of the one loop variable, which
    after the loop holds the last instance of the definition: read by
    the caller, every record is the last instance, whether the rule
    accepted it or not. *)
Theorem addInstancesToChangeList_aliases (oldDefn : option IndexDefnDistribution)
    (newDefn : nat) (defn : IndexDefnDistribution)
    (fromStates toStates : option (list IndexState)) (s : Sys) :
  defnVars s !! newDefn = Some defn →
  ∃ changes s',
    addInstancesToChangeList oldDefn newDefn fromStates toStates s = Done changes s' ∧
    length changes = length (accepted oldDefn fromStates toStates (Instances defn)) ∧
    ∀ change inst, change ∈ changes → last (Instances defn) = Some inst →
                   deref s' change = (Some defn, Some inst).
Proof.
  intros Hd. unfold addInstancesToChangeList, mbind, M_bind, bind, loadDefn, newInstVar.
  rewrite Hd. rewrite addInstancesToChangeList_loop_run by (cbn; rewrite length_app; cbn; lia).
  cbn. eexists _, _. split; [reflexivity|]. split; [by rewrite length_replicate|].
  intros change inst Hin Hlast. apply elem_of_replicate in Hin as [-> _].
  unfold deref. cbn. rewrite Hd, Hlast.
  by rewrite list_lookup_insert_eq by (rewrite length_app; cbn; lia).
Qed.

End More.

Lemma StartStream_twice_witness :
  isOpen (streams (mgr (stateOf (StartStream W0 MAINT_STREAM newSys))) !! MAINT_STREAM) = true ∧
  StartStream W0 MAINT_STREAM (stateOf (StartStream W0 MAINT_STREAM newSys)) =
    Done (inr tt) (stateOf (StartStream W0 MAINT_STREAM newSys)).
Proof.
  apply (StartStream_twice W0 MAINT_STREAM newSys _ (inr tt)).
  - split; reflexivity.
  - vm_compute. reflexivity.
Defined.

Lemma StartStream_CloseStream_witness :
  CloseStream INIT_STREAM (stateOf (StartStream W0 INIT_STREAM maintOpen)) =
  Done (inr tt)
    (mkSys (set_streams (delete INIT_STREAM) (mgr maintOpen)) [] []
           [CNewStream INIT_STREAM "9100"; CStreamStart INIT_STREAM;
            CTimerStopForStream INIT_STREAM]).
Proof.
  apply (StartStream_CloseStream W0 INIT_STREAM maintOpen
           (stateOf (StartStream W0 INIT_STREAM maintOpen))).
  - split; reflexivity.
  - reflexivity.
  - vm_compute. reflexivity.
Defined.

Lemma AddIndexForAllBuckets_blocks_witness :
  ∃ s', AddIndexForAllBuckets Wtwo MAINT_STREAM maintOpen = Blocked s' ∧
        mutex (mgr s') = true ∧
        filter (λ c, is_admin_call c = true) (trace s') =
        filter (λ c, is_admin_call c = true) (trace maintOpen).
Proof. apply (AddIndexForAllBuckets_blocks Wtwo MAINT_STREAM maintOpen). reflexivity. Defined.

Lemma stream_not_open_witness :
  AddIndexForBuckets W0 INIT_STREAM ["b1"%string] maintOpen =
  Done (inl ERROR_STREAM_NOT_OPEN) maintOpen.
Proof.
  apply (stream_not_open W0 INIT_STREAM ["b1"%string] "b1" [] [] [] maintOpen).
  - split; reflexivity.
  - reflexivity.
Defined.

Lemma handleTopologyChange_records_witness :
  topologies (mgr (stateOf (handleTopologyChange W0 topology2 maintOpen))) =
  {["b1"%string := topology2]}.
Proof.
  destruct (handleTopologyChange_records W0 topology2 maintOpen
              (stateOf (handleTopologyChange W0 topology2 maintOpen)) (inr tt))
    as (_ & _ & ->).
  - vm_compute. reflexivity.
  - vm_compute. reflexivity.
Defined.

Lemma initializeMaintenanceStream_bootstraps_witness :
  isOpen (streams (mgr (stateOf (initializeMaintenanceStream W0 newSys))) !! MAINT_STREAM) =
  true.
Proof.
  apply (initializeMaintenanceStream_bootstraps W0 newSys
           (stateOf (initializeMaintenanceStream W0 newSys))).
  - split; reflexivity.
  - vm_compute. reflexivity.
Defined.


Lemma addInstancesToChangeList_aliases_witness :
  ∃ changes s',
    addInstancesToChangeList (Some d1_ready) 0 (Some [INDEX_STATE_ACTIVE; INDEX_STATE_READY])
      (Some [INDEX_STATE_DELETED])
      (mkSys (mgr maintOpen) [d1_42_deleted] [] []) = Done changes s' ∧
    length changes =
      length (accepted (Some d1_ready) (Some [INDEX_STATE_ACTIVE; INDEX_STATE_READY])
                       (Some [INDEX_STATE_DELETED]) (Instances d1_42_deleted)) ∧
    ∀ change inst, change ∈ changes → last (Instances d1_42_deleted) = Some inst →
                   deref s' change = (Some d1_42_deleted, Some inst).
Proof.
  apply (addInstancesToChangeList_aliases (Some d1_ready) 0 d1_42_deleted
           (Some [INDEX_STATE_ACTIVE; INDEX_STATE_READY]) (Some [INDEX_STATE_DELETED])
           (mkSys (mgr maintOpen) [d1_42_deleted] [] [])).
  reflexivity.
Defined.

End ManagerMore.

(** ** scan_coordinator.go: snapshots and index instances *)

Module ScanFacts.
Import Scan ScanSpec.

Lemma listenSnapshot_snoc arrived ss s :
  listenSnapshot (arrived ++ [ss]) s = listenSnapshot_body ss (listenSnapshot arrived s).
Proof. unfold listenSnapshot. by rewrite foldl_app. Qed.

Lemma lastFor_snoc instId arrived ss :
  lastFor instId (arrived ++ [ss]) =
  if decide (IndexInstId ss = instId) then Some ss else lastFor instId arrived.
Proof.
  unfold lastFor. rewrite filter_app, filter_cons, filter_nil.
  destruct (decide (IndexInstId ss = instId)).
  - apply last_snoc.
  - by rewrite app_nil_r.
Qed.

Lemma listenSnapshot_body_lookup ss s instId :
  lastSnapshot (listenSnapshot_body ss s) !! instId =
  if decide (IndexInstId ss = instId)
  then match Timestamp ss with
       | Some _ => Some (Some ss)
       | None => None
       end
  else lastSnapshot s !! instId.
Proof.
  unfold listenSnapshot_body.
  destruct (lastSnapshot s !! IndexInstId ss) as [old|] eqn:Hold;
    destruct (Timestamp ss); cbn;
    destruct (decide (IndexInstId ss = instId)) as [<-|Hne];
    rewrite ?lookup_insert_eq, ?lookup_insert_ne, ?lookup_delete_eq, ?lookup_delete_ne by done;
    done.
Qed.

Lemma held_insert instId ss (m : gmap Z (option IndexSnapshot)) :
  m !! instId = None →
  omap id (map_to_list (<[instId := Some ss]> m)).*2 ≡ₚ ss :: omap id (map_to_list m).*2.
Proof. intros Hnone. by rewrite map_to_list_insert. Qed.

Lemma held_delete instId old (m : gmap Z (option IndexSnapshot)) :
  m !! instId = Some old →
  omap id (map_to_list m).*2 ≡ₚ
  match old with
  | Some o => [o]
  | None => []
  end ++ omap id (map_to_list (delete instId m)).*2.
Proof.
  intros Hold. rewrite <- (map_to_list_delete m instId old Hold).
  cbn. by destruct old.
Qed.

Lemma stamped_one ss :
  stamped [ss] = match Timestamp ss with
                 | Some _ => [ss]
                 | None => []
                 end.
Proof.
  unfold stamped. rewrite filter_cons, filter_nil.
  destruct (Timestamp ss); destruct (decide _) as [[? ?]|Hn]; try done.
  destruct Hn. by eexists.
Qed.

Lemma listenSnapshot_body_conserves ss s :
  destroyed (listenSnapshot_body ss s) ++ held (listenSnapshot_body ss s) ≡ₚ
  (destroyed s ++ held s) ++ stamped [ss].
Proof.
  rewrite stamped_one. unfold listenSnapshot_body, held.
  destruct s as [m d]. cbn [lastSnapshot destroyed].
  destruct (m !! IndexInstId ss) as [old|] eqn:Hold.
  - rewrite (held_delete _ _ m Hold).
    destruct (Timestamp ss) as [ts|]; cbn [lastSnapshot destroyed].
    + rewrite held_insert by apply lookup_delete_eq.
      destruct old as [o|]; cbn; rewrite <- ?app_assoc; cbn.
      * by rewrite <- !Permutation_middle, app_nil_r.
      * by rewrite <- !Permutation_middle, app_nil_r.
    + rewrite app_nil_r. destruct old as [o|]; cbn; by rewrite <- ?app_assoc.
  - destruct (Timestamp ss) as [ts|]; cbn [lastSnapshot destroyed].
    + rewrite held_insert by done.
      by rewrite <- !Permutation_middle, app_nil_r.
    + by rewrite app_nil_r.
Qed.

Lemma listenSnapshot_body_destroyed ss s :
  destroyed s `prefix_of` destroyed (listenSnapshot_body ss s).
Proof.
  unfold listenSnapshot_body.
  destruct (lastSnapshot s !! IndexInstId ss) as [[old|]|]; destruct (Timestamp ss); cbn;
    first [ by apply prefix_app_r | done ].
Qed.

(** X27 (listenSnapshot): the last snapshot decides. After
    listenSnapshot has taken the snapshots that arrived, the entry of an
    index instance in [lastSnapshot] is as before when no snapshot
    arrived for the instance; it is the last snapshot that arrived for
    it when that one has a timestamp; and there is no entry when that
    one has none: a snapshot without timestamp removes what was
    stored. *)
Theorem listenSnapshot_last_decides (arrived : list IndexSnapshot) (s : Snapshots)
    (instId : Z) :
  lastSnapshot (listenSnapshot arrived s) !! instId =
  match lastFor instId arrived with
  | None => lastSnapshot s !! instId
  | Some ss => match Timestamp ss with
               | Some _ => Some (Some ss)
               | None => None
               end
  end.
Proof.
  induction arrived as [|ss arrived IH] using rev_ind; [done|].
  rewrite listenSnapshot_snoc, lastFor_snoc, listenSnapshot_body_lookup.
  by destruct (decide (IndexInstId ss = instId)).
Qed.

(** X28 (listenSnapshot): no snapshot is lost and none is destroyed
    twice. The snapshots handed to DestroyIndexSnapshot together with
    those held in [lastSnapshot] are, counted with multiplicity, those
    from before together with the arrived snapshots that have a
    timestamp; what was destroyed before stays at the front of what is
    destroyed. A snapshot that arrives without timestamp is neither kept
    nor destroyed. *)
Theorem listenSnapshot_conserves (arrived : list IndexSnapshot) (s : Snapshots) :
  destroyed (listenSnapshot arrived s) ++ held (listenSnapshot arrived s) ≡ₚ
    (destroyed s ++ held s) ++ stamped arrived ∧
  destroyed s `prefix_of` destroyed (listenSnapshot arrived s).
Proof.
  induction arrived as [|ss arrived [IH1 IH2]] using rev_ind.
  - split; [|done]. unfold stamped. by rewrite filter_nil, app_nil_r.
  - rewrite listenSnapshot_snoc. split.
    + rewrite listenSnapshot_body_conserves, IH1. unfold stamped.
      by rewrite filter_app, app_assoc.
    + etrans; [exact IH2 | apply listenSnapshot_body_destroyed].
Qed.

Lemma findIndexInstance_head insts partn defnID :
  findIndexInstance insts partn defnID =
  match head (instancesOf defnID insts) with
  | None => inl ErrIndexNotFound
  | Some inst => if bool_decide (InstId inst ∈ partn) then inr inst else inl ErrNotMyIndex
  end.
Proof.
  unfold instancesOf. induction insts as [|inst insts IH]; [done|].
  rewrite filter_cons. cbn [findIndexInstance].
  destruct (decide (DefnId inst = defnID)) as [Heq|Hne].
  - by rewrite bool_decide_eq_true_2.
  - by rewrite bool_decide_eq_false_2.
Qed.

(** X29 (findIndexInstance): what the three results mean. An instance
    is returned only if it is in the instance map, is of the definition
    asked for and has an entry in the partition map; ErrNotMyIndex is
    returned only if some instance of the definition has no entry in the
    partition map; ErrIndexNotFound is returned exactly when the
    instance map has no instance of the definition. *)
Theorem findIndexInstance_results (insts : list IndexInst) (partn : gset Z) (defnID : Z) :
  (∀ inst, findIndexInstance insts partn defnID = inr inst →
           inst ∈ insts ∧ DefnId inst = defnID ∧ InstId inst ∈ partn) ∧
  (findIndexInstance insts partn defnID = inl ErrNotMyIndex →
   ∃ inst, inst ∈ insts ∧ DefnId inst = defnID ∧ InstId inst ∉ partn) ∧
  (findIndexInstance insts partn defnID = inl ErrIndexNotFound ↔
   ∀ inst, inst ∈ insts → DefnId inst ≠ defnID).
Proof.
  rewrite findIndexInstance_head. unfold instancesOf.
  destruct (filter _ insts) as [|inst0 rest] eqn:Hf; cbn.
  - split; [done|]. split; [done|]. split; [|done].
    intros _ inst Hin Heq.
    assert (inst ∈ filter (λ inst, DefnId inst = defnID) insts) as Hin'
      by (by apply list_elem_of_filter).
    rewrite Hf in Hin'. by apply elem_of_nil in Hin'.
  - assert (inst0 ∈ filter (λ inst, DefnId inst = defnID) insts) as Hin
      by (rewrite Hf; left).
    apply list_elem_of_filter in Hin as [Heq Hin].
    destruct (bool_decide (InstId inst0 ∈ partn)) eqn:Hp.
    + apply bool_decide_eq_true in Hp.
      split; [by intros ? [= <-]|]. split; [done|]. split; [done|].
      intros Hall. by destruct (Hall inst0 Hin).
    + apply bool_decide_eq_false in Hp.
      split; [done|]. split; [by exists inst0|]. split; [done|].
      intros Hall. by destruct (Hall inst0 Hin).
Qed.

(** X30 (findIndexInstance): the instance map is a Go map, which the
    loop visits in no fixed order. When at most one instance is of the
    definition asked for, the result is the same in whatever order the
    instances are visited. When two instances are of the definition and
    only one of them has an entry in the partition map, the result is
    that instance or ErrNotMyIndex, depending on which is visited
    first. *)
Theorem findIndexInstance_order (insts insts' : list IndexInst) (partn : gset Z)
    (defnID : Z) :
  (insts ≡ₚ insts' → (length (instancesOf defnID insts) ≤ 1)%nat →
   findIndexInstance insts partn defnID = findIndexInstance insts' partn defnID) ∧
  (∀ inst1 inst2, DefnId inst1 = defnID → DefnId inst2 = defnID →
                  InstId inst1 ∈ partn → InstId inst2 ∉ partn →
                  findIndexInstance (inst1 :: inst2 :: insts) partn defnID = inr inst1 ∧
                  findIndexInstance (inst2 :: inst1 :: insts) partn defnID =
                    inl ErrNotMyIndex).
Proof.
  split.
  - intros Hperm Hlen. rewrite !findIndexInstance_head.
    assert (instancesOf defnID insts ≡ₚ instancesOf defnID insts') as Hp
      by (unfold instancesOf; by rewrite Hperm).
    destruct (instancesOf defnID insts) as [|inst0 [|]] eqn:Hf; cbn in Hlen; [| |lia].
    + apply Permutation_nil_l in Hp. by rewrite <- Hp.
    + apply Permutation_singleton_l in Hp. by rewrite <- Hp.
  - intros inst1 inst2 H1 H2 Hin Hout. cbn [findIndexInstance].
    by rewrite !bool_decide_eq_true_2, bool_decide_eq_false_2 by done.
Qed.

Lemma findIndexInstance_order_witness :
  findIndexInstance [mkIndexInst 1 10; mkIndexInst 2 20] {[1; 2]} 10 =
  findIndexInstance [mkIndexInst 2 20; mkIndexInst 1 10] {[1; 2]} 10.
Proof.
  apply (findIndexInstance_order [mkIndexInst 1 10; mkIndexInst 2 20]
           [mkIndexInst 2 20; mkIndexInst 1 10] {[1; 2]} 10).
  - apply Permutation_swap.
  - vm_compute. lia.
Defined.

End ScanFacts.
